(** * Whisper transcriber: orchestration, enrichment, export and intake

    A shallow embedding of the computational core of the application:
    - [utils.py]: [validate_audio_file], [save_uploaded_file],
      [estimate_processing_time], [format_time],
      [guess_extension_from_mime], [clean_filename], [format_file_size],
      [get_audio_duration_estimate], [validate_advanced_options];
    - [transcriber.py]: [load_whisper_model], [transcribe_audio],
      [enhance_transcription_result], [filter_segments_by_confidence],
      [analyze_audio_characteristics], [get_model_recommendations],
      [optimize_for_device];
    - [main.py]: [generate_srt], [format_time_srt];
    - [audio_recorder.py]: [generate_srt_from_segments],
      [format_time_for_srt], [get_audio_config].

    Functions of the libraries the code calls ([pathlib], [mimetypes],
    [tempfile], [re], the recognition model) are section variables.

    Conventions of the embedding.
    - A Python [float] is the rational number ([Q]) the double denotes;
      infinities, NaN, the sign of zero and overflow are outside the
      embedding. The timestamps of the subtitles, the confidence of a
      segment, the pause between two segments, the estimate of the
      processing time and the displayed file size are computed in the
      arithmetic of doubles: every operation is followed by the rounding
      [fl] to the nearest double, and [//] and [%] follow the interpreter's
      [divmod]. The builtin [sum] on floats differs between versions of the
      interpreter and is a parameter. The other quantities (the average
      confidence, the two speed ratios, the speech rate, the estimate of a
      duration) are the values of their expressions as real numbers.
    - [int(x)] truncates towards zero, and [/] raises [ZeroDivisionError]
      on a zero divisor.
    - A Python [str] is a [string] whose characters are code points below
      256.
    - A [dict] with a fixed repertoire of keys is a record; a key that may
      be absent is an [option] field, [d.get(k, v)] is [default v], and
      [d[k]] on an absent key raises [KeyError].
    - Exceptions are values of [exn], carried by the [result] monad. *)

From Stdlib Require Import ZArith QArith Qround Qpower Qabs Lqa Lia Bool List.
From Stdlib Require Import String Ascii.
From Stdlib Require Import DecimalString DecimalPos DecimalN.
From Stdlib.Strings Require Import Byte.
From stdpp Require Import gmap strings.
Import ListNotations.

Local Open Scope string_scope.
Local Open Scope Z_scope.

(** ** Python primitives *)

Inductive exn : Type :=
| KeyError (key : string)
| ZeroDivisionError
| Exception (msg : string).

Inductive result (A : Type) : Type :=
| Ok (a : A)
| Raise (e : exn).
Arguments Ok {A} a.
Arguments Raise {A} e.

#[global] Instance result_ret : MRet result := fun A a => Ok a.

#[global] Instance result_bind : MBind result := fun A B k m =>
  match m with
  | Ok a => k a
  | Raise e => Raise e
  end.

#[global] Instance result_fmap : FMap result := fun A B f m =>
  match m with
  | Ok a => Ok (f a)
  | Raise e => Raise e
  end.

(** [d[key]] on an optional key. *)
Definition getitem {A} (key : string) (field : option A) : result A :=
  match field with
  | Some a => Ok a
  | None => Raise (KeyError key)
  end.

(** [d.get(key, dflt)]. *)
Definition get {A} (field : option A) (dflt : A) : A :=
  match field with
  | Some a => a
  | None => dflt
  end.

Definition Qltb (x y : Q) : bool := negb (Qle_bool y x).
Definition Qgtb (x y : Q) : bool := Qltb y x.
Definition Qgeb (x y : Q) : bool := Qle_bool y x.

Definition Qmaxb (x y : Q) : Q := if Qltb x y then y else x.
Definition Qminb (x y : Q) : Q := if Qltb y x then y else x.

(** [x / y] as a real number, where the quotient is only stored. *)
Definition truediv (x y : Q) : result Q :=
  if Qeq_bool y 0 then Raise ZeroDivisionError else Ok (x / y)%Q.

(** [int(x)]: truncation towards zero. *)
Definition int (x : Q) : Z :=
  if Qle_bool 0 x then Qfloor x else Qceiling x.

(** *** Double precision

    Where a digit that is printed or the outcome of a comparison depends on
    it, the arithmetic of the code is written with the rounding of a real
    number to the nearest double, ties to the even one: 53 significant bits
    on exponents from -1074. *)

(** Rounding to the nearest integer, ties to the even one. *)
Definition round_half_even (y : Q) : Z :=
  let f := Qfloor y in
  let r := (y - inject_Z f)%Q in
  if Qltb r (1 # 2) then f
  else if Qltb (1 # 2) r then f + 1
  else if Z.even f then f else f + 1.

Definition pow2 (e : Z) : Q := (2 ^ e)%Q.

(** The [b] with [2^b <= |x| < 2^(b+1)], for a number that is not zero. *)
Definition binade (x : Q) : Z :=
  let l := Z.log2 (Z.abs (Qnum x)) - Z.log2 (Z.pos (Qden x)) in
  if Qltb (Qabs x) (pow2 l) then l - 1 else l.

(** The exponent of the last bit of the double nearest to [x]. *)
Definition expo (x : Q) : Z := Z.max (binade (Qred x) - 52) (-1074).

(** The double nearest to [x]; a decimal literal [0.15] of the code is
    [fl (15 # 100)]. *)
Definition fl (x : Q) : Q :=
  if Qeq_bool (Qred x) 0 then 0%Q
  else Qred (inject_Z (round_half_even (Qred x / pow2 (expo x))) * pow2 (expo x)).

(** [math.fmod] of C, which is exact: the remainder has the sign of [x]. *)
Definition fmod (x y : Q) : Q := (x - y * inject_Z (int (x / y)))%Q.

(** [divmod] on floats, for a divisor that is not zero, as the interpreter
    computes it (floatobject.c): the remainder takes the sign of the
    divisor and the quotient is snapped to the nearest whole number. *)
Definition float_divmod (vx wx : Q) : Q * Q :=
  let mod_ := fmod vx wx in
  let div := fl (fl (vx - mod_) / wx) in
  let '(mod_, div) :=
    if Qeq_bool mod_ 0 then (0%Q, div)
    else if xorb (Qltb wx 0) (Qltb mod_ 0) then (fl (mod_ + wx), fl (div - 1))
    else (mod_, div) in
  let floordiv :=
    if Qeq_bool div 0 then 0%Q
    else
      let f := inject_Z (Qfloor div) in
      if Qltb (1 # 2) (fl (div - f)) then fl (f + 1) else f in
  (floordiv, mod_).

(** [x // y] and [x % y] on floats. *)
Definition float_floordiv (x y : Q) : Q := fst (float_divmod x y).
Definition float_mod (x y : Q) : Q := snd (float_divmod x y).

(** [x / y] on floats. *)
Definition float_truediv (x y : Q) : result Q :=
  if Qeq_bool y 0 then Raise ZeroDivisionError else Ok (fl (x / y)).

(** [str(n)] for a natural number. *)
Definition str_of_N (n : N) : string := NilZero.string_of_uint (N.to_uint n).

Definition str_of_Z (z : Z) : string :=
  if z <? 0 then String "-" (str_of_N (Z.abs_N z)) else str_of_N (Z.abs_N z).

Fixpoint zeros (n : nat) : string :=
  match n with
  | O => EmptyString
  | S n' => String "0" (zeros n')
  end.

(** [f"{z:0{width}d}"]: sign-aware zero padding to [width] characters. *)
Definition format_0d (width : nat) (z : Z) : string :=
  let digits := str_of_N (Z.abs_N z) in
  if z <? 0
  then String "-" (zeros (width - 1 - String.length digits) ++ digits)
  else zeros (width - String.length digits) ++ digits.

(** [str.isspace] on a code point below 256. *)
Definition isspace (c : ascii) : bool :=
  let n := nat_of_ascii c in
  ((9 <=? n) && (n <=? 13) || (28 <=? n) && (n <=? 32)
   || (n =? 133) || (n =? 160))%nat.

Fixpoint lstrip (s : string) : string :=
  match s with
  | EmptyString => EmptyString
  | String c s' => if isspace c then lstrip s' else s
  end.

Fixpoint rstrip (s : string) : string :=
  match s with
  | EmptyString => EmptyString
  | String c s' =>
      match rstrip s' with
      | EmptyString => if isspace c then EmptyString else String c EmptyString
      | r => String c r
      end
  end.

(** [s.strip()]. *)
Definition strip (s : string) : string := rstrip (lstrip s).

(** [len(s.split())]: the number of maximal runs of non-space characters.
    [inword] tells whether the previous character belonged to a run. *)
Fixpoint count_words_from (inword : bool) (s : string) : nat :=
  match s with
  | EmptyString => O
  | String c s' =>
      if isspace c then count_words_from false s'
      else if inword then count_words_from true s'
      else S (count_words_from true s')
  end.

Definition count_words (s : string) : nat := count_words_from false s.

(** Membership in a Python list of strings: [x in l]. *)
Definition str_in (x : string) (l : list string) : bool :=
  existsb (String.eqb x) l.

(** ** transcriber.py: device and presets *)

(** [DEVICE = "cuda" if torch.cuda.is_available() else "cpu"]. *)
Definition DEVICE (cuda_is_available : bool) : string :=
  if cuda_is_available then "cuda" else "cpu".

Record QualityPreset : Type := {
  beam_size : Z;
  best_of : Z;
  temperature : Q;
  compression_ratio_threshold : Q;
  logprob_threshold : Q;
  no_speech_threshold : Q
}.

Definition preset_fast : QualityPreset :=
  {| beam_size := 1; best_of := 1; temperature := 0;
     compression_ratio_threshold := 24 # 10;
     logprob_threshold := - (1); no_speech_threshold := 6 # 10 |}.

Definition preset_balanced : QualityPreset :=
  {| beam_size := 3; best_of := 3; temperature := 0;
     compression_ratio_threshold := 2;
     logprob_threshold := - (5 # 10); no_speech_threshold := 5 # 10 |}.

Definition preset_high_quality : QualityPreset :=
  {| beam_size := 5; best_of := 5; temperature := 0;
     compression_ratio_threshold := 18 # 10;
     logprob_threshold := - (3 # 10); no_speech_threshold := 4 # 10 |}.

Definition QUALITY_PRESETS : gmap string QualityPreset :=
  <["fast" := preset_fast]>
    (<["balanced" := preset_balanced]>
       (<["high_quality" := preset_high_quality]> ∅)).

(** The [advanced_options] dictionary; every key may be absent. *)
Record AdvancedOptions : Type := {
  opt_quality_preset : option string;
  opt_temperature : option Q;
  opt_beam_size : option Z;
  opt_confidence_threshold : option Q
}.

Definition no_options : AdvancedOptions :=
  {| opt_quality_preset := None; opt_temperature := None;
     opt_beam_size := None; opt_confidence_threshold := None |}.

(** The keyword arguments handed to [model.transcribe]. *)
Record InvocationOptions : Type := {
  io_task : string;
  io_fp16 : bool;
  io_verbose : bool;
  io_word_timestamps : bool;
  io_preset : QualityPreset;
  io_language : option string
}.

(** [transcribe_audio], lines 165-167: the preset lookup. The default
    [QUALITY_PRESETS["balanced"]] is evaluated before the lookup. *)
Definition preset_config (advanced_options : AdvancedOptions)
    : result QualityPreset :=
  let quality_preset := get (opt_quality_preset advanced_options) "balanced" in
  fallback ← getitem "balanced" (QUALITY_PRESETS !! "balanced");
  mret (get (QUALITY_PRESETS !! quality_preset) fallback).

Definition set_temperature (t : Q) (p : QualityPreset) : QualityPreset :=
  {| beam_size := beam_size p; best_of := best_of p; temperature := t;
     compression_ratio_threshold := compression_ratio_threshold p;
     logprob_threshold := logprob_threshold p;
     no_speech_threshold := no_speech_threshold p |}.

Definition set_beam_size (b : Z) (p : QualityPreset) : QualityPreset :=
  {| beam_size := b; best_of := best_of p; temperature := temperature p;
     compression_ratio_threshold := compression_ratio_threshold p;
     logprob_threshold := logprob_threshold p;
     no_speech_threshold := no_speech_threshold p |}.

(** [transcribe_audio], lines 161-186: the options passed to the model. *)
Definition transcribe_options (device_name task language : string)
    (advanced_options : AdvancedOptions) : result InvocationOptions :=
  p ← preset_config advanced_options;
  let p := match opt_temperature advanced_options with
           | Some t => set_temperature t p
           | None => p
           end in
  let p := match opt_beam_size advanced_options with
           | Some b => set_beam_size b p
           | None => p
           end in
  mret {| io_task := task;
          io_fp16 := String.eqb device_name "cuda";
          io_verbose := false;
          io_word_timestamps := true;
          io_preset := p;
          io_language :=
            if String.eqb language "auto" then None else Some language |}.

(** ** transcriber.py: [optimize_for_device] *)

Record DeviceConfig : Type := {
  device : string;
  recommended_models : list string;
  max_file_size_mb : Z;
  parallel_processing : bool
}.

(** [total_memory] is [torch.cuda.get_device_properties(0).total_memory],
    in bytes; it is only read on the ["cuda"] branch. *)
Definition optimize_for_device (device_name : string) (total_memory : Z)
    : DeviceConfig :=
  if String.eqb device_name "cuda" then
    let gpu_memory := (inject_Z total_memory / inject_Z (1024 ^ 3))%Q in
    if Qgeb gpu_memory 8 then
      {| device := device_name; recommended_models := ["medium"; "large-v2"];
         max_file_size_mb := 500; parallel_processing := true |}
    else if Qgeb gpu_memory 4 then
      {| device := device_name; recommended_models := ["small"; "medium"];
         max_file_size_mb := 250; parallel_processing := false |}
    else
      {| device := device_name; recommended_models := ["tiny"; "base"; "small"];
         max_file_size_mb := 100; parallel_processing := false |}
  else
    {| device := device_name; recommended_models := ["tiny"; "base"];
       max_file_size_mb := 50; parallel_processing := false |}.

(** ** utils.py *)

Definition SUPPORTED_AUDIO_TYPES : list (string * list string) :=
  [ ("audio/mpeg", [".mp3"]);
    ("audio/wav", [".wav"]);
    ("audio/x-wav", [".wav"]);
    ("audio/mp4", [".m4a"]);
    ("audio/x-m4a", [".m4a"]);
    ("audio/aac", [".aac"]);
    ("audio/ogg", [".ogg"]);
    ("audio/flac", [".flac"]);
    ("audio/webm", [".webm"]);
    ("video/mp4", [".mp4"]);
    ("video/mpeg", [".mpeg"; ".mpg"]);
    ("video/quicktime", [".mov"]);
    ("video/webm", [".webm"]);
    ("video/x-msvideo", [".avi"]) ].

Definition MAX_FILE_SIZE_MB : Z := 500.
Definition MIN_FILE_SIZE_KB : Z := 1.

(** The upload widget's file object. [file_type] is the MIME type, which
    the widget may leave unset. *)
Record UploadedFile : Type := {
  file_name : string;
  file_size : Z;
  file_type : option string
}.

Record ValidationResult : Type := {
  valid : bool;
  error : option string
}.

Definition invalid (msg : string) : ValidationResult :=
  {| valid := false; error := Some msg |}.

(** The extensions rejected by the last check of [validate_audio_file]. *)
Definition suspicious_extensions : list string :=
  [".exe"; ".bat"; ".sh"; ".scr"; ".com"; ".pif"].

Definition security_error : string :=
  "Tipo de arquivo não permitido por segurança".

(** [supported_extensions], built by extending a list with every value of
    [SUPPORTED_AUDIO_TYPES] in turn. *)
Definition supported_extensions : list string :=
  fold_left (fun acc entry => (acc ++ snd entry)%list) SUPPORTED_AUDIO_TYPES [].

(** [key in SUPPORTED_AUDIO_TYPES]. *)
Definition supported_mime (mime_type : string) : bool :=
  str_in mime_type (map fst SUPPORTED_AUDIO_TYPES).

Section Validation.
(** The two library functions the validator calls on the file name:
    [Path(name).suffix] and [str.lower]. *)
Variable path_suffix : string -> string.
Variable lower : string -> string.

(** No operation of the body raises on a typed file object, so the
    [except] clause of the source has no counterpart here. *)
Definition validate_audio_file (uploaded_file : option UploadedFile)
    : ValidationResult :=
  match uploaded_file with
  | None => invalid "Nenhum arquivo foi carregado"
  | Some f =>
      if String.eqb (file_name f) EmptyString
      then invalid "Nome do arquivo está vazio"
      else
        let file_size_mb := (inject_Z (file_size f) / inject_Z (1024 * 1024))%Q in
        let file_size_kb := (inject_Z (file_size f) / 1024)%Q in
        if Qltb file_size_kb (inject_Z MIN_FILE_SIZE_KB)
        then invalid ("Arquivo muito pequeno (mínimo: "
                        ++ str_of_Z MIN_FILE_SIZE_KB ++ "KB)")
        else if Qgtb file_size_mb (inject_Z MAX_FILE_SIZE_MB)
        then invalid ("Arquivo muito grande (máximo: "
                        ++ str_of_Z MAX_FILE_SIZE_MB ++ "MB)")
        else
          let mime_type := get (file_type f) EmptyString in
          if negb (String.eqb mime_type EmptyString)
             && negb (supported_mime mime_type)
          then invalid ("Tipo de arquivo não suportado: " ++ mime_type)
          else
            let file_extension := lower (path_suffix (file_name f)) in
            if negb (String.eqb file_extension EmptyString)
               && negb (str_in file_extension supported_extensions)
            then invalid ("Extensão não suportada: " ++ file_extension)
            else if str_in file_extension suspicious_extensions
            then invalid security_error
            else {| valid := true; error := None |}
  end.
End Validation.

(** [Path(name).suffix] for a POSIX path: the final component is the last
    part between slashes that is neither empty nor a single dot; its suffix
    starts at its last dot, unless that dot is its first or last character. *)
Fixpoint final_component (cur last : string) (s : string) : string :=
  let close cur := if String.eqb cur EmptyString || String.eqb cur "." then last else cur in
  match s with
  | EmptyString => close cur
  | String c s' =>
      if Ascii.eqb c "/" then final_component EmptyString (close cur) s'
      else final_component (cur ++ String c EmptyString) last s'
  end.

Fixpoint rfind_dot (pos : nat) (found : option nat) (s : string) : option nat :=
  match s with
  | EmptyString => found
  | String c s' =>
      rfind_dot (S pos) (if Ascii.eqb c "." then Some pos else found) s'
  end.

Definition posix_suffix (path : string) : string :=
  let name := final_component EmptyString EmptyString path in
  match rfind_dot 0 None name with
  | Some i =>
      if ((0 <? i) && (i <? String.length name - 1))%nat
      then substring i (String.length name - i) name
      else EmptyString
  | None => EmptyString
  end.

(** [str.lower] on code points below 256. *)
Definition lower_char (c : ascii) : ascii :=
  let n := nat_of_ascii c in
  if ((65 <=? n) && (n <=? 90)
      || (192 <=? n) && (n <=? 222) && negb (n =? 215))%nat
  then ascii_of_nat (n + 32) else c.

Fixpoint str_lower (s : string) : string :=
  match s with
  | EmptyString => EmptyString
  | String c s' => String (lower_char c) (str_lower s')
  end.

(** [format_time]: [HH:MM:SS], the zero time for a negative input. *)
Definition format_time (seconds : Q) : string :=
  if Qltb seconds 0 then "00:00:00"
  else
    let hours := int seconds / 3600 in
    let remainder := int seconds mod 3600 in
    let minutes := remainder / 60 in
    let seconds := remainder mod 60 in
    format_0d 2 hours ++ ":" ++ format_0d 2 minutes ++ ":" ++ format_0d 2 seconds.

(** [validate_advanced_options]: every key of the result is present. *)
Definition validate_advanced_options (options : AdvancedOptions)
    : AdvancedOptions :=
  let temperature := get (opt_temperature options) 0%Q in
  let beam_size := get (opt_beam_size options) 3 in
  let confidence_threshold := get (opt_confidence_threshold options) (5 # 10) in
  let quality_preset := get (opt_quality_preset options) "balanced" in
  {| opt_temperature := Some (Qmaxb 0 (Qminb 1 temperature));
     opt_beam_size := Some (Z.max 1 (Z.min 10 beam_size));
     opt_confidence_threshold := Some (Qmaxb 0 (Qminb 1 confidence_threshold));
     opt_quality_preset :=
       Some (if negb (str_in quality_preset ["fast"; "balanced"; "high_quality"])
             then "balanced" else quality_preset) |}.

(** ** transcriber.py: result enrichment *)

Record Word : Type := {
  word : string;
  probability : option Q
}.

(** A segment of the recognition output. [seg_confidence] is the key that
    [filter_segments_by_confidence] writes into the segments it keeps. *)
Record Segment : Type := {
  seg_start : option Q;
  seg_end : option Q;
  seg_text : option string;
  seg_words : option (list Word);
  seg_confidence : option Q
}.

(** The dictionary returned by [model.transcribe]. *)
Record RawTranscript : Type := {
  raw_text : string;
  raw_language : string;
  raw_segments : option (list Segment)
}.

Record AudioCharacteristics : Type := {
  speech_rate : string;
  has_silence : bool;
  language_confidence : string;
  audio_quality : string
}.

(** The same dictionary after enrichment. *)
Record Transcript : Type := {
  text : string;
  language : string;
  segments : option (list Segment);
  processing_time : option Q;
  processing_time_formatted : option string;
  advanced_options_used : option AdvancedOptions;
  average_confidence : option Q;
  audio_duration : option Q;
  audio_duration_formatted : option string;
  processing_speed_ratio : option Q;
  realtime_factor : option Q;
  filtered_segments_count : option nat;
  audio_characteristics : option AudioCharacteristics
}.

Definition set_confidence (c : Q) (s : Segment) : Segment :=
  {| seg_start := seg_start s; seg_end := seg_end s; seg_text := seg_text s;
     seg_words := seg_words s; seg_confidence := Some c |}.

Definition set_audio_characteristics (c : AudioCharacteristics) (r : Transcript)
    : Transcript :=
  {| text := text r; language := language r; segments := segments r;
     processing_time := processing_time r;
     processing_time_formatted := processing_time_formatted r;
     advanced_options_used := advanced_options_used r;
     average_confidence := average_confidence r;
     audio_duration := audio_duration r;
     audio_duration_formatted := audio_duration_formatted r;
     processing_speed_ratio := processing_speed_ratio r;
     realtime_factor := realtime_factor r;
     filtered_segments_count := filtered_segments_count r;
     audio_characteristics := Some c |}.

Section Enrichment.
(** The builtin [sum] on a list of floats: the interpreter adds from left to
    right before version 3.12 and with a compensation of the rounding
    errors from 3.12 on. *)
Variable float_sum : list Q -> Q.

(** The two counters of the confidence loop of
    [enhance_transcription_result], after one word and after one segment. *)
Definition count_word (acc : Q * nat) (w : Word) : Q * nat :=
  match probability w with
  | Some p => ((fst acc + p)%Q, S (snd acc))
  | None => acc
  end.

Definition count_segment (acc : Q * nat) (s : Segment) : Q * nat :=
  match seg_words s with
  | Some ws => fold_left count_word ws acc
  | None => acc
  end.

Definition confidence_totals (segs : list Segment) : Q * nat :=
  fold_left count_segment segs (0%Q, O).

(** [filter_segments_by_confidence]: one iteration computes the confidence
    of the segment, then the loop keeps or drops it. *)
Definition segment_confidence (s : Segment) : result Q :=
  match seg_words s with
  | Some ws =>
      let word_confidences := map (fun w => get (probability w) (5 # 10)) ws in
      match word_confidences with
      | [] => mret (5 # 10)
      | _ => float_truediv (float_sum word_confidences)
                           (inject_Z (Z.of_nat (length word_confidences)))
      end
  | None => mret (5 # 10)
  end.

Fixpoint filter_segments_loop (segs : list Segment) (threshold : Q)
    (filtered_segments : list Segment) : result (list Segment) :=
  match segs with
  | [] => mret filtered_segments
  | s :: rest =>
      c ← segment_confidence s;
      if Qgeb c threshold
      then filter_segments_loop rest threshold
             (filtered_segments ++ [set_confidence c s])%list
      else filter_segments_loop rest threshold filtered_segments
  end.

Definition filter_segments_by_confidence (segs : list Segment) (threshold : Q)
    : result (list Segment) :=
  filter_segments_loop segs threshold [].

(** The pause detection loop of [analyze_audio_characteristics]; it stops
    at the first gap above three seconds. *)
Fixpoint detect_silence (segs : list Segment) : result bool :=
  match segs with
  | a :: ((b :: _) as rest) =>
      next_start ← getitem "start" (seg_start b);
      this_end ← getitem "end" (seg_end a);
      if Qgtb (fl (next_start - this_end)) 3 then mret true
      else detect_silence rest
  | _ => mret false
  end.

Definition default_characteristics : AudioCharacteristics :=
  {| speech_rate := "normal"; has_silence := false;
     language_confidence := "medium"; audio_quality := "good" |}.

Definition analyze_audio_characteristics (r : Transcript)
    : result AudioCharacteristics :=
  match segments r with
  | Some ((_ :: _) as segs) =>
      let total_words :=
        fold_left (fun n s => (n + count_words (get (seg_text s) EmptyString))%nat)
                  segs O in
      let total_duration := get (audio_duration r) 0%Q in
      rate ← (if Qgtb total_duration 0 then
                per_second ← truediv (inject_Z (Z.of_nat total_words)) total_duration;
                let words_per_minute := (per_second * 60)%Q in
                mret (if Qltb words_per_minute 120 then "slow"
                      else if Qgtb words_per_minute 180 then "fast"
                      else "normal")
              else mret (speech_rate default_characteristics));
      silence ← detect_silence segs;
      let avg_confidence := get (average_confidence r) (5 # 10) in
      mret {| speech_rate := rate;
              has_silence := silence;
              language_confidence :=
                if Qgtb avg_confidence (8 # 10) then "high"
                else if Qltb avg_confidence (4 # 10) then "low"
                else language_confidence default_characteristics;
              audio_quality :=
                if Qgtb avg_confidence (7 # 10) then "excellent"
                else if Qgtb avg_confidence (5 # 10) then "good"
                else if Qgtb avg_confidence (3 # 10) then "fair"
                else "poor" |}
  | _ => mret default_characteristics
  end.

(** Lines 250-253: the two speed fields, computed only for a positive
    duration. The first component is [processing_speed_ratio], the second
    [realtime_factor]. *)
Definition speed_statistics (audio_duration : option Q) (processing_time : Q)
    : result (option Q * option Q) :=
  if Qgtb (get audio_duration 0%Q) 0 then
    ratio ← truediv processing_time (get audio_duration 0%Q);
    factor ← truediv (get audio_duration 0%Q) processing_time;
    mret (Some ratio, Some factor)
  else mret (None, None).

(** Line 243: the mean of the word probabilities, one half without any. *)
Definition mean_confidence (segs : list Segment) : result Q :=
  let '(total_confidence, confidence_count) := confidence_totals segs in
  if (0 <? confidence_count)%nat
  then truediv total_confidence (inject_Z (Z.of_nat confidence_count))
  else mret (5 # 10).

(** Lines 246-248: the end of the last segment, when there is a segment. *)
Definition last_segment_end (segs : list Segment) : option Q :=
  match last segs with
  | Some final => Some (get (seg_end final) 0%Q)
  | None => None
  end.

(** Lines 255-259: the segments to keep and, when the filter ran, their
    number. *)
Definition filter_if_requested (segs : list Segment)
    (advanced_options : AdvancedOptions) : result (list Segment * option nat) :=
  let confidence_threshold :=
    get (opt_confidence_threshold advanced_options) 0%Q in
  if Qgtb confidence_threshold 0 then
    l ← filter_segments_by_confidence segs confidence_threshold;
    mret (l, Some (length l))
  else mret (segs, None).

Definition enhance_transcription_result (raw : RawTranscript)
    (processing_time : Q) (advanced_options : AdvancedOptions)
    : result Transcript :=
  r ← match raw_segments raw with
      | Some segs =>
          average ← mean_confidence segs;
          let duration := last_segment_end segs in
          speed ← speed_statistics duration processing_time;
          kept ← filter_if_requested segs advanced_options;
          mret {| text := raw_text raw; language := raw_language raw;
                  segments := Some (fst kept);
                  processing_time := Some processing_time;
                  processing_time_formatted := Some (format_time processing_time);
                  advanced_options_used := Some advanced_options;
                  average_confidence := Some average;
                  audio_duration := duration;
                  audio_duration_formatted := format_time <$> duration;
                  processing_speed_ratio := fst speed;
                  realtime_factor := snd speed;
                  filtered_segments_count := snd kept;
                  audio_characteristics := None |}
      | None =>
          mret {| text := raw_text raw; language := raw_language raw;
                  segments := None;
                  processing_time := Some processing_time;
                  processing_time_formatted := Some (format_time processing_time);
                  advanced_options_used := Some advanced_options;
                  average_confidence := None; audio_duration := None;
                  audio_duration_formatted := None;
                  processing_speed_ratio := None; realtime_factor := None;
                  filtered_segments_count := None;
                  audio_characteristics := None |}
      end;
  characteristics ← analyze_audio_characteristics r;
  mret (set_audio_characteristics characteristics r).
End Enrichment.

(** ** transcriber.py: [load_whisper_model] *)

Definition exn_message (e : exn) : string :=
  match e with
  | KeyError key => "'" ++ key ++ "'"
  | ZeroDivisionError => "float division by zero"
  | Exception msg => msg
  end.

(** What a call leaves behind besides its value: the calls made to the
    recognition library and the messages shown to the user. *)
Inductive Event : Type :=
| EmptyCache
| LoadModel (name device_name : string)
| SidebarSuccess (msg : string)
| StError (msg : string)
| StWarning (msg : string).

Definition load_error_message (model_size : string) (e : exn) : string :=
  "❌ Erro ao carregar modelo " ++ model_size ++ ": " ++ exn_message e.

Section ModelLoading.
(** The recognition library: [whisper.load_model(name, device=...)]
    returns a model or raises. *)
Variable Model : Type.
Variable whisper_load_model : string -> string -> result Model.
Variable device_name : string.

(** The body of [load_whisper_model], under its caching decorator. *)
Definition load_whisper_model_body (model_size : string)
    : list Event * result Model :=
  let entry :=
    ((if String.eqb device_name "cuda" then [EmptyCache] else [])
       ++ [LoadModel model_size device_name])%list in
  match whisper_load_model model_size device_name with
  | Ok model =>
      ((entry ++ [SidebarSuccess
                    ("✅ Modelo " ++ model_size ++ " carregado com sucesso!")])%list,
       Ok model)
  | Raise e =>
      let failed := (entry ++ [StError (load_error_message model_size e)])%list in
      if negb (String.eqb model_size "tiny") then
        ((failed ++ [StWarning "🔄 Tentando carregar modelo 'tiny' como fallback...";
                     LoadModel "tiny" device_name])%list,
         whisper_load_model "tiny" device_name)
      else (failed, Raise e)
  end.

(** The process state the decorator [st.cache_resource] works on: the
    values cached per argument, and the trace of events so far. *)
Record World : Type := {
  cache : gmap string Model;
  events : list Event
}.

(** [load_whisper_model] as callers see it: a cached value is returned
    without running the body; a value returned by the body is cached
    under the argument of the call; an exception is not cached. *)
Definition load_whisper_model (model_size : string) (w : World)
    : World * result Model :=
  match cache w !! model_size with
  | Some model => (w, Ok model)
  | None =>
      let '(trace, outcome) := load_whisper_model_body model_size in
      match outcome with
      | Ok model =>
          ({| cache := <[model_size := model]> (cache w);
              events := (events w ++ trace)%list |}, Ok model)
      | Raise e =>
          ({| cache := cache w; events := (events w ++ trace)%list |}, Raise e)
      end
  end.

(** The names of the models whose loading was attempted, in order. *)
Definition load_attempts (trace : list Event) : list string :=
  omap (fun ev => match ev with LoadModel name _ => Some name | _ => None end)
       trace.
End ModelLoading.

Arguments cache {Model} w.
Arguments events {Model} w.
Arguments Build_World {Model} cache events.

(** ** main.py: subtitle export *)

Definition newline : string := String "010" EmptyString.

(** [format_time_srt]: [HH:MM:SS,mmm]. *)
Definition format_time_srt (seconds : Q) : string :=
  let hours := int (float_floordiv seconds 3600) in
  let minutes := int (float_floordiv (float_mod seconds 3600) 60) in
  let secs := int (float_mod seconds 60) in
  let milliseconds := int (fl (float_mod seconds 1 * 1000)) in
  format_0d 2 hours ++ ":" ++ format_0d 2 minutes ++ ":" ++ format_0d 2 secs
    ++ "," ++ format_0d 3 milliseconds.

(** The loop of [generate_srt]; [i] is the counter of [enumerate]. *)
Fixpoint generate_srt_loop (i : Z) (segs : list Segment) (srt_content : string)
    : result string :=
  match segs with
  | [] => mret srt_content
  | segment :: rest =>
      start ← format_time_srt <$> getitem "start" (seg_start segment);
      end_ ← format_time_srt <$> getitem "end" (seg_end segment);
      text ← strip <$> getitem "text" (seg_text segment);
      generate_srt_loop (i + 1) rest
        (srt_content ++ str_of_Z i ++ newline ++ start ++ " --> " ++ end_
           ++ newline ++ text ++ newline ++ newline)
  end.

Definition generate_srt (segs : list Segment) : result string :=
  generate_srt_loop 1 segs EmptyString.

(** ** Reading subtitles back

    A reader for the block grammar of the SubRip format, as strict as the
    grammar: a decimal index, a line break, two timestamps of the shape
    [HH:MM:SS,mmm] around [" --> "], a line break, the text up to the first
    blank line. Indices must count up from one. A cue carries its two
    times in milliseconds. *)

Definition Cue : Type := Z * Z * string.

Definition is_digit (c : ascii) : bool :=
  let n := nat_of_ascii c in ((48 <=? n) && (n <=? 57))%nat.

Definition digit_value (c : ascii) : Z := Z.of_nat (nat_of_ascii c) - 48.

(** Exactly [k] decimal digits. *)
Fixpoint read_digits (k : nat) (acc : Z) (s : string) : option (Z * string) :=
  match k with
  | O => Some (acc, s)
  | S k' =>
      match s with
      | String c s' =>
          if is_digit c then read_digits k' (10 * acc + digit_value c) s'
          else None
      | EmptyString => None
      end
  end.

Fixpoint expect (prefix s : string) : option string :=
  match prefix with
  | EmptyString => Some s
  | String c prefix' =>
      match s with
      | String c' s' => if Ascii.eqb c c' then expect prefix' s' else None
      | EmptyString => None
      end
  end.

Fixpoint span_digits (s : string) : string * string :=
  match s with
  | String c s' =>
      if is_digit c
      then let '(digits, rest) := span_digits s' in (String c digits, rest)
      else (EmptyString, s)
  | EmptyString => (EmptyString, EmptyString)
  end.

(** A non-empty run of digits, read as a decimal number. *)
Definition read_index (s : string) : option (Z * string) :=
  let '(digits, rest) := span_digits s in
  u ← NilZero.uint_of_string digits;
  Some (Z.of_N (N.of_uint u), rest).

Definition read_timestamp (s : string) : option (Z * string) :=
  '(h, s) ← read_digits 2 0 s;
  s ← expect ":" s;
  '(m, s) ← read_digits 2 0 s;
  s ← expect ":" s;
  '(sec, s) ← read_digits 2 0 s;
  s ← expect "," s;
  '(ms, s) ← read_digits 3 0 s;
  if (m <? 60) && (sec <? 60)
  then Some (((h * 60 + m) * 60 + sec) * 1000 + ms, s)
  else None.

(** The text of a cue: everything before the first blank line. *)
Fixpoint read_text (s : string) : option (string * string) :=
  match s with
  | EmptyString => None
  | String c s' =>
      let continue :=
        '(t, rest) ← read_text s'; Some (String c t, rest) in
      if Ascii.eqb c "010" then
        match s' with
        | String c' s'' => if Ascii.eqb c' "010" then Some (EmptyString, s'') else continue
        | EmptyString => None
        end
      else continue
  end.

Fixpoint parse_blocks (fuel : nat) (i : Z) (s : string) : option (list Cue) :=
  match s with
  | EmptyString => Some []
  | _ =>
      match fuel with
      | O => None
      | S fuel' =>
          '(n, s) ← read_index s;
          if negb (n =? i) then None else
          s ← expect newline s;
          '(start, s) ← read_timestamp s;
          s ← expect " --> " s;
          '(end_, s) ← read_timestamp s;
          s ← expect newline s;
          '(t, s) ← read_text s;
          cues ← parse_blocks fuel' (i + 1) s;
          Some ((start, end_, t) :: cues)
      end
  end.

(** Every block is at least one character long, so the length of the input
    bounds the number of blocks. *)
Definition parse_srt (s : string) : option (list Cue) :=
  parse_blocks (String.length s) 1 s.

(** ** utils.py: the remaining helpers *)

(** [d[key]] or [d.get(key)] on a dictionary literal kept as an association
    list. *)
Fixpoint assoc {A} (key : string) (d : list (string * A)) : option A :=
  match d with
  | [] => None
  | (k, v) :: rest => if String.eqb key k then Some v else assoc key rest
  end.

Section MimeGuess.
(** [mimetypes.guess_extension], which raises on a type that is not a
    string and returns [None] for a type it does not know. *)
Variable mimetypes_guess_extension : option string -> result (option string).

Definition guess_extension_from_mime (mime_type : option string) : result string :=
  match mime_type ≫= (fun m => assoc m SUPPORTED_AUDIO_TYPES) with
  | Some extensions =>
      match extensions with
      | e :: _ => mret e
      | [] => Raise (Exception "list index out of range")
      end
  | None =>
      extension ← mimetypes_guess_extension mime_type;
      mret (match extension with
            | Some e => if String.eqb e EmptyString then ".unknown" else e
            | None => ".unknown"
            end)
  end.
End MimeGuess.

(** [f"{x:.1f}"]: one decimal, correctly rounded from the value of the
    double. *)
Definition format_1f (x : Q) : string :=
  let t := Z.abs_N (round_half_even (x * 10)) in
  (if Qltb x 0 then "-" else EmptyString)
    ++ str_of_N (t / 10) ++ "." ++ str_of_N (t mod 10).

Definition size_names : list string := ["B"; "KB"; "MB"; "GB"].

(** The loop of [format_file_size]; [todo] counts the iterations the test
    [i < len(size_names) - 1] still allows. *)
Fixpoint file_size_loop (todo : nat) (size : Q) (i : nat) : Q * nat :=
  match todo with
  | O => (size, i)
  | S todo' =>
      if Qgeb size 1024 then file_size_loop todo' (fl (size / 1024)) (S i)
      else (size, i)
  end.

(** [format_file_size]; [float(size_bytes)] is the double nearest to the
    byte count. *)
Definition format_file_size (size_bytes : Z) : string :=
  if size_bytes =? 0 then "0 B"
  else
    let '(size, i) :=
      file_size_loop (length size_names - 1) (fl (inject_Z size_bytes)) 0 in
    format_1f size ++ " " ++ nth i size_names EmptyString.

Definition model_factors : list (string * Q) :=
  [ ("tiny", fl (1 # 10)); ("base", fl (15 # 100)); ("small", fl (25 # 100));
    ("medium", fl (4 # 10)); ("large-v2", fl (6 # 10)) ].

Definition device_multipliers : list (string * Q) :=
  [ ("cuda", 1%Q); ("cpu", 4%Q) ].

(** The estimate of [estimate_processing_time], in minutes. *)
Definition estimated_minutes (file_size_mb : Q) (model_size device_type : string)
    : Q :=
  let base_factor := get (assoc model_size model_factors) (fl (25 # 100)) in
  let device_mult := get (assoc device_type device_multipliers) 4%Q in
  let estimated_minutes := fl (fl (file_size_mb * base_factor) * device_mult) in
  fl (estimated_minutes + (5 # 10)).

(** [estimate_processing_time]; nothing in its body raises on numbers, so
    its [except] clause has no counterpart. *)
Definition estimate_processing_time (file_size_mb : Q)
    (model_size device_type : string) : string :=
  let estimated_minutes := estimated_minutes file_size_mb model_size device_type in
  if Qltb estimated_minutes 1
  then "~" ++ str_of_Z (int (fl (estimated_minutes * 60))) ++ "s"
  else if Qltb estimated_minutes 60
  then "~" ++ format_1f estimated_minutes ++ "min"
  else
    let hours := int (float_floordiv estimated_minutes 60) in
    let minutes := int (float_mod estimated_minutes 60) in
    "~" ++ str_of_Z hours ++ "h" ++ format_0d 2 minutes ++ "min".

(** [get_audio_duration_estimate]; a zero bitrate raises inside the [try]
    and yields the fallback text. *)
Definition get_audio_duration_estimate (file_size_mb bitrate_kbps : Q) : string :=
  let file_size_bits := (file_size_mb * 1024 * 1024 * 8)%Q in
  let bitrate_bps := (bitrate_kbps * 1000)%Q in
  match truediv file_size_bits bitrate_bps with
  | Ok duration_seconds => format_time duration_seconds
  | Raise _ => "Desconhecido"
  end.

Fixpoint str_map (f : ascii -> ascii) (s : string) : string :=
  match s with
  | EmptyString => EmptyString
  | String c s' => String (f c) (str_map f s')
  end.

(** [re.sub(r'_+', '_', s)]: every run of underscores becomes one. *)
Fixpoint collapse_underscores (s : string) : string :=
  match s with
  | EmptyString => EmptyString
  | String c s' =>
      match s' with
      | String c' _ =>
          if Ascii.eqb c "_" && Ascii.eqb c' "_" then collapse_underscores s'
          else String c (collapse_underscores s')
      | EmptyString => String c EmptyString
      end
  end.

(** [s.lstrip(chars)] and [s.rstrip(chars)] for a set of characters. *)
Fixpoint lstrip_chars (p : ascii -> bool) (s : string) : string :=
  match s with
  | EmptyString => EmptyString
  | String c s' => if p c then lstrip_chars p s' else s
  end.

Fixpoint rstrip_chars (p : ascii -> bool) (s : string) : string :=
  match s with
  | EmptyString => EmptyString
  | String c s' =>
      match rstrip_chars p s' with
      | EmptyString => if p c then EmptyString else String c EmptyString
      | r => String c r
      end
  end.

Definition is_underscore (c : ascii) : bool := Ascii.eqb c "_".

Section CleanFilename.
(** [Path(filename).stem] and [Path(filename).suffix], and the class [\w]
    of the [re] module. *)
Variable path_stem : string -> string.
Variable path_suffix : string -> string.
Variable is_word : ascii -> bool.

(** [re.sub(r'[^\w\-_\.]', '_', s)] on one character. *)
Definition sanitize_char (c : ascii) : ascii :=
  if is_word c || Ascii.eqb c "-" || Ascii.eqb c "_" || Ascii.eqb c "."
  then c else "_"%char.

Definition clean_stem (name_part : string) : string :=
  let clean_name := str_map sanitize_char name_part in
  let clean_name := collapse_underscores clean_name in
  let clean_name := rstrip_chars is_underscore (lstrip_chars is_underscore clean_name) in
  if String.eqb clean_name EmptyString then "audio_file" else clean_name.

Definition clean_filename (filename : string) : string :=
  let name_part := path_stem filename in
  let extension := path_suffix filename in
  clean_stem name_part ++ extension.
End CleanFilename.

(** [Path(path).stem] for a POSIX path. *)
Definition posix_stem (path : string) : string :=
  let name := final_component EmptyString EmptyString path in
  match rfind_dot 0 None name with
  | Some i =>
      if ((0 <? i) && (i <? String.length name - 1))%nat
      then substring 0 i name
      else name
  | None => name
  end.

(** The class [\w] on ASCII letters, digits and the underscore. *)
Definition ascii_word (c : ascii) : bool :=
  let n := nat_of_ascii c in
  ((48 <=? n) && (n <=? 57) || (65 <=? n) && (n <=? 90)
   || (97 <=? n) && (n <=? 122) || (n =? 95))%nat.

(** *** Staging an upload *)

Definition chunk_size : nat := Z.to_nat 8192.

(** [range(start, ...)] with a positive step, as the list of its first
    [count] elements, and [len(range(0, stop, step))]. *)
Fixpoint py_range (count start step : nat) : list nat :=
  match count with
  | O => []
  | S count' => start :: py_range count' (start + step) step
  end.

Definition range_len (stop step : nat) : nat := (stop + step - 1) / step.

(** The writing loop of [save_uploaded_file]: what the file holds after
    every slice [bytes_data[i:i + chunk_size]] has been written. *)
Definition write_chunks (size : nat) (bytes_data : list byte) : list byte :=
  fold_left (fun file i => (file ++ take size (drop i bytes_data))%list)
            (py_range (range_len (length bytes_data) size) 0 size) [].

Section Staging.
Variable path_suffix : string -> string.
Variable lower : string -> string.
Variable mimetypes_guess_extension : option string -> result (option string).
(** The value of [get_timestamp()] at the call, and the path chosen by
    [tempfile.NamedTemporaryFile] for a suffix and a prefix. *)
Variable timestamp : string.
Variable named_temporary_file : string -> string -> string.

Definition save_error (e : exn) : exn :=
  Exception ("Erro ao salvar arquivo: " ++ exn_message e).

(** [save_uploaded_file] on a file system that maps paths to contents;
    [bytes_data] is [uploaded_file.getvalue()]. *)
Definition save_uploaded_file (uploaded_file : option UploadedFile)
    (bytes_data : list byte) (fs : gmap string (list byte))
    : gmap string (list byte) * result string :=
  let validation_result := validate_audio_file path_suffix lower uploaded_file in
  if negb (valid validation_result)
  then (fs, Raise (save_error (Exception (get (error validation_result) EmptyString))))
  else
    match uploaded_file with
    | None =>
        (fs, Raise (save_error
                      (Exception "'NoneType' object has no attribute 'name'")))
    | Some f =>
        let file_extension := lower (path_suffix (file_name f)) in
        let extension :=
          if String.eqb file_extension EmptyString
          then guess_extension_from_mime mimetypes_guess_extension (file_type f)
          else mret file_extension in
        match extension with
        | Raise e => (fs, Raise (save_error e))
        | Ok file_extension =>
            let temp_path :=
              named_temporary_file file_extension
                ("whisper_audio_" ++ timestamp ++ "_") in
            let written := write_chunks chunk_size bytes_data in
            let fs' := <[temp_path := written]> fs in
            if (length written =? 0)%nat
            then (fs', Raise (save_error
                                (Exception "Arquivo temporário não foi criado corretamente")))
            else (fs', Ok temp_path)
        end
    end.
End Staging.

(** ** transcriber.py: the remaining functions *)

Record ModelInfo : Type := {
  description : string;
  memory : string;
  speed : string;
  accuracy : string;
  languages : string
}.

Definition MODELS : list (string * ModelInfo) :=
  [ ("tiny", {| description := "Mais rápido, menos preciso"; memory := "1GB";
                speed := "⚡⚡⚡⚡⚡"; accuracy := "⭐⭐";
                languages := "🌍 Limitado" |});
    ("base", {| description := "Rápido, precisão razoável"; memory := "1GB";
                speed := "⚡⚡⚡⚡"; accuracy := "⭐⭐⭐";
                languages := "🌍 Bom" |});
    ("small", {| description := "Bom equilíbrio velocidade/precisão"; memory := "2GB";
                 speed := "⚡⚡⚡"; accuracy := "⭐⭐⭐⭐";
                 languages := "🌍 Muito Bom" |});
    ("medium", {| description := "Mais preciso, menos rápido"; memory := "5GB";
                  speed := "⚡⚡"; accuracy := "⭐⭐⭐⭐⭐";
                  languages := "🌍 Excelente" |});
    ("large-v2", {| description := "Máxima precisão, multilíngue"; memory := "10GB";
                    speed := "⚡"; accuracy := "⭐⭐⭐⭐⭐";
                    languages := "🌍 Perfeito" |}) ].

Definition get_model_recommendations (file_size_mb : Q) (device_type : string)
    : string :=
  if String.eqb device_type "cpu" then
    if Qltb file_size_mb 10 then "base"
    else if Qltb file_size_mb 50 then "small"
    else "base"
  else
    if Qltb file_size_mb 5 then "small"
    else if Qltb file_size_mb 25 then "medium"
    else "large-v2".

Definition transcription_error (e : exn) : exn :=
  Exception ("Erro durante a transcrição: " ++ exn_message e).

Section Transcription.
(** A loaded model and its method [transcribe], which returns the raw
    transcript or raises. *)
Variable Model : Type.
Variable model_transcribe : Model -> string -> InvocationOptions -> result RawTranscript.
Variable device_name : string.
Variable float_sum : list Q -> Q.

(** [transcribe_audio]. [elapsed] is the difference of the two readings of
    the clock; the trace holds the releases of accelerator memory. *)
Definition transcribe_audio (audio_path : string) (model : Model)
    (language task : string) (advanced_options : option AdvancedOptions)
    (elapsed : Q) : list Event * result Transcript :=
  let advanced_options := get advanced_options no_options in
  match transcribe_options device_name task language advanced_options with
  | Raise e => ([], Raise e)
  | Ok options =>
      let cleanup := if String.eqb device_name "cuda" then [EmptyCache] else [] in
      match
        raw ← model_transcribe model audio_path options;
        enhance_transcription_result float_sum raw elapsed advanced_options
      with
      | Ok r => (cleanup, Ok r)
      | Raise e => (cleanup, Raise (transcription_error e))
      end
  end.
End Transcription.

(** ** audio_recorder.py: subtitle export of a recording *)

(** [format_time_for_srt], a second copy of [format_time_srt]. *)
Definition format_time_for_srt (seconds : Q) : string :=
  let hours := int (float_floordiv seconds 3600) in
  let minutes := int (float_floordiv (float_mod seconds 3600) 60) in
  let secs := int (float_mod seconds 60) in
  let milliseconds := int (fl (float_mod seconds 1 * 1000)) in
  format_0d 2 hours ++ ":" ++ format_0d 2 minutes ++ ":" ++ format_0d 2 secs
    ++ "," ++ format_0d 3 milliseconds.

(** The loop of [generate_srt_from_segments], which reads the three keys
    with defaults. *)
Fixpoint generate_srt_from_segments_loop (i : Z) (segs : list Segment)
    (srt_content : string) : string :=
  match segs with
  | [] => srt_content
  | segment :: rest =>
      let start_time := format_time_for_srt (get (seg_start segment) 0%Q) in
      let end_time := format_time_for_srt (get (seg_end segment) 0%Q) in
      let text := strip (get (seg_text segment) EmptyString) in
      let srt_content := srt_content ++ (str_of_Z i ++ newline) in
      let srt_content := srt_content ++ (start_time ++ " --> " ++ end_time ++ newline) in
      let srt_content := srt_content ++ (text ++ newline ++ newline) in
      generate_srt_from_segments_loop (i + 1) rest srt_content
  end.

Definition generate_srt_from_segments (segs : list Segment) : string :=
  generate_srt_from_segments_loop 1 segs EmptyString.

(** [get_audio_config]: the settings of a recording quality. *)
Record AudioConfig : Type := {
  sample_rate : Z;
  channels : Z;
  bit_depth : Z
}.

Definition audio_configs : list (string * AudioConfig) :=
  [ ("low", {| sample_rate := 8000; channels := 1; bit_depth := 16 |});
    ("standard", {| sample_rate := 16000; channels := 1; bit_depth := 16 |});
    ("high", {| sample_rate := 44100; channels := 2; bit_depth := 16 |}) ].

Definition get_audio_config (quality : string) : result AudioConfig :=
  fallback ← getitem "standard" (assoc "standard" audio_configs);
  mret (get (assoc quality audio_configs) fallback).

(** * Vocabulary of the statements

    Predicates, sample inputs and reference formats used to state the
    properties below. None of them belongs to the program. *)

(** ** Numbers *)

(** A double that is not negative: at most 53 significant bits on an
    exponent of at least -1074. *)
Definition double (d : Q) : Prop :=
  exists m e, 0 <= m < 2 ^ 53 /\ -1074 <= e /\ (d == inject_Z m * pow2 e)%Q.

(** The same as a test: a number that is not negative and is its own
    rounding. *)
Definition is_double (x : Q) : bool := Qle_bool 0 x && Qeq_bool (fl x) x.

(** ** Devices and presets *)

(** Bytes in one gibibyte, the unit of the memory tiers. *)
Definition GiB : Z := 1024 ^ 3.

(** The options with their preset name replaced. *)
Definition set_quality_preset (name : string) (o : AdvancedOptions)
    : AdvancedOptions :=
  {| opt_quality_preset := Some name; opt_temperature := opt_temperature o;
     opt_beam_size := opt_beam_size o;
     opt_confidence_threshold := opt_confidence_threshold o |}.

(** ** Transcripts *)

(** A transcript of two segments, four seconds apart, as the recognition
    library returns it. *)
Definition sample_word (p : Q) : Word := {| word := "palavra"; probability := Some p |}.

Definition sample_segment (a b : Q) (t : string) (ws : option (list Word)) : Segment :=
  {| seg_start := Some a; seg_end := Some b; seg_text := Some t;
     seg_words := ws; seg_confidence := None |}.

Definition sample_raw : RawTranscript :=
  {| raw_text := "Teste de transcrição"; raw_language := "pt";
     raw_segments :=
       Some [sample_segment 0 2 " Teste de transcrição"
               (Some [sample_word (9 # 10); sample_word (95 # 100);
                      sample_word (85 # 100)]);
             sample_segment 6 8 " fim" (Some [sample_word (4 # 10)])] |}.

Definition with_threshold (t : Q) : AdvancedOptions :=
  {| opt_quality_preset := None; opt_temperature := None;
     opt_beam_size := None; opt_confidence_threshold := Some t |}.

(** Every probability that is present lies in [0, 1]. *)
Definition word_in_unit (w : Word) : bool :=
  match probability w with
  | Some p => Qle_bool 0 p && Qle_bool p 1
  | None => true
  end.

Definition segment_in_unit (s : Segment) : bool :=
  match seg_words s with
  | Some ws => forallb word_in_unit ws
  | None => true
  end.

(** No probability is present. *)
Definition word_unscored (w : Word) : bool :=
  match probability w with
  | Some _ => false
  | None => true
  end.

Definition segment_unscored (s : Segment) : bool :=
  match seg_words s with
  | Some ws => forallb word_unscored ws
  | None => true
  end.

(** The invariant of the confidence loop: the running total lies between
    zero and the running count. *)
Definition totals_bounded (acc : Q * nat) : Prop :=
  (0 <= fst acc /\ fst acc <= inject_Z (Z.of_nat (snd acc)))%Q.

(** The sum of a list of floats from left to right, every addition
    rounded: the builtin [sum] before version 3.12 of the interpreter. *)
Definition left_to_right_sum (l : list Q) : Q :=
  fold_left (fun total x => fl (total + x)) l 0%Q.

(** The confidence of a segment in double precision: the sum of the
    probabilities of its words, one half standing for a word without one,
    divided by the number of words; one half when the segment has no
    words. *)
Definition stated_confidence (float_sum : list Q -> Q) (s : Segment) : Q :=
  match seg_words s with
  | Some (w :: ws) =>
      fl (float_sum (map (fun w => get (probability w) (5 # 10)) (w :: ws))
          / inject_Z (Z.of_nat (length (w :: ws))))
  | _ => 5 # 10
  end.

(** The test of the filter, and the mark it leaves on a kept segment. *)
Definition keeps (float_sum : list Q -> Q) (threshold : Q) (s : Segment) : bool :=
  Qle_bool threshold (stated_confidence float_sum s).

Definition annotate (float_sum : list Q -> Q) (s : Segment) : Segment :=
  set_confidence (stated_confidence float_sum s) s.

(** The confidence of a segment as the mean of the probabilities that its
    words carry, one half when there is none. *)
Definition mean_of_probabilities (s : Segment) : Q :=
  let ps := omap probability (get (seg_words s) []) in
  match ps with
  | [] => 5 # 10
  | _ => (fold_left Qplus ps 0 / inject_Z (Z.of_nat (length ps)))%Q
  end.

(** A transcript of one segment with two words, of which only the first
    carries a probability. *)
Definition half_scored_raw : RawTranscript :=
  {| raw_text := "duas palavras"; raw_language := "pt";
     raw_segments :=
       Some [sample_segment 0 2 " duas palavras"
               (Some [sample_word 1; {| word := "palavras"; probability := None |}])] |}.

(** A transcript whose only segment ends at time zero. *)
Definition instant_raw : RawTranscript :=
  {| raw_text := EmptyString; raw_language := "pt";
     raw_segments := Some [sample_segment 0 0 EmptyString None] |}.

(** A transcript with an empty segment list. *)
Definition empty_raw : RawTranscript :=
  {| raw_text := EmptyString; raw_language := "pt"; raw_segments := Some [] |}.

(** The segment carries its two times. *)
Definition timed (s : Segment) : bool :=
  match seg_start s, seg_end s with
  | Some _, Some _ => true
  | _, _ => false
  end.

(** ** Model loading *)

(** Whether the message of an exception mentions a model name. *)
Definition mentions (e : exn) (name : string) : bool :=
  match String.index 0 name (exn_message e) with
  | Some _ => true
  | None => false
  end.

(** A recognition library that cannot load any model. *)
Definition out_of_memory (name device_name : string) : result unit :=
  Raise (Exception "CUDA out of memory").

(** The state of a process that has loaded nothing yet. *)
Definition fresh_world {Model : Type} : World Model :=
  {| cache := ∅; events := [] |}.

(** A recognition library that can only load the tiny model. *)
Definition only_tiny (name device_name : string) : result nat :=
  if String.eqb name "tiny" then Ok 7%nat else Raise (Exception "download failed").

(** ** Subtitles *)

(** Fixed-width decimal fields. *)
Definition digit_char (k : Z) : ascii := ascii_of_nat (48 + Z.to_nat k).

Definition digits2 (n : Z) : string :=
  String (digit_char (n / 10)) (String (digit_char (n mod 10)) EmptyString).

Definition digits3 (n : Z) : string :=
  String (digit_char (n / 100)) (digits2 (n mod 100)).

(** [HH:MM:SS,mmm] for a number of milliseconds below a hundred hours. *)
Definition srt_timestamp (ms : Z) : string :=
  digits2 (ms / 3600000) ++ ":" ++ digits2 (ms / 60000 mod 60) ++ ":"
    ++ digits2 (ms / 1000 mod 60) ++ "," ++ digits3 (ms mod 1000).

(** The condition under which a number can be read off the front of a
    string: what follows is not a digit. *)
Definition starts_without_digit (s : string) : bool :=
  match s with
  | String c _ => negb (is_digit c)
  | EmptyString => true
  end.

Definition is_newline (c : ascii) : bool := Ascii.eqb c "010".

(** No two line breaks in a row. *)
Fixpoint no_blank_line (t : string) : bool :=
  match t with
  | EmptyString => true
  | String c t' =>
      match t' with
      | String c' _ => negb (is_newline c && is_newline c')
      | EmptyString => true
      end && no_blank_line t'
  end.

(** The text of a cue must not end in a line break, or the blank line
    that closes the block would start one character early. *)
Fixpoint last_char (t : string) : option ascii :=
  match t with
  | EmptyString => None
  | String c t' =>
      match t' with
      | EmptyString => Some c
      | String _ _ => last_char t'
      end
  end.

Definition ends_without_newline (t : string) : Prop :=
  forall c, last_char t = Some c -> is_newline c = false.

(** One block of the subtitle file. *)
Definition srt_block (i : Z) (cue : Cue) : string :=
  let '(start, end_, t) := cue in
  str_of_Z i ++ newline ++ srt_timestamp start ++ " --> " ++ srt_timestamp end_
    ++ newline ++ t ++ newline ++ newline.

Fixpoint srt_blocks (i : Z) (cues : list Cue) : string :=
  match cues with
  | [] => EmptyString
  | cue :: rest => srt_block i cue ++ srt_blocks (i + 1) rest
  end.

(** The time a timestamp shows, in milliseconds: the whole seconds of the
    time, and for the last field the part behind the point times 1000,
    rounded to a double and then cut off. *)
Definition written_milliseconds (t : Q) : Z :=
  1000 * Qfloor t + int (fl ((t - inject_Z (Qfloor t)) * 1000)).

(** What a segment becomes in the file: its times as the timestamps show
    them and its text without the surrounding white space. *)
Definition cue_of (s : Segment) : Cue :=
  (written_milliseconds (get (seg_start s) 0%Q),
   written_milliseconds (get (seg_end s) 0%Q),
   strip (get (seg_text s) EmptyString)).

(** What the segment would become if its times were cut off after the
    milliseconds and its text were written unchanged. *)
Definition verbatim_cue_of (s : Segment) : Cue :=
  (Qfloor (get (seg_start s) 0%Q * 1000), Qfloor (get (seg_end s) 0%Q * 1000),
   get (seg_text s) EmptyString).

Definition within_hundred_hours (x : Q) : bool :=
  is_double x && Qltb x 360000.

(** The segments the round trip is stated for: the three keys are present,
    both times are doubles in [0, 100 h), and the stripped text has no blank
    line. *)
Definition exportable (s : Segment) : bool :=
  match seg_start s, seg_end s, seg_text s with
  | Some a, Some b, Some t =>
      within_hundred_hours a && within_hundred_hours b && no_blank_line (strip t)
  | _, _, _ => false
  end.

(** The time shown is the time cut off after the milliseconds, or one
    millisecond more. *)
Definition shown_within_a_millisecond (t : Q) : Prop :=
  Qfloor (t * 1000) <= written_milliseconds t <= Qfloor (t * 1000) + 1.

(** The cues the reader accepts. *)
Definition readable (cue : Cue) : Prop :=
  let '(start, end_, t) := cue in
  0 <= start < 360000000 /\ 0 <= end_ < 360000000
  /\ no_blank_line t = true /\ ends_without_newline t.

(** Sample segments: a text with a leading space, as the recognition
    library produces them, and a two-line text between the times [0.06],
    shown as 60 milliseconds although the double lies below 0.06, and
    [2.3], shown as 299 milliseconds. *)
Definition leading_space_segment : Segment :=
  {| seg_start := Some 0%Q; seg_end := Some (15 # 10);
     seg_text := Some " hi"; seg_words := None; seg_confidence := None |}.

Definition sample_segments : list Segment :=
  [ leading_space_segment;
    {| seg_start := Some (fl (6 # 100)); seg_end := Some (fl (23 # 10));
       seg_text := Some ("primeira linha" ++ newline ++ "segunda linha ");
       seg_words := None; seg_confidence := None |} ].

(** ** Clock formats *)

(** [HH:MM:SS] for a number of whole seconds below a hundred hours, and a
    reader for that shape. *)
Definition hms (n : Z) : string :=
  digits2 (n / 3600) ++ ":" ++ digits2 (n / 60 mod 60) ++ ":" ++ digits2 (n mod 60).

Definition read_hms (s : string) : option Z :=
  '(h, s) ← read_digits 2 0 s;
  s ← expect ":" s;
  '(m, s) ← read_digits 2 0 s;
  s ← expect ":" s;
  '(sec, s) ← read_digits 2 0 s;
  if String.eqb s EmptyString && (m <? 60) && (sec <? 60)
  then Some ((h * 60 + m) * 60 + sec)
  else None.

(** ** Options *)

(** The clamp of [validate_advanced_options] on a temperature or a
    threshold. *)
Definition clamp_unit (x : Q) : Q := Qmaxb 0 (Qminb 1 x).

Definition known_presets : list string := ["fast"; "balanced"; "high_quality"].

(** A recognition library whose type registry knows nothing. *)
Definition no_mimetypes (mime_type : option string) : result (option string) :=
  match mime_type with
  | Some _ => Ok None
  | None => Raise (Exception "'NoneType' object has no attribute 'lower'")
  end.

(** ** File names *)

Fixpoint no_double_underscore (s : string) : bool :=
  match s with
  | EmptyString => true
  | String c s' =>
      match s' with
      | String c' _ => negb (is_underscore c && is_underscore c')
      | EmptyString => true
      end && no_double_underscore s'
  end.

Definition first_char (s : string) : option ascii :=
  match s with
  | String c _ => Some c
  | EmptyString => None
  end.

Fixpoint forall_chars (p : ascii -> bool) (s : string) : bool :=
  match s with
  | EmptyString => true
  | String c s' => p c && forall_chars p s'
  end.

(** The characters the first substitution of [clean_filename] keeps. *)
Definition kept_char (is_word : ascii -> bool) (c : ascii) : bool :=
  is_word c || Ascii.eqb c "-" || Ascii.eqb c "_" || Ascii.eqb c ".".

(** ** Staged files *)

(** A temporary file namer that appends the suffix to the prefix. *)
Definition plain_temporary_file (suffix prefix : string) : string :=
  "/tmp/" ++ prefix ++ "k3x9" ++ suffix.

Definition wav_upload : UploadedFile :=
  {| file_name := "Test.WAV"; file_size := 5 * 1024 * 1024;
     file_type := Some "audio/wav" |}.

Definition text_upload : UploadedFile :=
  {| file_name := "notes.txt"; file_size := 5 * 1024 * 1024;
     file_type := Some "text/plain" |}.

(** ** Recommendations and recognition *)

(** The place of a model name in [MODELS], from the lightest model on;
    the length of the table for a name that is not in it. *)
Fixpoint rank_in {A} (name : string) (d : list (string * A)) : nat :=
  match d with
  | [] => O
  | (k, _) :: rest => if String.eqb name k then O else S (rank_in name rest)
  end.

Definition model_rank (name : string) : nat := rank_in name MODELS.

(** A pause of more than three seconds between two segments that carry
    their times: the difference of the two doubles, rounded to a double, is
    above three. *)
Definition long_gap (a b : Segment) : bool :=
  match seg_start b, seg_end a with
  | Some s, Some e => Qgtb (fl (s - e)) 3
  | _, _ => false
  end.

(** No pause of more than three seconds between neighbours. *)
Fixpoint no_long_gap (segs : list Segment) : bool :=
  match segs with
  | a :: ((b :: _) as rest) => negb (long_gap a b) && no_long_gap rest
  | _ => true
  end.

(** A model that returns the sample transcript at once. *)
Definition instant_model (model : unit) (audio_path : string)
    (options : InvocationOptions) : result RawTranscript :=
  Ok sample_raw.

(** A segment without any key. *)
Definition bare_segment : Segment :=
  {| seg_start := None; seg_end := None; seg_text := None;
     seg_words := None; seg_confidence := None |}.

(** A one-segment transcript, enriched up to the analysis, with an average
    confidence of 0.2. *)
Definition low_confidence_transcript : Transcript :=
  {| text := EmptyString; language := "pt";
     segments := Some [sample_segment 0 2 "um dois" None];
     processing_time := None; processing_time_formatted := None;
     advanced_options_used := None; average_confidence := Some (2 # 10);
     audio_duration := Some 2%Q; audio_duration_formatted := None;
     processing_speed_ratio := None; realtime_factor := None;
     filtered_segments_count := None; audio_characteristics := None |}.

(** ** Subtitle export, continued *)

(** The segment carries the three keys the export reads. *)
Definition complete (s : Segment) : bool :=
  match seg_start s, seg_end s, seg_text s with
  | Some _, Some _, Some _ => true
  | _, _, _ => false
  end.

(** The first key the export finds missing, in the order it reads them. *)
Definition first_missing_key (s : Segment) : option string :=
  match seg_start s, seg_end s, seg_text s with
  | None, _, _ => Some "start"
  | Some _, None, _ => Some "end"
  | Some _, Some _, None => Some "text"
  | Some _, Some _, Some _ => None
  end.

(** The segment with the defaults of the recorder's export written in. *)
Definition fill_defaults (s : Segment) : Segment :=
  {| seg_start := Some (get (seg_start s) 0%Q);
     seg_end := Some (get (seg_end s) 0%Q);
     seg_text := Some (get (seg_text s) EmptyString);
     seg_words := seg_words s; seg_confidence := seg_confidence s |}.

(** * Properties *)

(** ** Comparisons of rationals *)

Lemma Qltb_lt (x y : Q) : Qltb x y = true <-> (x < y)%Q.
Proof.
  unfold Qltb. rewrite negb_true_iff, <- not_true_iff_false, Qle_bool_iff.
  split; [apply Qnot_le_lt | apply Qlt_not_le].
Qed.

Lemma Qltb_ge (x y : Q) : Qltb x y = false <-> (y <= x)%Q.
Proof. unfold Qltb. rewrite negb_false_iff. apply Qle_bool_iff. Qed.

Lemma Qgeb_le (x y : Q) : Qgeb x y = true <-> (y <= x)%Q.
Proof. apply Qle_bool_iff. Qed.

Lemma Qgeb_lt (x y : Q) : Qgeb x y = false <-> (x < y)%Q.
Proof.
  unfold Qgeb. rewrite <- not_true_iff_false, Qle_bool_iff.
  split; [apply Qnot_le_lt | apply Qlt_not_le].
Qed.

(** A byte count divided by a positive constant, against an integer bound. *)
Lemma Qle_inject_div (a m : Z) (d : positive) :
  (inject_Z a <= inject_Z m / inject_Z (Z.pos d))%Q <-> a * Z.pos d <= m.
Proof. unfold Qle, Qdiv, Qmult, Qinv, inject_Z; simpl. rewrite Pos.mul_1_l. lia. Qed.

Lemma Qlt_inject_div (a m : Z) (d : positive) :
  (inject_Z m / inject_Z (Z.pos d) < inject_Z a)%Q <-> m < a * Z.pos d.
Proof. unfold Qlt, Qdiv, Qmult, Qinv, inject_Z; simpl. rewrite Pos.mul_1_l. lia. Qed.

Lemma Qgt_inject_div (a m : Z) (d : positive) :
  (inject_Z a < inject_Z m / inject_Z (Z.pos d))%Q <-> a * Z.pos d < m.
Proof. unfold Qlt, Qdiv, Qmult, Qinv, inject_Z; simpl. rewrite Pos.mul_1_l. lia. Qed.

(** ** Doubles *)

(** *** Powers of two *)

Lemma pow2_pos (e : Z) : (0 < pow2 e)%Q.
Proof. apply Qpower_0_lt. reflexivity. Qed.

Lemma pow2_plus (a b : Z) : (pow2 (a + b) == pow2 a * pow2 b)%Q.
Proof. apply Qpower_plus. discriminate. Qed.

Lemma pow2_Z (e : Z) : 0 <= e -> (pow2 e == inject_Z (2 ^ e))%Q.
Proof. intros H. symmetry. now apply (Zpower_Qpower 2 e). Qed.

Lemma pow2_le (a b : Z) : a <= b -> (pow2 a <= pow2 b)%Q.
Proof. intros H. apply Qpower_le_compat_l; [exact H | discriminate]. Qed.

Lemma pow2_succ (a : Z) : (pow2 (a + 1) == 2 * pow2 a)%Q.
Proof. rewrite pow2_plus. change (pow2 1) with 2%Q. ring. Qed.

(** *** Rounding to an integer *)

Lemma round_half_even_cases (y : Q) :
  (round_half_even y = Qfloor y /\ (y - inject_Z (Qfloor y) <= 1 # 2)%Q)
  \/ (round_half_even y = Qfloor y + 1 /\ (1 # 2 <= y - inject_Z (Qfloor y))%Q).
Proof.
  unfold round_half_even.
  destruct (Qltb (y - inject_Z (Qfloor y)) (1 # 2)) eqn:E1.
  - left. apply Qltb_lt in E1. split; [reflexivity | lra].
  - apply Qltb_ge in E1.
    destruct (Qltb (1 # 2) (y - inject_Z (Qfloor y))) eqn:E2.
    + right. now split.
    + apply Qltb_ge in E2. destruct (Z.even (Qfloor y)); [left | right]; now split.
Qed.

Lemma Qle_bool_eq (x x' y y' : Q) :
  (x == x')%Q -> (y == y')%Q -> Qle_bool x y = Qle_bool x' y'.
Proof.
  intros Hx Hy. apply eq_true_iff_eq. rewrite !Qle_bool_iff. now rewrite Hx, Hy.
Qed.

Lemma Qltb_eq (x x' y y' : Q) :
  (x == x')%Q -> (y == y')%Q -> Qltb x y = Qltb x' y'.
Proof. intros Hx Hy. unfold Qltb. now rewrite (Qle_bool_eq y y' x x'). Qed.

Lemma round_half_even_comp (x y : Q) : (x == y)%Q -> round_half_even x = round_half_even y.
Proof.
  intros H. unfold round_half_even. rewrite (Qfloor_comp _ _ H).
  assert (E : (x - inject_Z (Qfloor y) == y - inject_Z (Qfloor y))%Q) by (rewrite H; reflexivity).
  rewrite (Qltb_eq _ _ _ _ E (Qeq_refl _)), (Qltb_eq _ _ _ _ (Qeq_refl (1 # 2)) E).
  reflexivity.
Qed.

Lemma floor_bounds (y : Q) :
  (inject_Z (Qfloor y) <= y)%Q /\ (y < inject_Z (Qfloor y) + 1)%Q.
Proof.
  split; [apply Qfloor_le |]. pose proof (Qlt_floor y) as H.
  rewrite inject_Z_plus in H. exact H.
Qed.

Lemma floor_ge (y : Q) (n : Z) : (inject_Z n <= y)%Q -> n <= Qfloor y.
Proof.
  intros H. destruct (floor_bounds y) as [_ Hu].
  assert (Hq : (inject_Z n < inject_Z (Qfloor y + 1))%Q)
    by (rewrite inject_Z_plus; change (inject_Z 1) with 1%Q; lra).
  rewrite <- Zlt_Qlt in Hq. lia.
Qed.

Lemma round_half_even_le (y : Q) (n : Z) :
  (y <= inject_Z n)%Q -> round_half_even y <= n.
Proof.
  intros H. destruct (floor_bounds y) as [Hl Hu].
  assert (Hf : Qfloor y <= n).
  { assert (Hq : (inject_Z (Qfloor y) <= inject_Z n)%Q) by lra.
    now rewrite <- Zle_Qle in Hq. }
  destruct (round_half_even_cases y) as [[-> _] | [-> Hr]]; [exact Hf |].
  assert (Hq : (inject_Z (Qfloor y) < inject_Z n)%Q) by lra.
  rewrite <- Zlt_Qlt in Hq. lia.
Qed.

Lemma round_half_even_ge (y : Q) (n : Z) :
  (inject_Z n <= y)%Q -> n <= round_half_even y.
Proof.
  intros H. pose proof (floor_ge y n H) as Hf.
  destruct (round_half_even_cases y) as [[-> _] | [-> _]]; lia.
Qed.

Lemma round_half_even_Z (n : Z) : round_half_even (inject_Z n) = n.
Proof.
  apply Z.le_antisymm;
    [apply round_half_even_le | apply round_half_even_ge]; apply Qle_refl.
Qed.

(** Rounding up goes no further than the distance to an integer below. *)
Lemma round_half_even_near_below (y : Q) (n : Z) :
  (inject_Z n <= y)%Q -> (inject_Z (round_half_even y) - y <= y - inject_Z n)%Q.
Proof.
  intros H. pose proof (floor_ge y n H) as Hf. rewrite Zle_Qle in Hf.
  destruct (floor_bounds y) as [Hl Hu].
  destruct (round_half_even_cases y) as [[-> _] | [-> Hr]]; [lra |].
  rewrite inject_Z_plus. change (inject_Z 1) with 1%Q. lra.
Qed.

Lemma round_half_even_near_above (y : Q) (n : Z) :
  (y <= inject_Z n)%Q -> (y - inject_Z (round_half_even y) <= inject_Z n - y)%Q.
Proof.
  intros H. destruct (floor_bounds y) as [Hl Hu].
  destruct (round_half_even_cases y) as [[E Hr] | [-> Hr]].
  - rewrite E. destruct (Qlt_le_dec (inject_Z (Qfloor y)) y) as [Hlt | Hge].
    + assert (Hn : Qfloor y + 1 <= n).
      { assert (Hq : (inject_Z (Qfloor y) < inject_Z n)%Q) by lra.
        rewrite <- Zlt_Qlt in Hq. lia. }
      rewrite Zle_Qle, inject_Z_plus in Hn. change (inject_Z 1) with 1%Q in Hn. lra.
    + lra.
  - rewrite inject_Z_plus. change (inject_Z 1) with 1%Q. lra.
Qed.

(** *** The binade of a positive number *)

Lemma binade_spec (x : Q) :
  (0 < x)%Q -> (pow2 (binade x) <= x)%Q /\ (x < pow2 (binade x + 1))%Q.
Proof.
  intros Hx. unfold binade.
  assert (Hn : 0 < Qnum x) by (destruct x as [n d]; unfold Qlt in Hx; cbn in *; lia).
  rewrite (Z.abs_eq (Qnum x)) by lia.
  set (ln := Z.log2 (Qnum x)). set (ld := Z.log2 (Z.pos (Qden x))).
  pose proof (Z.log2_spec (Qnum x) Hn) as Hln. fold ln in Hln.
  pose proof (Z.log2_spec (Z.pos (Qden x)) ltac:(lia)) as Hld. fold ld in Hld.
  pose proof (Z.log2_nonneg (Qnum x)) as Hln0. fold ln in Hln0.
  pose proof (Z.log2_nonneg (Z.pos (Qden x))) as Hld0. fold ld in Hld0.
  assert (Ex : (x == inject_Z (Qnum x) / inject_Z (Z.pos (Qden x)))%Q).
  { destruct x as [n d]. cbn [Qnum Qden]. apply Qmake_Qdiv. }
  assert (Hd : (0 < inject_Z (Z.pos (Qden x)))%Q) by reflexivity.
  set (N := inject_Z (Qnum x)) in *. set (D := inject_Z (Z.pos (Qden x))) in *.
  assert (HN1 : (pow2 ln <= N)%Q) by (rewrite pow2_Z by lia; unfold N; rewrite <- Zle_Qle; lia).
  assert (HN2 : (N < pow2 (ln + 1))%Q)
    by (rewrite pow2_Z by lia; unfold N; rewrite <- Zlt_Qlt; unfold Z.succ in Hln; lia).
  assert (HD1 : (pow2 ld <= D)%Q) by (rewrite pow2_Z by lia; unfold D; rewrite <- Zle_Qle; lia).
  assert (HD2 : (D < pow2 (ld + 1))%Q)
    by (rewrite pow2_Z by lia; unfold D; rewrite <- Zlt_Qlt; unfold Z.succ in Hld; lia).
  rewrite pow2_succ in HN2, HD2.
  assert (El : (pow2 ln == pow2 (ln - ld) * pow2 ld)%Q).
  { rewrite <- pow2_plus. now replace (ln - ld + ld) with ln by lia. }
  pose proof (pow2_pos (ln - ld)) as Hp. pose proof (pow2_pos ld) as Hpd.
  assert (Exd : (x * D == N)%Q) by (rewrite Ex; field; lra).
  rewrite (Qltb_eq (Qabs x) x _ _ (Qabs_pos x (Qlt_le_weak _ _ Hx)) (Qeq_refl _)).
  destruct (Qltb x (pow2 (ln - ld))) eqn:E.
  - apply Qltb_lt in E. replace (ln - ld - 1 + 1) with (ln - ld) by lia.
    split; [| exact E].
    assert (Eh : (pow2 (ln - ld) == 2 * pow2 (ln - ld - 1))%Q).
    { rewrite <- pow2_succ. now replace (ln - ld - 1 + 1) with (ln - ld) by lia. }
    pose proof (pow2_pos (ln - ld - 1)) as Hq.
    destruct (Qlt_le_dec x (pow2 (ln - ld - 1))) as [Hlt | Hge]; [| exact Hge].
    exfalso. set (q := pow2 (ln - ld - 1)) in *. set (pd := pow2 ld) in *.
    set (pl := pow2 ln) in *. set (p := pow2 (ln - ld)) in *.
    assert (H1 : (x * D < q * (2 * pd))%Q) by nra.
    nra.
  - apply Qltb_ge in E. split; [exact E |].
    rewrite pow2_succ.
    destruct (Qlt_le_dec x (2 * pow2 (ln - ld))) as [Hlt | Hge]; [exact Hlt |].
    exfalso. set (pd := pow2 ld) in *. set (pl := pow2 ln) in *.
    set (p := pow2 (ln - ld)) in *.
    assert (H1 : (2 * p * pd <= x * D)%Q) by nra.
    nra.
Qed.

(** *** Rounding to a double *)

Lemma fl_comp (x y : Q) : (x == y)%Q -> fl x = fl y.
Proof. intros H. unfold fl, expo. now rewrite (Qred_complete _ _ H). Qed.

Lemma fl_zero : fl 0 = 0%Q.
Proof. reflexivity. Qed.

Lemma fl_pos (x : Q) :
  (0 < x)%Q ->
  (fl x == inject_Z (round_half_even (x / pow2 (expo x))) * pow2 (expo x))%Q.
Proof.
  intros Hx. unfold fl.
  destruct (Qeq_bool (Qred x) 0) eqn:E.
  - apply Qeq_bool_iff in E. rewrite Qred_correct in E. lra.
  - set (e := expo x).
    rewrite (Qred_correct (inject_Z (round_half_even (Qred x / pow2 e)) * pow2 e)).
    assert (Ey : (Qred x / pow2 e == x / pow2 e)%Q)
      by (rewrite (Qred_correct x); reflexivity).
    now rewrite (round_half_even_comp _ _ Ey).
Qed.

Lemma expo_spec (x : Q) :
  (0 < x)%Q ->
  -1074 <= expo x /\ (x < pow2 (expo x + 53))%Q
  /\ (expo x <> -1074 -> (pow2 (expo x + 52) <= x)%Q).
Proof.
  intros Hx. unfold expo.
  assert (Hr : (0 < Qred x)%Q) by (rewrite Qred_correct; exact Hx).
  destruct (binade_spec (Qred x) Hr) as [Hl Hu].
  set (b := binade (Qred x)) in *. rewrite (Qred_correct x) in Hl, Hu.
  split; [lia |]. split.
  - eapply Qlt_le_trans; [exact Hu |]. apply pow2_le. lia.
  - intros Hne. replace (Z.max (b - 52) (-1074) + 52) with b by lia. exact Hl.
Qed.

Lemma pow2_split (a b : Z) : b <= a -> (pow2 a == inject_Z (2 ^ (a - b)) * pow2 b)%Q.
Proof.
  intros H. rewrite <- pow2_Z by lia. rewrite <- pow2_plus.
  now replace (a - b + b) with a by lia.
Qed.

(** A double lies on the grid of a positive number, or below the binade
    of that number. *)
Lemma double_grid (d x : Q) :
  double d -> (0 < x)%Q ->
  (exists n, 0 <= n /\ (d == inject_Z n * pow2 (expo x))%Q)
  \/ ((d < pow2 (expo x + 52))%Q /\ (pow2 (expo x + 52) <= x)%Q).
Proof.
  intros (m & e & Hm & He & Hd) Hx.
  destruct (expo_spec x Hx) as (HE & _ & Hlow).
  destruct (Z_le_gt_dec (expo x) e) as [Hle | Hgt].
  - left. exists (m * 2 ^ (e - expo x)). split.
    + apply Z.mul_nonneg_nonneg; [lia |]. apply Z.pow_nonneg. lia.
    + rewrite Hd, (pow2_split e (expo x) Hle), inject_Z_mult. ring.
  - right. split; [| apply Hlow; lia].
    rewrite Hd. pose proof (pow2_pos e) as Hp.
    assert (H53 : (pow2 (e + 53) <= pow2 (expo x + 52))%Q) by (apply pow2_le; lia).
    rewrite (Z.add_comm e 53), pow2_plus in H53.
    assert (Hm' : (inject_Z m < pow2 53)%Q).
    { rewrite pow2_Z by lia. rewrite <- Zlt_Qlt. lia. }
    set (p := pow2 e) in *. set (q := pow2 53) in *. nra.
Qed.

Lemma pow2_nonzero (e : Z) : ~ (pow2 e == 0)%Q.
Proof. pose proof (pow2_pos e). lra. Qed.

Lemma scaled_le (x d p : Q) (n : Z) :
  (0 < p)%Q -> (d == inject_Z n * p)%Q -> (x <= d)%Q -> (x / p <= inject_Z n)%Q.
Proof.
  intros Hp Hd Hle. apply Qle_shift_div_r; [exact Hp |]. now rewrite <- Hd.
Qed.

Lemma scaled_ge (x d p : Q) (n : Z) :
  (0 < p)%Q -> (d == inject_Z n * p)%Q -> (d <= x)%Q -> (inject_Z n <= x / p)%Q.
Proof.
  intros Hp Hd Hle. apply Qle_shift_div_l; [exact Hp |]. now rewrite <- Hd.
Qed.

(** Rounding does not cross a double. *)
Lemma fl_upper (x d : Q) : (0 <= x)%Q -> double d -> (x <= d)%Q -> (fl x <= d)%Q.
Proof.
  intros Hx Hd Hle.
  destruct (Qlt_le_dec 0 x) as [Hpos | Hzero].
  2:{ assert (E : (x == 0)%Q) by lra. rewrite (fl_comp _ _ E), fl_zero. lra. }
  rewrite (fl_pos x Hpos). pose proof (pow2_pos (expo x)) as Hp.
  destruct (double_grid d x Hd Hpos) as [(n & _ & Hn) | [Hlt Hge]]; [| lra].
  pose proof (round_half_even_le _ n (scaled_le x d _ n Hp Hn Hle)) as Hr.
  rewrite Zle_Qle in Hr. rewrite Hn.
  set (p := pow2 (expo x)) in *. nra.
Qed.

Lemma fl_lower (x d : Q) : double d -> (d <= x)%Q -> (d <= fl x)%Q.
Proof.
  intros Hd Hle.
  assert (Hd0 : (0 <= d)%Q).
  { destruct Hd as (m & e & Hm & _ & E). rewrite E. pose proof (pow2_pos e).
    assert (0 <= inject_Z m)%Q by (change 0%Q with (inject_Z 0); rewrite <- Zle_Qle; lia).
    nra. }
  destruct (Qlt_le_dec 0 x) as [Hpos | Hzero].
  2:{ assert (E : (x == 0)%Q) by lra. rewrite (fl_comp _ _ E), fl_zero. lra. }
  rewrite (fl_pos x Hpos). pose proof (pow2_pos (expo x)) as Hp.
  destruct (double_grid d x Hd Hpos) as [(n & _ & Hn) | [Hlt Hge]].
  - pose proof (round_half_even_ge _ n (scaled_ge x d _ n Hp Hn Hle)) as Hr.
    rewrite Zle_Qle in Hr. rewrite Hn.
    set (p := pow2 (expo x)) in *. nra.
  - assert (Eg : (pow2 (expo x + 52) == inject_Z (2 ^ 52) * pow2 (expo x))%Q).
    { rewrite (pow2_split (expo x + 52) (expo x)) by lia.
      now replace (expo x + 52 - expo x) with 52 by lia. }
    pose proof (round_half_even_ge _ (2 ^ 52)
                  (scaled_ge x _ _ _ Hp Eg Hge)) as Hr.
    rewrite Zle_Qle in Hr. rewrite Eg in Hlt.
    set (p := pow2 (expo x)) in *. nra.
Qed.

(** A double is its own rounding. *)
Lemma fl_exact (d : Q) : double d -> (fl d == d)%Q.
Proof.
  intros Hd.
  assert (Hd0 : (0 <= d)%Q).
  { destruct Hd as (m & e & Hm & _ & E). rewrite E. pose proof (pow2_pos e).
    assert (0 <= inject_Z m)%Q by (change 0%Q with (inject_Z 0); rewrite <- Zle_Qle; lia).
    nra. }
  apply Qle_antisym.
  - apply fl_upper; [exact Hd0 | exact Hd | apply Qle_refl].
  - apply fl_lower; [exact Hd | apply Qle_refl].
Qed.

Lemma double_comp (x y : Q) : (x == y)%Q -> double x -> double y.
Proof. intros H (m & e & Hm & He & E). exists m, e. now rewrite <- H. Qed.

Lemma double_Z (n : Z) : 0 <= n < 2 ^ 53 -> double (inject_Z n).
Proof.
  intros Hn. exists n, 0. split; [exact Hn |]. split; [lia |].
  change (pow2 0) with 1%Q. ring.
Qed.

(** The rounding of a number that is not negative is a double. *)
Lemma fl_double (x : Q) : (0 <= x)%Q -> double (fl x).
Proof.
  intros Hx.
  destruct (Qlt_le_dec 0 x) as [Hpos | Hzero].
  2:{ assert (E : (x == 0)%Q) by lra. rewrite (fl_comp _ _ E), fl_zero.
      apply (double_Z 0). lia. }
  destruct (expo_spec x Hpos) as (HE & Hu & _).
  pose proof (pow2_pos (expo x)) as Hp.
  assert (E53 : (pow2 (expo x + 53) == inject_Z (2 ^ 53) * pow2 (expo x))%Q).
  { rewrite (pow2_split (expo x + 53) (expo x)) by lia.
    now replace (expo x + 53 - expo x) with 53 by lia. }
  assert (Hr1 : round_half_even (x / pow2 (expo x)) <= 2 ^ 53).
  { apply round_half_even_le. apply Qle_shift_div_r; [exact Hp |].
    rewrite <- E53. lra. }
  assert (Hr0 : 0 <= round_half_even (x / pow2 (expo x))).
  { apply round_half_even_ge. apply Qle_shift_div_l; [exact Hp |].
    change (inject_Z 0) with 0%Q. lra. }
  apply (double_comp _ _ (Qeq_sym _ _ (fl_pos x Hpos))).
  destruct (Z.eq_dec (round_half_even (x / pow2 (expo x))) (2 ^ 53)) as [E | Hne].
  - exists (2 ^ 52), (expo x + 1). split; [lia |]. split; [lia |].
    rewrite E, pow2_succ. change (inject_Z (2 ^ 53)) with (2 * inject_Z (2 ^ 52))%Q. ring.
  - exists (round_half_even (x / pow2 (expo x))), (expo x).
    split; [lia |]. split; [exact HE | reflexivity].
Qed.

(** Rounding up goes no further than the distance to a double below, and
    rounding down no further than the distance to a double above. *)
Lemma fl_near_below (x d : Q) :
  double d -> (d <= x)%Q -> (fl x - x <= x - d)%Q.
Proof.
  intros Hd Hle.
  assert (Hd0 : (0 <= d)%Q).
  { destruct Hd as (m & e & Hm & _ & E). rewrite E. pose proof (pow2_pos e).
    assert (0 <= inject_Z m)%Q by (change 0%Q with (inject_Z 0); rewrite <- Zle_Qle; lia).
    nra. }
  destruct (Qlt_le_dec 0 x) as [Hpos | Hzero].
  2:{ assert (E : (x == 0)%Q) by lra. rewrite (fl_comp _ _ E), fl_zero. lra. }
  rewrite (fl_pos x Hpos). pose proof (pow2_pos (expo x)) as Hp.
  assert (Ex : (x == x / pow2 (expo x) * pow2 (expo x))%Q) by (field; lra).
  destruct (double_grid d x Hd Hpos) as [(n & _ & Hn) | [Hlt Hge]].
  - pose proof (round_half_even_near_below _ n (scaled_ge x d _ n Hp Hn Hle)) as Hr.
    rewrite Hn. set (y := (x / pow2 (expo x))%Q) in *.
    set (p := pow2 (expo x)) in *. set (r := inject_Z (round_half_even y)) in *. nra.
  - assert (Eg : (pow2 (expo x + 52) == inject_Z (2 ^ 52) * pow2 (expo x))%Q).
    { rewrite (pow2_split (expo x + 52) (expo x)) by lia.
      now replace (expo x + 52 - expo x) with 52 by lia. }
    pose proof (round_half_even_near_below _ (2 ^ 52)
                  (scaled_ge x _ _ _ Hp Eg Hge)) as Hr.
    rewrite Eg in Hlt. set (y := (x / pow2 (expo x))%Q) in *.
    set (p := pow2 (expo x)) in *. set (r := inject_Z (round_half_even y)) in *. nra.
Qed.

Lemma fl_near_above (x d : Q) :
  (0 <= x)%Q -> double d -> (x <= d)%Q -> (x - fl x <= d - x)%Q.
Proof.
  intros Hx Hd Hle.
  destruct (Qlt_le_dec 0 x) as [Hpos | Hzero].
  2:{ assert (E : (x == 0)%Q) by lra. rewrite (fl_comp _ _ E), fl_zero. lra. }
  rewrite (fl_pos x Hpos). pose proof (pow2_pos (expo x)) as Hp.
  assert (Ex : (x == x / pow2 (expo x) * pow2 (expo x))%Q) by (field; lra).
  destruct (double_grid d x Hd Hpos) as [(n & _ & Hn) | [Hlt Hge]]; [| lra].
  pose proof (round_half_even_near_above _ n (scaled_le x d _ n Hp Hn Hle)) as Hr.
  rewrite Hn. set (y := (x / pow2 (expo x))%Q) in *.
  set (p := pow2 (expo x)) in *. set (r := inject_Z (round_half_even y)) in *. nra.
Qed.

(** The doubles below a power of two end one unit of the last place
    before it. *)
Lemma double_below_pow2 (d : Q) (k : Z) :
  double d -> (d < pow2 k)%Q -> (d <= pow2 k - pow2 (k - 53))%Q.
Proof.
  intros (m & e & Hm & He & Hd) Hlt.
  pose proof (pow2_pos (k - 53)) as Hq.
  assert (Ek : (pow2 k == inject_Z (2 ^ 53) * pow2 (k - 53))%Q).
  { rewrite (pow2_split k (k - 53)) by lia. now replace (k - (k - 53)) with 53 by lia. }
  destruct (Z_le_gt_dec (k - 53) e) as [Hle | Hgt].
  - assert (En : (d == inject_Z (m * 2 ^ (e - (k - 53))) * pow2 (k - 53))%Q).
    { rewrite Hd, (pow2_split e (k - 53) Hle), inject_Z_mult. ring. }
    set (n := m * 2 ^ (e - (k - 53))) in *.
    assert (Hn : n < 2 ^ 53).
    { rewrite Zlt_Qlt. rewrite En, Ek in Hlt.
      set (q := pow2 (k - 53)) in *. nra. }
    assert (Hn' : (inject_Z n <= inject_Z (2 ^ 53) - 1)%Q).
    { change 1%Q with (inject_Z 1). unfold Qminus. rewrite <- inject_Z_opp, <- inject_Z_plus.
      rewrite <- Zle_Qle. lia. }
    rewrite En, Ek. set (q := pow2 (k - 53)) in *. nra.
  - pose proof (pow2_pos e) as Hp.
    assert (H1 : (pow2 (e + 53) <= pow2 (k - 1))%Q) by (apply pow2_le; lia).
    rewrite (Z.add_comm e 53), pow2_plus in H1.
    assert (H2 : (pow2 (k - 53) <= pow2 (k - 1))%Q) by (apply pow2_le; lia).
    assert (H3 : (pow2 k == 2 * pow2 (k - 1))%Q).
    { rewrite <- pow2_succ. now replace (k - 1 + 1) with k by lia. }
    assert (Hm' : (inject_Z m < pow2 53)%Q).
    { rewrite pow2_Z by lia. rewrite <- Zlt_Qlt. lia. }
    assert (Hm0 : (0 <= inject_Z m)%Q) by (change 0%Q with (inject_Z 0); rewrite <- Zle_Qle; lia).
    rewrite Hd, H3.
    set (p := pow2 e) in *. set (q := pow2 53) in *. set (h := pow2 (k - 1)) in *.
    set (u := pow2 (k - 53)) in *. nra.
Qed.

(** The part of a double behind the point is a double. *)
Lemma double_frac (d : Q) : double d -> double (d - inject_Z (Qfloor d)).
Proof.
  intros (m & e & Hm & He & Hd).
  destruct (Z_le_gt_dec 0 e) as [Hle | Hgt].
  - assert (E : (d == inject_Z (m * 2 ^ e))%Q).
    { rewrite Hd, pow2_Z, inject_Z_mult by lia. reflexivity. }
    apply (double_comp 0).
    + rewrite (Qfloor_comp _ _ E), Qfloor_Z, E. ring.
    + apply (double_Z 0). lia.
  - assert (Hpos : 0 < 2 ^ (- e)) by (apply Z.pow_pos_nonneg; lia).
    assert (Ep : (pow2 e == / inject_Z (2 ^ (- e)))%Q).
    { rewrite <- pow2_Z by lia. unfold pow2. rewrite <- Qpower_opp.
      now replace (- - e) with e by lia. }
    assert (Hq : (0 < inject_Z (2 ^ (- e)))%Q)
      by (change 0%Q with (inject_Z 0); now rewrite <- Zlt_Qlt).
    assert (Ed : (d == inject_Z m / inject_Z (2 ^ (- e)))%Q).
    { rewrite Hd, Ep. reflexivity. }
    assert (Ef : Qfloor d = m / 2 ^ (- e)).
    { rewrite (Qfloor_comp _ _ Ed).
      destruct (2 ^ (- e)) as [| p | p] eqn:E2; try lia.
      rewrite <- (Qmake_Qdiv m p). reflexivity. }
    exists (m mod 2 ^ (- e)), e.
    pose proof (Z.mod_pos_bound m (2 ^ (- e)) Hpos) as Hmod.
    pose proof (Z.mod_le m (2 ^ (- e)) ltac:(lia) Hpos) as Hmle.
    split; [lia |]. split; [exact He |].
    rewrite Ef, Ed, Ep. rewrite (Z.mod_eq m (2 ^ (- e))) by lia.
    unfold Z.sub. rewrite inject_Z_plus, inject_Z_opp, inject_Z_mult.
    field. lra.
Qed.


(** ** Device profile *)

Lemma gpu_memory_at_least (bound total_memory : Z) :
  Qgeb (inject_Z total_memory / inject_Z (1024 ^ 3)) (inject_Z bound) = true
  <-> bound * GiB <= total_memory.
Proof. rewrite Qgeb_le. apply (Qle_inject_div bound total_memory). Qed.

Lemma gpu_memory_below (bound total_memory : Z) :
  Qgeb (inject_Z total_memory / inject_Z (1024 ^ 3)) (inject_Z bound) = false
  <-> total_memory < bound * GiB.
Proof. rewrite Qgeb_lt. apply (Qlt_inject_div bound total_memory). Qed.

(** C1, as stated, fails: on an accelerated device with 2 GiB of memory the
    resolver does not recommend [small, medium] with a 250 MB ceiling. *)
Lemma optimize_for_device_below_4gb_counterexample :
  ~ (recommended_models (optimize_for_device (DEVICE true) (2 * GiB))
       = ["small"; "medium"]
     /\ max_file_size_mb (optimize_for_device (DEVICE true) (2 * GiB)) = 250).
Proof. vm_compute. intros [H _]. discriminate H. Qed.

(** C1 (amended): without an accelerated device the profile is cpu,
    [tiny, base], 50 MB; with one, the profile follows the memory of the
    device: below 4 GiB [tiny, base, small] and 100 MB, from 4 GiB to below
    8 GiB [small, medium] and 250 MB, from 8 GiB on [medium, large-v2],
    500 MB and parallel processing. *)
Theorem optimize_for_device_tiers (total_memory : Z) :
  optimize_for_device (DEVICE false) total_memory
    = {| device := "cpu"; recommended_models := ["tiny"; "base"];
         max_file_size_mb := 50; parallel_processing := false |}
  /\ (total_memory < 4 * GiB ->
      optimize_for_device (DEVICE true) total_memory
        = {| device := "cuda"; recommended_models := ["tiny"; "base"; "small"];
             max_file_size_mb := 100; parallel_processing := false |})
  /\ (4 * GiB <= total_memory < 8 * GiB ->
      optimize_for_device (DEVICE true) total_memory
        = {| device := "cuda"; recommended_models := ["small"; "medium"];
             max_file_size_mb := 250; parallel_processing := false |})
  /\ (8 * GiB <= total_memory ->
      optimize_for_device (DEVICE true) total_memory
        = {| device := "cuda"; recommended_models := ["medium"; "large-v2"];
             max_file_size_mb := 500; parallel_processing := true |}).
Proof.
  split; [reflexivity |].
  unfold optimize_for_device, DEVICE.
  change (String.eqb "cuda" "cuda") with true. cbv iota.
  change 8%Q with (inject_Z 8). change 4%Q with (inject_Z 4).
  repeat split; intros H.
  - assert (H8 : total_memory < 8 * GiB) by (assert (0 < GiB) by reflexivity; lia).
    apply gpu_memory_below in H, H8. now rewrite H8, H.
  - destruct H as [H4 H8].
    apply gpu_memory_at_least in H4. apply gpu_memory_below in H8.
    now rewrite H8, H4.
  - apply gpu_memory_at_least in H. now rewrite H.
Qed.

Lemma optimize_for_device_tiers_witness :
  optimize_for_device (DEVICE true) (2 * GiB)
    = {| device := "cuda"; recommended_models := ["tiny"; "base"; "small"];
         max_file_size_mb := 100; parallel_processing := false |}
  /\ optimize_for_device (DEVICE true) (6 * GiB)
    = {| device := "cuda"; recommended_models := ["small"; "medium"];
         max_file_size_mb := 250; parallel_processing := false |}
  /\ optimize_for_device (DEVICE true) (8 * GiB)
    = {| device := "cuda"; recommended_models := ["medium"; "large-v2"];
         max_file_size_mb := 500; parallel_processing := true |}.
Proof.
  split; [| split].
  - apply (optimize_for_device_tiers (2 * GiB)). vm_compute. reflexivity.
  - apply (optimize_for_device_tiers (6 * GiB)). vm_compute. split; [discriminate | reflexivity].
  - apply (optimize_for_device_tiers (8 * GiB)). vm_compute. discriminate.
Defined.

(** ** Quality presets *)

Lemma unknown_preset_lookup (name : string) :
  name <> "fast" -> name <> "balanced" -> name <> "high_quality" ->
  QUALITY_PRESETS !! name = None.
Proof.
  intros Hf Hb Hh. unfold QUALITY_PRESETS.
  rewrite !lookup_insert_ne by congruence. apply lookup_empty.
Qed.

Lemma balanced_preset_lookup : QUALITY_PRESETS !! "balanced" = Some preset_balanced.
Proof.
  unfold QUALITY_PRESETS.
  rewrite lookup_insert_ne by discriminate. apply lookup_insert_eq.
Qed.

(** C8: a preset name other than fast, balanced and high_quality resolves
    to the balanced bundle, without an error: the lookup of
    [transcribe_audio] returns it, the options built for the model are those
    of the balanced preset, and [validate_advanced_options] rewrites the
    name to balanced. *)
Theorem unknown_preset_resolves_to_balanced
    (name device_name task language : string) (o : AdvancedOptions) :
  name <> "fast" -> name <> "balanced" -> name <> "high_quality" ->
  opt_quality_preset o = Some name ->
  preset_config o = Ok preset_balanced
  /\ transcribe_options device_name task language o
     = transcribe_options device_name task language (set_quality_preset "balanced" o)
  /\ (exists io, transcribe_options device_name task language o = Ok io)
  /\ opt_quality_preset (validate_advanced_options o) = Some "balanced".
Proof.
  intros Hf Hb Hh Ho.
  assert (Hcfg : preset_config o = Ok preset_balanced).
  { unfold preset_config. rewrite Ho, balanced_preset_lookup. cbn.
    now rewrite unknown_preset_lookup. }
  assert (Hbal : preset_config (set_quality_preset "balanced" o) = Ok preset_balanced).
  { unfold preset_config. cbn. now rewrite balanced_preset_lookup. }
  repeat split.
  - exact Hcfg.
  - unfold transcribe_options. now rewrite Hcfg, Hbal.
  - unfold transcribe_options. rewrite Hcfg. cbn. eexists. reflexivity.
  - unfold validate_advanced_options. cbn. rewrite Ho. cbn.
    destruct (String.eqb_spec name "fast"); [contradiction |].
    destruct (String.eqb_spec name "balanced"); [contradiction |].
    destruct (String.eqb_spec name "high_quality"); [contradiction |].
    reflexivity.
Qed.

Lemma unknown_preset_resolves_to_balanced_witness :
  preset_config (set_quality_preset "turbo" no_options) = Ok preset_balanced
  /\ opt_quality_preset (validate_advanced_options (set_quality_preset "turbo" no_options))
     = Some "balanced".
Proof.
  destruct (unknown_preset_resolves_to_balanced "turbo" "cpu" "transcribe" "auto"
              (set_quality_preset "turbo" no_options))
    as (H1 & _ & _ & H4); try discriminate; try reflexivity.
  split; [exact H1 | exact H4].
Defined.

(** ** File intake *)

Lemma str_in_In (x : string) (l : list string) : str_in x l = true <-> In x l.
Proof.
  unfold str_in. rewrite existsb_exists. split.
  - intros (y & Hy & Heq). apply String.eqb_eq in Heq. now subst.
  - intros H. exists x. split; [exact H | apply String.eqb_refl].
Qed.

(** No suspicious extension is empty or supported. *)
Lemma suspicious_not_supported (ext : string) :
  str_in ext suspicious_extensions = true ->
  ext <> EmptyString /\ str_in ext supported_extensions = false.
Proof.
  intros H. apply str_in_In in H.
  assert (Hall : forallb (fun e => negb (String.eqb e EmptyString)
                                   && negb (str_in e supported_extensions))
                         suspicious_extensions = true) by (vm_compute; reflexivity).
  rewrite forallb_forall in Hall. specialize (Hall ext H).
  apply andb_true_iff in Hall as [Hne Hns].
  apply negb_true_iff in Hne, Hns. apply String.eqb_neq in Hne. now split.
Qed.

Lemma size_at_least_minimum (size : Z) :
  Qltb (inject_Z size / 1024) (inject_Z MIN_FILE_SIZE_KB) = false
  <-> 1024 <= size.
Proof.
  rewrite Qltb_ge. change 1024%Q with (inject_Z (Z.pos 1024)).
  rewrite (Qle_inject_div MIN_FILE_SIZE_KB size 1024). unfold MIN_FILE_SIZE_KB. lia.
Qed.

Lemma size_at_most_maximum (size : Z) :
  Qgtb (inject_Z size / inject_Z (1024 * 1024)) (inject_Z MAX_FILE_SIZE_MB) = false
  <-> size <= 500 * 1024 * 1024.
Proof.
  unfold Qgtb. rewrite <- not_true_iff_false, Qltb_lt.
  change (1024 * 1024) with (Z.pos 1048576).
  rewrite (Qgt_inject_div MAX_FILE_SIZE_MB size 1048576). unfold MAX_FILE_SIZE_MB. lia.
Qed.

(** C9: a file that is present and named, of 1 KB to 500 MB, whose MIME
    type, if provided, and whose extension, if present, are supported, is
    valid. *)
Theorem validate_audio_file_accepts
    (path_suffix lower : string -> string) (f : UploadedFile) :
  file_name f <> EmptyString ->
  1024 <= file_size f <= 500 * 1024 * 1024 ->
  (forall mime, file_type f = Some mime -> mime <> EmptyString ->
                supported_mime mime = true) ->
  (lower (path_suffix (file_name f)) <> EmptyString ->
   str_in (lower (path_suffix (file_name f))) supported_extensions = true) ->
  validate_audio_file path_suffix lower (Some f)
    = {| valid := true; error := None |}.
Proof.
  intros Hname [Hmin Hmax] Hmime Hext. unfold validate_audio_file.
  apply String.eqb_neq in Hname. rewrite Hname.
  apply size_at_least_minimum in Hmin. rewrite Hmin.
  apply size_at_most_maximum in Hmax. rewrite Hmax.
  replace (negb (get (file_type f) EmptyString =? EmptyString)%string
           && negb (supported_mime (get (file_type f) EmptyString))) with false.
  2:{ destruct (file_type f) as [mime |] eqn:Hty; [| reflexivity]. cbn [get].
      destruct (String.eqb_spec mime EmptyString) as [| Hne]; [reflexivity |].
      now rewrite (Hmime mime eq_refl Hne). }
  set (ext := lower (path_suffix (file_name f))) in *.
  destruct (String.eqb_spec ext EmptyString) as [Hempty | Hne].
  - rewrite Hempty. reflexivity.
  - specialize (Hext Hne). rewrite Hext, andb_false_r.
    destruct (str_in ext suspicious_extensions) eqn:Hsus; [| reflexivity].
    apply suspicious_not_supported in Hsus as [_ Hsus]. congruence.
Qed.

Lemma validate_audio_file_accepts_witness :
  validate_audio_file posix_suffix str_lower
    (Some {| file_name := "Test.WAV"; file_size := 5 * 1024 * 1024;
             file_type := Some "audio/wav" |})
  = {| valid := true; error := None |}.
Proof.
  apply validate_audio_file_accepts; cbn [file_name file_size file_type].
  - discriminate.
  - lia.
  - intros mime [= <-] _. reflexivity.
  - intros _. reflexivity.
Defined.

(** C10: the security error of the validator is unreachable. An extension
    of the denylist is non-empty and unsupported, so a file carrying one is
    already rejected by the supported-extension check, and no file at all
    receives the security error. *)
Theorem validate_audio_file_security_check_unreachable
    (path_suffix lower : string -> string) (uploaded_file : option UploadedFile) :
  (forall ext, str_in ext suspicious_extensions = true ->
               ext <> EmptyString /\ str_in ext supported_extensions = false)
  /\ error (validate_audio_file path_suffix lower uploaded_file)
     <> Some security_error.
Proof.
  split; [exact suspicious_not_supported |].
  unfold validate_audio_file, invalid, security_error.
  destruct uploaded_file as [f |]; [| discriminate].
  destruct (file_name f =? EmptyString)%string; [discriminate |].
  destruct (Qltb _ _); [discriminate |].
  destruct (Qgtb _ _); [discriminate |].
  destruct (negb _ && negb _); [cbn; intros [=] |].
  set (ext := lower (path_suffix (file_name f))).
  destruct (str_in ext suspicious_extensions) eqn:Hsus.
  - apply suspicious_not_supported in Hsus as [Hne Hns].
    apply String.eqb_neq in Hne. rewrite Hne, Hns. cbn [negb andb error]. intros [=].
  - destruct (negb _ && negb _); [cbn; intros [=] | discriminate].
Qed.

(** ** Result enrichment *)

(** Inversion of one step of a computation in the [result] monad. *)
Ltac inv_bind H :=
  match type of H with
  | context [match ?m with Ok _ => _ | Raise _ => _ end] =>
      lazymatch m with
      | context [match _ with Ok _ => _ | Raise _ => _ end] => fail
      | _ =>
          let E := fresh "E" in
          destruct m eqn:E; [cbv beta iota in H | discriminate H]
      end
  end.

Lemma enhance_fields (float_sum : list Q -> Q)
    (raw : RawTranscript) (segs : list Segment)
    (pt : Q) (o : AdvancedOptions) (r : Transcript) :
  raw_segments raw = Some segs ->
  enhance_transcription_result float_sum raw pt o = Ok r ->
  exists average speed kept,
    mean_confidence segs = Ok average
    /\ speed_statistics (last_segment_end segs) pt = Ok speed
    /\ filter_if_requested float_sum segs o = Ok kept
    /\ average_confidence r = Some average
    /\ audio_duration r = last_segment_end segs
    /\ processing_speed_ratio r = fst speed
    /\ realtime_factor r = snd speed
    /\ segments r = Some (fst kept)
    /\ filtered_segments_count r = snd kept.
Proof.
  intros Hs H. unfold enhance_transcription_result in H. rewrite Hs in H.
  unfold mbind, result_bind, mret, result_ret in H.
  inv_bind H. inv_bind H. inv_bind H. inv_bind H.
  injection H as <-. exists a, a0, a1. cbn. repeat split; assumption || reflexivity.
Qed.

Lemma truediv_nonzero (x y : Q) : ~ (y == 0)%Q -> truediv x y = Ok (x / y)%Q.
Proof.
  intros H. unfold truediv.
  destruct (Qeq_bool y 0) eqn:E; [| reflexivity].
  apply Qeq_bool_iff in E. contradiction.
Qed.

Lemma truediv_zero (x y : Q) : (y == 0)%Q -> truediv x y = Raise ZeroDivisionError.
Proof.
  intros H. unfold truediv. apply Qeq_bool_iff in H. now rewrite H.
Qed.

Lemma float_truediv_nonzero (x y : Q) :
  ~ (y == 0)%Q -> float_truediv x y = Ok (fl (x / y)).
Proof.
  intros H. unfold float_truediv.
  destruct (Qeq_bool y 0) eqn:E; [| reflexivity].
  apply Qeq_bool_iff in E. contradiction.
Qed.

Lemma truediv_inv (x y q : Q) :
  truediv x y = Ok q -> q = (x / y)%Q /\ ~ (y == 0)%Q.
Proof.
  unfold truediv. destruct (Qeq_bool y 0) eqn:E; [discriminate |].
  intros [= <-]. split; [reflexivity |].
  intros H. apply Qeq_bool_iff in H. congruence.
Qed.

(** The speed fields for a positive duration: both are computed, which
    requires a non-zero processing time. *)
Lemma speed_statistics_positive (d : option Q) (pt : Q) (speed : option Q * option Q) :
  (0 < get d 0)%Q ->
  speed_statistics d pt = Ok speed ->
  speed = (Some (pt / get d 0)%Q, Some (get d 0 / pt)%Q) /\ ~ (pt == 0)%Q.
Proof.
  intros Hd H. unfold speed_statistics in H.
  apply Qltb_lt in Hd. unfold Qgtb in H. rewrite Hd in H.
  unfold mbind, result_bind, mret, result_ret in H.
  inv_bind H. inv_bind H. injection H as <-.
  apply truediv_inv in E as [-> _]. apply truediv_inv in E0 as [-> Hpt].
  now split.
Qed.

(** The speed fields for a duration that is not positive: no division is
    evaluated. *)
Lemma speed_statistics_not_positive (d : option Q) (pt : Q) :
  (get d 0 <= 0)%Q -> speed_statistics d pt = Ok (None, None).
Proof.
  intros Hd. unfold speed_statistics, Qgtb.
  apply Qltb_ge in Hd. now rewrite Hd.
Qed.

(** With a positive duration and a zero processing time, the division that
    computes [realtime_factor] raises: only the duration is guarded. *)
Lemma speed_statistics_zero_time (d : option Q) (pt : Q) :
  (0 < get d 0)%Q -> (pt == 0)%Q ->
  speed_statistics d pt = Raise ZeroDivisionError.
Proof.
  intros Hd Hpt. unfold speed_statistics, Qgtb.
  pose proof (proj2 (Qltb_lt _ _) Hd) as Hb. rewrite Hb.
  rewrite (truediv_nonzero pt (get d 0%Q)) by (intros H; lra).
  cbn. now rewrite (truediv_zero _ _ Hpt).
Qed.

Example enhance_zero_processing_time :
  enhance_transcription_result left_to_right_sum sample_raw 0 no_options
  = Raise ZeroDivisionError.
Proof. vm_compute. reflexivity. Qed.

(** *** Average confidence *)

Lemma count_word_bounded (acc : Q * nat) (w : Word) :
  word_in_unit w = true -> totals_bounded acc -> totals_bounded (count_word acc w).
Proof.
  unfold word_in_unit, count_word, totals_bounded.
  destruct (probability w) as [p |]; [| tauto].
  intros Hp [H0 H1]. apply andb_true_iff in Hp as [Hp0 Hp1].
  apply Qle_bool_iff in Hp0, Hp1. cbn [fst snd].
  rewrite Nat2Z.inj_succ. unfold Z.succ. rewrite inject_Z_plus.
  change (inject_Z 1) with 1%Q. split; lra.
Qed.

Lemma count_words_bounded (ws : list Word) (acc : Q * nat) :
  forallb word_in_unit ws = true -> totals_bounded acc ->
  totals_bounded (fold_left count_word ws acc).
Proof.
  revert acc. induction ws as [| w ws IH]; intros acc Hws Hacc; [exact Hacc |].
  cbn in Hws. apply andb_true_iff in Hws as [Hw Hws].
  cbn [fold_left]. apply IH; [exact Hws |]. now apply count_word_bounded.
Qed.

Lemma count_segments_bounded (segs : list Segment) (acc : Q * nat) :
  forallb segment_in_unit segs = true -> totals_bounded acc ->
  totals_bounded (fold_left count_segment segs acc).
Proof.
  revert acc. induction segs as [| s segs IH]; intros acc Hs Hacc; [exact Hacc |].
  cbn in Hs. apply andb_true_iff in Hs as [Hseg Hs].
  cbn [fold_left]. apply IH; [exact Hs |].
  unfold count_segment, segment_in_unit in *.
  destruct (seg_words s); [now apply count_words_bounded | exact Hacc].
Qed.

Lemma count_segments_unscored (segs : list Segment) (acc : Q * nat) :
  forallb segment_unscored segs = true ->
  fold_left count_segment segs acc = acc.
Proof.
  revert acc. induction segs as [| s segs IH]; intros acc Hs; [reflexivity |].
  cbn in Hs. apply andb_true_iff in Hs as [Hseg Hs].
  cbn [fold_left]. rewrite IH by exact Hs.
  unfold count_segment, segment_unscored in *.
  destruct (seg_words s) as [ws |]; [| reflexivity].
  clear IH Hs. revert acc. induction ws as [| w ws IHw]; intros acc; [reflexivity |].
  cbn in Hseg. apply andb_true_iff in Hseg as [Hw Hws].
  cbn [fold_left]. rewrite IHw by exact Hws.
  unfold count_word, word_unscored in *. now destruct (probability w).
Qed.

Lemma positive_count_nonzero (n : nat) :
  (0 < n)%nat -> ~ (inject_Z (Z.of_nat n) == 0)%Q.
Proof.
  intros Hn H. assert (0 < inject_Z (Z.of_nat n))%Q; [| lra].
  change 0%Q with (inject_Z 0). rewrite <- Zlt_Qlt. lia.
Qed.

(** The mean never raises: its division is guarded by the count. *)
Lemma mean_confidence_value (segs : list Segment) :
  mean_confidence segs
  = Ok (if (0 <? snd (confidence_totals segs))%nat
        then fst (confidence_totals segs)
             / inject_Z (Z.of_nat (snd (confidence_totals segs)))
        else 5 # 10)%Q.
Proof.
  unfold mean_confidence. destruct (confidence_totals segs) as [total n].
  cbn [fst snd]. destruct (0 <? n)%nat eqn:Hn; [| reflexivity].
  apply Nat.ltb_lt in Hn. apply truediv_nonzero. now apply positive_count_nonzero.
Qed.

Lemma mean_confidence_in_unit (segs : list Segment) (c : Q) :
  forallb segment_in_unit segs = true ->
  mean_confidence segs = Ok c -> (0 <= c <= 1)%Q.
Proof.
  intros Hs. rewrite mean_confidence_value. intros [= <-].
  assert (Hb : totals_bounded (confidence_totals segs)).
  { apply count_segments_bounded; [exact Hs |]. split; vm_compute; discriminate. }
  destruct (confidence_totals segs) as [total n]. destruct Hb as [H0 H1].
  cbn [fst snd] in *. destruct (0 <? n)%nat eqn:Hn; [| lra].
  apply Nat.ltb_lt in Hn.
  assert (Hpos : (0 < inject_Z (Z.of_nat n))%Q).
  { change 0%Q with (inject_Z 0). rewrite <- Zlt_Qlt. lia. }
  split.
  - apply Qle_shift_div_l; [exact Hpos | lra].
  - apply Qle_shift_div_r; [exact Hpos | lra].
Qed.

Lemma mean_confidence_unscored (segs : list Segment) :
  forallb segment_unscored segs = true -> mean_confidence segs = Ok (5 # 10).
Proof.
  intros Hs. rewrite mean_confidence_value. unfold confidence_totals.
  now rewrite count_segments_unscored.
Qed.

(** C4: when every word probability of a raw transcript lies in [0, 1],
    the average confidence of the enriched result lies in [0, 1]; when no
    word of any segment carries a probability, it is exactly one half. *)
Theorem average_confidence_in_unit (float_sum : list Q -> Q)
    (raw : RawTranscript) (segs : list Segment)
    (pt : Q) (o : AdvancedOptions) (r : Transcript) :
  raw_segments raw = Some segs ->
  enhance_transcription_result float_sum raw pt o = Ok r ->
  (forallb segment_in_unit segs = true ->
   exists c, average_confidence r = Some c /\ (0 <= c <= 1)%Q)
  /\ (forallb segment_unscored segs = true ->
      average_confidence r = Some (5 # 10)).
Proof.
  intros Hs H.
  destruct (enhance_fields float_sum raw segs pt o r Hs H)
    as (average & speed & kept & Hmean & _ & _ & Havg & _).
  split; intros Hsegs.
  - exists average. split; [exact Havg |].
    now apply (mean_confidence_in_unit segs).
  - rewrite (mean_confidence_unscored segs Hsegs) in Hmean.
    injection Hmean as <-. exact Havg.
Qed.

Lemma average_confidence_in_unit_witness :
  exists r,
    enhance_transcription_result left_to_right_sum sample_raw (3 # 2) no_options = Ok r
    /\ exists c, average_confidence r = Some c /\ (0 <= c <= 1)%Q.
Proof.
  eexists. split; [vm_compute; reflexivity |].
  refine (let H := average_confidence_in_unit left_to_right_sum sample_raw _ (3 # 2) no_options _
                     eq_refl eq_refl in _).
  destruct H as [Hunit _]. apply Hunit. reflexivity.
Defined.

(** *** Segment filtering *)

Lemma segment_confidence_value (float_sum : list Q -> Q) (s : Segment) :
  segment_confidence float_sum s = Ok (stated_confidence float_sum s).
Proof.
  unfold segment_confidence, stated_confidence.
  destruct (seg_words s) as [[| w ws] |]; try reflexivity.
  cbn [map length]. rewrite length_map.
  apply float_truediv_nonzero, positive_count_nonzero. lia.
Qed.

Lemma filter_segments_loop_value (float_sum : list Q -> Q)
    (segs : list Segment) (t : Q) (acc : list Segment) :
  filter_segments_loop float_sum segs t acc
  = Ok (acc ++ map (annotate float_sum) (List.filter (keeps float_sum t) segs))%list.
Proof.
  revert acc. induction segs as [| s segs IH]; intros acc.
  - cbn. now rewrite app_nil_r.
  - cbn [filter_segments_loop List.filter]. rewrite segment_confidence_value.
    cbn [mbind result_bind]. unfold Qgeb, keeps.
    destruct (Qle_bool t (stated_confidence float_sum s)).
    + rewrite IH. cbn [map]. now rewrite <- app_assoc.
    + apply IH.
Qed.

Lemma filter_segments_by_confidence_value (float_sum : list Q -> Q)
    (segs : list Segment) (t : Q) :
  filter_segments_by_confidence float_sum segs t
  = Ok (map (annotate float_sum) (List.filter (keeps float_sum t) segs)).
Proof. apply filter_segments_loop_value. Qed.

(** C5, as stated, fails: a word without a probability counts as one
    half in the confidence of its segment. A segment of two words, one
    with probability 1 and one without, has the mean 1 over the
    probabilities of its words and the confidence 0.75; at the threshold 0.8
    it is dropped. *)
Lemma segment_filtering_mean_counterexample :
  ~ (exists r,
       enhance_transcription_result left_to_right_sum half_scored_raw 1
         (with_threshold (8 # 10)) = Ok r
       /\ filtered_segments_count r
          = Some (length (List.filter
                            (fun s => Qle_bool (8 # 10) (mean_of_probabilities s))
                            (get (raw_segments half_scored_raw) [])))).
Proof.
  intros (r & H & Hc). vm_compute in H. injection H as <-.
  vm_compute in Hc. discriminate Hc.
Qed.

(** The confidence is a mean in double precision: three words with the
    probability 0.7 give a confidence below 0.7, and the segment is dropped
    at the threshold 0.7. *)
Example segment_filtering_rounds_the_mean :
  filter_segments_by_confidence left_to_right_sum
    [sample_segment 0 1 "a"
       (Some [sample_word (fl (7 # 10)); sample_word (fl (7 # 10));
              sample_word (fl (7 # 10))])]
    (fl (7 # 10))
  = Ok [].
Proof. vm_compute. reflexivity. Qed.

(** C5 (amended): the filter never raises and returns the segments whose
    confidence reaches the threshold, in their original order, each carrying
    its confidence. The confidence is computed in double precision: the sum
    of the probabilities of the words of the segment, a word without one
    counting as one half, divided by the number of words, and one half for a
    segment without words. With a zero threshold the segments of the
    enriched result are the original ones and no count is recorded; with a
    positive threshold they are the outcome of the filter, and the recorded
    count is their number, which is at most the number of original
    segments. *)
Theorem segment_filtering (float_sum : list Q -> Q) (raw : RawTranscript)
    (segs : list Segment) (pt : Q) (o : AdvancedOptions) (r : Transcript) :
  raw_segments raw = Some segs ->
  enhance_transcription_result float_sum raw pt o = Ok r ->
  (forall t,
     filter_segments_by_confidence float_sum segs t
     = Ok (map (annotate float_sum) (List.filter (keeps float_sum t) segs)))
  /\ ((get (opt_confidence_threshold o) 0 == 0)%Q ->
      segments r = Some segs /\ filtered_segments_count r = None)
  /\ ((0 < get (opt_confidence_threshold o) 0)%Q ->
      let kept :=
        List.filter (keeps float_sum (get (opt_confidence_threshold o) 0%Q)) segs in
      segments r = Some (map (annotate float_sum) kept)
      /\ filtered_segments_count r = Some (length kept)
      /\ (length kept <= length segs)%nat).
Proof.
  intros Hs H.
  destruct (enhance_fields float_sum raw segs pt o r Hs H)
    as (average & speed & kept & _ & _ & Hkept & _ & _ & _ & _ & Hsegs & Hcount).
  unfold filter_if_requested, Qgtb in Hkept.
  split; [intros t; apply filter_segments_by_confidence_value |]. split.
  - intros Hzero.
    assert (Hle : (get (opt_confidence_threshold o) 0 <= 0)%Q) by lra.
    apply Qltb_ge in Hle. rewrite Hle in Hkept. injection Hkept as <-.
    now rewrite Hsegs, Hcount.
  - intros Hpos. apply Qltb_lt in Hpos. rewrite Hpos in Hkept.
    rewrite filter_segments_by_confidence_value in Hkept.
    injection Hkept as <-. cbn [fst snd] in *.
    rewrite Hsegs, Hcount, length_map. repeat split.
    apply List.filter_length_le.
Qed.

Lemma segment_filtering_witness :
  exists r,
    enhance_transcription_result left_to_right_sum sample_raw (3 # 2)
      (with_threshold (6 # 10)) = Ok r
    /\ filtered_segments_count r = Some 1%nat.
Proof.
  eexists. split; [vm_compute; reflexivity |].
  match goal with
  | |- filtered_segments_count ?r = _ =>
      destruct (segment_filtering left_to_right_sum sample_raw _ (3 # 2)
                  (with_threshold (6 # 10)) r eq_refl
                  ltac:(vm_compute; reflexivity)) as (_ & _ & Hpos)
  end.
  destruct Hpos as (_ & Hc & _); [reflexivity |].
  vm_compute in Hc. exact Hc.
Defined.

(** *** A transcript without segments *)

(** C3, as stated, fails: the enriched result of a transcript with an empty
    segment list has no [audio_duration] set to zero. *)
Lemma enhance_empty_audio_duration_counterexample :
  ~ (exists r d,
       enhance_transcription_result left_to_right_sum empty_raw 1 no_options = Ok r
       /\ audio_duration r = Some d /\ (d == 0)%Q).
Proof.
  intros (r & d & H & Hd & _). vm_compute in H. injection H as <-.
  discriminate Hd.
Qed.

(** C3 (amended): for a raw transcript with an empty segment list the
    enrichment returns a result in which [audio_duration] is absent, so that
    it reads as zero through [get] with its default, the two speed fields
    are absent, the speech rate is normal and no silence is reported. *)
Theorem enhance_empty_segments (float_sum : list Q -> Q)
    (raw : RawTranscript) (pt : Q) (o : AdvancedOptions) :
  raw_segments raw = Some [] ->
  exists r c,
    enhance_transcription_result float_sum raw pt o = Ok r
    /\ audio_duration r = None
    /\ get (audio_duration r) 0%Q = 0%Q
    /\ processing_speed_ratio r = None
    /\ realtime_factor r = None
    /\ audio_characteristics r = Some c
    /\ speech_rate c = "normal"
    /\ has_silence c = false.
Proof.
  intros Hs. unfold enhance_transcription_result. rewrite Hs.
  rewrite mean_confidence_value.
  assert (Hspeed : speed_statistics (last_segment_end []) pt = Ok (None, None))
    by reflexivity.
  assert (Hkept : exists n, filter_if_requested float_sum [] o = Ok ([], n)).
  { unfold filter_if_requested. destruct (Qgtb _ 0); eexists; reflexivity. }
  destruct Hkept as [n Hkept]. rewrite Hspeed, Hkept.
  eexists. exists default_characteristics. cbn. repeat split; reflexivity.
Qed.

Lemma enhance_empty_segments_witness :
  exists r,
    enhance_transcription_result left_to_right_sum empty_raw 1 no_options = Ok r
    /\ audio_duration r = None /\ processing_speed_ratio r = None.
Proof.
  destruct (enhance_empty_segments left_to_right_sum empty_raw 1 no_options eq_refl)
    as (r & c & H & Hd & _ & Hr & _).
  exists r. now repeat split.
Defined.

(** *** The enrichment returns *)

Lemma detect_silence_returns (segs : list Segment) :
  forallb timed segs = true -> exists b, detect_silence segs = Ok b.
Proof.
  induction segs as [| a rest IH]; intros H; [now exists false |].
  destruct rest as [| b rest]; [now exists false |].
  cbn [forallb] in H. apply andb_true_iff in H as [Ha Hrest].
  specialize (IH Hrest). cbn [forallb] in Hrest.
  apply andb_true_iff in Hrest as [Hb _].
  unfold timed in Ha, Hb.
  destruct (seg_end a) as [e |] eqn:Ee; [| now destruct (seg_start a)].
  destruct (seg_start b) as [s |] eqn:Es; [| discriminate].
  cbn [detect_silence]. rewrite Ee, Es. cbn [getitem mbind result_bind].
  destruct (Qgtb (fl (s - e)) 3); [now exists true | exact IH].
Qed.

Lemma analyze_audio_characteristics_returns (r : Transcript) :
  (forall segs, segments r = Some segs -> forallb timed segs = true) ->
  exists c, analyze_audio_characteristics r = Ok c.
Proof.
  intros H. unfold analyze_audio_characteristics.
  destruct (segments r) as [[| s segs] |] eqn:Hs; try (eexists; reflexivity).
  destruct (detect_silence_returns (s :: segs) (H _ eq_refl)) as [b Hb].
  rewrite Hb. destruct (Qgtb (get (audio_duration r) 0%Q) 0) eqn:Hd.
  - apply Qltb_lt in Hd. rewrite truediv_nonzero by (intros E; lra).
    eexists. reflexivity.
  - eexists. reflexivity.
Qed.

Lemma timed_filter_annotate (float_sum : list Q -> Q) (t : Q) (segs : list Segment) :
  forallb timed segs = true ->
  forallb timed (map (annotate float_sum) (List.filter (keeps float_sum t) segs)) = true.
Proof.
  induction segs as [| s segs IH]; intros H; [reflexivity |].
  cbn [forallb] in H. apply andb_true_iff in H as [Hs Hrest].
  cbn [List.filter]. destruct (keeps float_sum t s); [| now apply IH].
  cbn [map forallb]. rewrite (IH Hrest), andb_true_r. exact Hs.
Qed.

(** The enrichment returns a result whenever the segments carry their two
    times and the processing time is not zero; a transcript without a
    positive duration does not need the latter. *)
Lemma enhance_transcription_result_returns (float_sum : list Q -> Q)
    (raw : RawTranscript) (pt : Q)
    (o : AdvancedOptions) :
  (forall segs, raw_segments raw = Some segs ->
     forallb timed segs = true
     /\ ((0 < get (last_segment_end segs) 0)%Q -> ~ (pt == 0)%Q)) ->
  exists r, enhance_transcription_result float_sum raw pt o = Ok r.
Proof.
  intros H. unfold enhance_transcription_result.
  destruct (raw_segments raw) as [segs |] eqn:Hs.
  - destruct (H segs eq_refl) as [Htimed Hpt].
    rewrite mean_confidence_value.
    assert (Hspeed : exists speed,
               speed_statistics (last_segment_end segs) pt = Ok speed).
    { unfold speed_statistics.
      destruct (Qgtb (get (last_segment_end segs) 0%Q) 0) eqn:Hd;
        [| eexists; reflexivity].
      apply Qltb_lt in Hd.
      rewrite (truediv_nonzero pt) by (intros E; lra).
      cbn [mbind result_bind]. rewrite truediv_nonzero by auto.
      eexists. reflexivity. }
    destruct Hspeed as [speed ->].
    assert (Hkept : exists kept,
               filter_if_requested float_sum segs o = Ok kept
               /\ forallb timed (fst kept) = true).
    { unfold filter_if_requested. destruct (Qgtb _ 0).
      - rewrite filter_segments_by_confidence_value. eexists.
        split; [reflexivity |]. now apply timed_filter_annotate.
      - eexists. split; [reflexivity | exact Htimed]. }
    destruct Hkept as (kept & -> & Hk). cbn [mbind result_bind mret result_ret].
    match goal with
    | |- context [analyze_audio_characteristics ?x] =>
        destruct (analyze_audio_characteristics_returns x) as [c ->]
    end.
    + intros l [= <-]. exact Hk.
    + eexists. reflexivity.
  - cbn. eexists. reflexivity.
Qed.

Example sample_raw_has_silence :
  exists r c,
    enhance_transcription_result left_to_right_sum sample_raw (3 # 2) no_options = Ok r
    /\ audio_characteristics r = Some c
    /\ has_silence c = true /\ audio_quality c = "excellent".
Proof. do 2 eexists. split; [vm_compute; reflexivity |]. now repeat split. Qed.

(** *** The speed fields *)



(** ** Model loading *)

(** C6, as stated, fails: when loading tiny fails, the exception that
    reaches the caller is the one of the recognition library, which need
    not name the model that was attempted. *)
Lemma load_whisper_model_error_counterexample :
  ~ (exists e,
       snd (load_whisper_model unit out_of_memory "cuda" "tiny" fresh_world)
         = Raise e
       /\ mentions e "tiny" = true).
Proof.
  intros (e & H & Hm). vm_compute in H. injection H as <-.
  vm_compute in Hm. discriminate Hm.
Qed.

Lemma load_whisper_model_cached {Model : Type}
    (load : string -> string -> result Model) (device_name model_size : string)
    (w : World Model) (h : Model) :
  cache w !! model_size = Some h ->
  load_whisper_model Model load device_name model_size w = (w, Ok h).
Proof. intros H. unfold load_whisper_model. now rewrite H. Qed.

(** C6 (amended): on a cache miss, when loading the requested model fails
    and the requested model is not tiny, tiny is loaded once, its handle is
    returned and cached under the requested name, so that the next request
    for that name returns it without loading; when loading tiny itself
    fails, the exception of the recognition library reaches the caller
    unchanged, nothing is cached, and the error shown for the first failure
    names the requested model. *)
Theorem load_whisper_model_fallback {Model : Type}
    (load : string -> string -> result Model) (device_name model_size : string)
    (w : World Model) (e : exn) :
  cache w !! model_size = None ->
  load model_size device_name = Raise e ->
  (forall h, model_size <> "tiny" -> load "tiny" device_name = Ok h ->
     exists trace,
       let w' := {| cache := <[model_size := h]> (cache w);
                    events := (events w ++ trace)%list |} in
       load_whisper_model Model load device_name model_size w = (w', Ok h)
       /\ load_attempts trace = [model_size; "tiny"]
       /\ load_whisper_model Model load device_name model_size w' = (w', Ok h))
  /\ (forall e', load "tiny" device_name = Raise e' ->
      exists trace,
        load_whisper_model Model load device_name model_size w
          = ({| cache := cache w; events := (events w ++ trace)%list |}, Raise e')
        /\ In (StError (load_error_message model_size e)) trace
        /\ load_attempts trace
           = if String.eqb model_size "tiny" then ["tiny"] else [model_size; "tiny"]).
Proof.
  intros Hmiss Hfail. split.
  - intros h Hne Htiny. apply String.eqb_neq in Hne.
    eexists. cbn zeta. split; [| split].
    + unfold load_whisper_model, load_whisper_model_body.
      rewrite Hmiss, Hfail, Hne, Htiny. cbn [negb]. reflexivity.
    + now destruct (String.eqb device_name "cuda").
    + apply load_whisper_model_cached. cbn [cache]. apply lookup_insert_eq.
  - intros e' Htiny.
    destruct (String.eqb_spec model_size "tiny") as [-> | Hne].
    + rewrite Htiny in Hfail. injection Hfail as ->.
      eexists. split; [| split].
      * unfold load_whisper_model, load_whisper_model_body.
        rewrite Hmiss, Htiny. cbn [negb String.eqb]. reflexivity.
      * rewrite in_app_iff. cbn. tauto.
      * now destruct (String.eqb device_name "cuda").
    + apply String.eqb_neq in Hne. eexists. split; [| split].
      * unfold load_whisper_model, load_whisper_model_body.
        rewrite Hmiss, Hfail, Hne, Htiny. cbn [negb]. reflexivity.
      * rewrite !in_app_iff. cbn. tauto.
      * now destruct (String.eqb device_name "cuda").
Qed.

Lemma load_whisper_model_fallback_witness :
  fst (load_whisper_model nat only_tiny "cpu" "medium" fresh_world)
    = {| cache := {["medium" := 7%nat]};
         events := [LoadModel "medium" "cpu";
                    StError (load_error_message "medium" (Exception "download failed"));
                    StWarning "🔄 Tentando carregar modelo 'tiny' como fallback...";
                    LoadModel "tiny" "cpu"] |}
  /\ snd (load_whisper_model nat only_tiny "cpu" "medium" fresh_world) = Ok 7%nat.
Proof.
  destruct (load_whisper_model_fallback only_tiny "cpu" "medium" fresh_world
              (Exception "download failed") eq_refl eq_refl) as [Hok _].
  destruct (Hok 7%nat) as (trace & H & _); [discriminate | reflexivity |].
  split; reflexivity.
Defined.

(** ** Subtitle export *)

(** *** Floors *)

Lemma Qfloor_unique (x : Q) (z : Z) :
  (inject_Z z <= x)%Q -> (x < inject_Z (z + 1))%Q -> Qfloor x = z.
Proof.
  intros Hle Hlt.
  pose proof (Qfloor_le x) as Hfl. pose proof (Qlt_floor x) as Hfu.
  assert (H1 : (inject_Z z < inject_Z (Qfloor x + 1))%Q) by lra.
  assert (H2 : (inject_Z (Qfloor x) < inject_Z (z + 1))%Q) by lra.
  rewrite <- Zlt_Qlt in H1, H2. lia.
Qed.

(** The floor of a quotient by a positive integer only depends on the
    floor of the dividend. *)
Lemma Qfloor_div_pos (y : Q) (m : positive) :
  Qfloor (y / inject_Z (Z.pos m)) = Qfloor y / Z.pos m.
Proof.
  pose proof (Qfloor_le y) as Hfl. pose proof (Qlt_floor y) as Hfu.
  pose proof (Z.div_mod (Qfloor y) (Z.pos m) ltac:(lia)) as Hdm.
  pose proof (Z.mod_pos_bound (Qfloor y) (Z.pos m) ltac:(lia)) as Hmod.
  set (q := Qfloor y / Z.pos m) in *. set (r := Qfloor y mod Z.pos m) in *.
  assert (Hm : (0 < inject_Z (Z.pos m))%Q) by reflexivity.
  assert (HQ : (inject_Z (Qfloor y) == inject_Z (Z.pos m) * inject_Z q + inject_Z r)%Q).
  { rewrite <- inject_Z_mult, <- inject_Z_plus. now rewrite <- Hdm. }
  assert (Hr0 : (0 <= inject_Z r)%Q) by (change 0%Q with (inject_Z 0); rewrite <- Zle_Qle; lia).
  assert (Hr1 : (inject_Z r + 1 <= inject_Z (Z.pos m))%Q).
  { change 1%Q with (inject_Z 1). rewrite <- inject_Z_plus, <- Zle_Qle. lia. }
  rewrite inject_Z_plus in Hfu. change (inject_Z 1) with 1%Q in Hfu.
  apply Qfloor_unique.
  - apply Qle_shift_div_l; [exact Hm |]. nra.
  - rewrite inject_Z_plus. change (inject_Z 1) with 1%Q.
    apply Qlt_shift_div_r; [exact Hm |]. nra.
Qed.

Lemma Qfloor_minus_Z (x : Q) (z : Z) : Qfloor (x - inject_Z z) = Qfloor x - z.
Proof.
  pose proof (Qfloor_le x) as Hfl. pose proof (Qlt_floor x) as Hfu.
  rewrite inject_Z_plus in Hfu. change (inject_Z 1) with 1%Q in Hfu.
  apply Qfloor_unique.
  - unfold Z.sub. rewrite inject_Z_plus, inject_Z_opp. lra.
  - replace (Qfloor x - z + 1) with (Qfloor x + 1 + - z) by lia.
    rewrite !inject_Z_plus, inject_Z_opp. change (inject_Z 1) with 1%Q. lra.
Qed.

Lemma int_inject_Z (z : Z) : int (inject_Z z) = z.
Proof. unfold int. destruct (Qle_bool 0 (inject_Z z)); [apply Qfloor_Z | apply Qceiling_Z]. Qed.

Lemma int_nonneg (x : Q) : (0 <= x)%Q -> int x = Qfloor x.
Proof. intros H. unfold int. apply Qle_bool_iff in H. now rewrite H. Qed.

Lemma inject_Z_pos_nonzero (m : positive) : ~ (inject_Z (Z.pos m) == 0)%Q.
Proof. unfold Qeq. cbn. lia. Qed.

(** The floor of a number of seconds divided by an integer, from the floor
    of the number of milliseconds. *)
Lemma Qfloor_seconds_div (s : Q) (m : positive) :
  Qfloor (s / inject_Z (Z.pos m)) = Qfloor (s * 1000) / (1000 * Z.pos m).
Proof.
  change (1000 * Z.pos m) with (Z.pos (1000 * m)).
  rewrite <- Qfloor_div_pos. apply Qfloor_comp.
  rewrite Pos2Z.inj_mul, inject_Z_mult. change (inject_Z 1000) with 1000%Q.
  field. apply inject_Z_pos_nonzero.
Qed.

Lemma Qfloor_seconds (s : Q) : Qfloor s = Qfloor (s * 1000) / 1000.
Proof.
  transitivity (Qfloor (s / inject_Z (Z.pos 1))).
  - apply Qfloor_comp. change (inject_Z 1) with 1%Q. field.
  - apply (Qfloor_seconds_div s 1).
Qed.

(** *** Floor division of doubles *)

Lemma int_comp (x y : Q) : (x == y)%Q -> int x = int y.
Proof.
  intros H. unfold int.
  rewrite (Qle_bool_eq 0 0 x y (Qeq_refl 0) H), (Qfloor_comp _ _ H), (Qceiling_comp _ _ H).
  reflexivity.
Qed.

Lemma double_nonneg (d : Q) : double d -> (0 <= d)%Q.
Proof.
  intros (m & e & Hm & _ & E). rewrite E. pose proof (pow2_pos e).
  assert (0 <= inject_Z m)%Q by (change 0%Q with (inject_Z 0); rewrite <- Zle_Qle; lia).
  nra.
Qed.

Lemma is_double_double (x : Q) : is_double x = true -> double x.
Proof.
  unfold is_double. intros H. apply andb_true_iff in H as [H0 H].
  apply Qle_bool_iff in H0. apply Qeq_bool_iff in H.
  apply (double_comp _ _ H). now apply fl_double.
Qed.

Lemma fl_nonneg (x : Q) : (0 <= x)%Q -> (0 <= fl x)%Q.
Proof. intros H. apply (fl_lower x 0); [apply (double_Z 0); lia | exact H]. Qed.

(** Below 2^53 the floor division of a float that is not negative by a
    whole number is exact: the quotient and the remainder of the code are
    those of the real numbers. *)
Lemma float_divmod_exact (x : Q) (w : positive) :
  (0 <= x)%Q -> (x < inject_Z (2 ^ 53))%Q ->
  (float_floordiv x (inject_Z (Z.pos w)) == inject_Z (Qfloor (x / inject_Z (Z.pos w))))%Q
  /\ (float_mod x (inject_Z (Z.pos w))
      == x - inject_Z (Z.pos w) * inject_Z (Qfloor (x / inject_Z (Z.pos w))))%Q.
Proof.
  intros H0 H1. set (W := inject_Z (Z.pos w)).
  assert (HW : (0 < W)%Q) by reflexivity.
  assert (Hq0 : (0 <= x / W)%Q) by (apply Qle_shift_div_l; [exact HW | lra]).
  pose proof (int_nonneg _ Hq0) as Hk.
  destruct (floor_bounds (x / W)) as [Hkl Hku].
  pose proof (floor_ge (x / W) 0 Hq0) as Hk0.
  set (k := Qfloor (x / W)) in *.
  assert (Hx : (x == x / W * W)%Q) by (field; lra).
  set (r := (x - W * inject_Z k)%Q).
  assert (Hr : (0 <= r)%Q /\ (r < W)%Q).
  { unfold r. set (q := (x / W)%Q) in *. set (z := inject_Z k) in *. split; nra. }
  destruct Hr as [Hr0 Hr1].
  assert (Efmod : fmod x W = r) by (unfold fmod; now rewrite Hk).
  assert (EWk : (x - r == inject_Z (Z.pos w * k))%Q).
  { unfold r, W. rewrite inject_Z_mult. ring. }
  assert (HWk : 0 <= Z.pos w * k < 2 ^ 53).
  { split; [lia |]. rewrite Zlt_Qlt, <- EWk. lra. }
  assert (E1 : (fl (x - r) == inject_Z (Z.pos w * k))%Q).
  { rewrite (fl_comp _ _ EWk). apply fl_exact, double_Z, HWk. }
  assert (E2 : (fl (fl (x - r) / W) == inject_Z k)%Q).
  { assert (E : (fl (x - r) / W == inject_Z k)%Q).
    { rewrite E1, inject_Z_mult. fold W. field. lra. }
    rewrite (fl_comp _ _ E). apply fl_exact, double_Z. nia. }
  assert (HbW : Qltb W 0 = false) by (apply Qltb_ge; lra).
  assert (Hbr : Qltb r 0 = false) by (apply Qltb_ge; exact Hr0).
  assert (Hfd : ((if Qeq_bool (fl (fl (x - r) / W)) 0 then 0%Q
                  else
                    let f := inject_Z (Qfloor (fl (fl (x - r) / W))) in
                    if Qltb (1 # 2) (fl (fl (fl (x - r) / W) - f)) then fl (f + 1) else f)
                 == inject_Z k)%Q).
  { destruct (Qeq_bool (fl (fl (x - r) / W)) 0) eqn:Ed.
    - apply Qeq_bool_iff in Ed. now rewrite <- E2, Ed.
    - cbv zeta. rewrite (Qfloor_comp _ _ E2), Qfloor_Z.
      assert (E : (fl (fl (x - r) / W) - inject_Z k == 0)%Q) by (rewrite E2; ring).
      rewrite (fl_comp _ _ E), fl_zero.
      replace (Qltb (1 # 2) 0) with false by reflexivity. reflexivity. }
  unfold float_floordiv, float_mod, float_divmod. rewrite Efmod.
  destruct (Qeq_bool r 0) eqn:Er.
  - cbv beta iota zeta. cbn [fst snd]. split; [exact Hfd |].
    apply Qeq_bool_iff in Er. fold r. now rewrite Er.
  - rewrite HbW, Hbr. cbn [xorb]. cbv beta iota zeta. cbn [fst snd].
    split; [exact Hfd | reflexivity].
Qed.

Lemma remainder_range (x : Q) (w : positive) :
  (0 <= x - inject_Z (Z.pos w) * inject_Z (Qfloor (x / inject_Z (Z.pos w))))%Q
  /\ (x - inject_Z (Z.pos w) * inject_Z (Qfloor (x / inject_Z (Z.pos w)))
      < inject_Z (Z.pos w))%Q.
Proof.
  set (W := inject_Z (Z.pos w)). assert (HW : (0 < W)%Q) by reflexivity.
  destruct (floor_bounds (x / W)) as [Hkl Hku].
  assert (Hx : (x == x / W * W)%Q) by (field; lra).
  set (q := (x / W)%Q) in *. set (z := inject_Z (Qfloor q)) in *. split; nra.
Qed.

Lemma Qfloor_remainder (x : Q) (w : positive) :
  Qfloor (x - inject_Z (Z.pos w) * inject_Z (Qfloor (x / inject_Z (Z.pos w))))
  = Qfloor x mod Z.pos w.
Proof.
  rewrite <- inject_Z_mult, Qfloor_minus_Z, Qfloor_div_pos.
  rewrite (Z.mod_eq (Qfloor x) (Z.pos w)) by lia. reflexivity.
Qed.

(** The three fields of the whole seconds, and the part behind the point
    that the last field is computed from. *)
Lemma srt_fields (t : Q) :
  (0 <= t)%Q -> (t < inject_Z (2 ^ 53))%Q ->
  int (float_floordiv t 3600) = Qfloor t / 3600
  /\ int (float_floordiv (float_mod t 3600) 60) = Qfloor t mod 3600 / 60
  /\ int (float_mod t 60) = Qfloor t mod 60
  /\ (float_mod t 1 == t - inject_Z (Qfloor t))%Q.
Proof.
  intros H0 H1.
  destruct (float_divmod_exact t 3600 H0 H1) as [Eh Em].
  destruct (float_divmod_exact t 60 H0 H1) as [_ Es].
  destruct (float_divmod_exact t 1 H0 H1) as [_ Ef].
  change (inject_Z (Z.pos 3600)) with 3600%Q in *.
  change (inject_Z (Z.pos 60)) with 60%Q in *.
  change (inject_Z (Z.pos 1)) with 1%Q in *.
  split; [| split; [| split]].
  - rewrite (int_comp _ _ Eh), int_inject_Z. apply (Qfloor_div_pos t 3600).
  - destruct (remainder_range t 3600) as [Hr0 Hr1].
    change (inject_Z (Z.pos 3600)) with 3600%Q in *.
    assert (Hm0 : (0 <= float_mod t 3600)%Q) by (rewrite Em; exact Hr0).
    assert (Hm1 : (float_mod t 3600 < inject_Z (2 ^ 53))%Q).
    { rewrite Em. eapply Qlt_trans; [exact Hr1 | reflexivity]. }
    destruct (float_divmod_exact (float_mod t 3600) 60 Hm0 Hm1) as [E _].
    change (inject_Z (Z.pos 60)) with 60%Q in *.
    rewrite (int_comp _ _ E), int_inject_Z.
    change 60%Q with (inject_Z (Z.pos 60)). rewrite Qfloor_div_pos.
    rewrite (Qfloor_comp _ _ Em). f_equal. apply (Qfloor_remainder t 3600).
  - rewrite (int_comp _ _ Es). destruct (remainder_range t 60) as [Hr0 _].
    change (inject_Z (Z.pos 60)) with 60%Q in *.
    rewrite int_nonneg by exact Hr0. apply (Qfloor_remainder t 60).
  - rewrite Ef. apply Qplus_inj_l. 
    assert (E : (t / 1 == t)%Q) by (field).
    rewrite (Qfloor_comp _ _ E). ring.
Qed.

(** The last field of a timestamp: from 0 to 999, and the number of whole
    milliseconds behind the point or one more. *)
Lemma milliseconds_field (t : Q) :
  double t ->
  let m := int (fl ((t - inject_Z (Qfloor t)) * 1000)) in
  0 <= m <= 999
  /\ Qfloor (t * 1000) - 1000 * Qfloor t <= m <= Qfloor (t * 1000) - 1000 * Qfloor t + 1.
Proof.
  intros Hd m. pose proof (double_frac t Hd) as Hfd.
  destruct (floor_bounds t) as [Hl Hu].
  set (frac := (t - inject_Z (Qfloor t))%Q) in *.
  assert (Hf1 : (frac < pow2 0)%Q) by (change (pow2 0) with 1%Q; unfold frac; lra).
  pose proof (double_below_pow2 frac 0 Hfd Hf1) as Hfb.
  change (pow2 0) with 1%Q in Hfb. change (0 - 53) with (-53) in Hfb.
  assert (Hf0 : (0 <= frac)%Q) by (unfold frac; lra).
  assert (Hf2 : (frac < 1)%Q) by (unfold frac; lra).
  set (x := (frac * 1000)%Q) in *.
  assert (Hx0 : (0 <= x)%Q) by (unfold x; lra).
  assert (Em : m = Qfloor (fl x)) by (apply int_nonneg, fl_nonneg, Hx0).
  destruct (floor_bounds x) as [Hxl Hxu].
  destruct (floor_bounds (fl x)) as [Hyl Hyu].
  pose proof (floor_ge x 0 Hx0) as HF0.
  assert (HF1 : Qfloor x < 1000).
  { rewrite Zlt_Qlt. change (inject_Z 1000) with 1000%Q. unfold x in *. lra. }
  assert (Hlow : Qfloor x <= Qfloor (fl x)).
  { apply floor_ge. apply fl_lower; [apply double_Z; lia | exact Hxl]. }
  assert (Hup : Qfloor (fl x) <= Qfloor x + 1).
  { rewrite Zle_Qle. eapply Qle_trans; [exact Hyl |].
    apply fl_upper; [exact Hx0 | apply double_Z; lia |].
    rewrite inject_Z_plus. change (inject_Z 1) with 1%Q. lra. }
  assert (Hlt : (fl x < 1000)%Q).
  { assert (Hp : double (1000 - pow2 (-43))).
    { exists (1000 * 2 ^ 43 - 1), (-43). split; [lia |]. split; [lia |].
      vm_compute. reflexivity. }
    assert (Eu : (pow2 (-43) == 1024 * pow2 (-53))%Q) by (vm_compute; reflexivity).
    pose proof (pow2_pos (-53)) as Hu0.
    set (u := pow2 (-53)) in *. set (v := pow2 (-43)) in *.
    destruct (Qlt_le_dec (1000 - v) x) as [Hgt | Hle].
    - pose proof (fl_near_below x (1000 - v) Hp (Qlt_le_weak _ _ Hgt)) as Hn.
      unfold x in *. lra.
    - pose proof (fl_upper x (1000 - v) Hx0 Hp Hle). lra. }
  assert (HF : Qfloor (fl x) < 1000).
  { rewrite Zlt_Qlt. change (inject_Z 1000) with 1000%Q. lra. }
  assert (EF : Qfloor x = Qfloor (t * 1000) - 1000 * Qfloor t).
  { rewrite <- Qfloor_minus_Z. apply Qfloor_comp. unfold x, frac.
    rewrite inject_Z_mult. change (inject_Z 1000) with 1000%Q. ring. }
  pose proof (floor_ge (fl x) 0 (fl_nonneg x Hx0)) as Hm0.
  rewrite Em, <- EF. lia.
Qed.

Lemma written_milliseconds_range (t : Q) :
  double t -> (t < 360000)%Q ->
  0 <= written_milliseconds t < 360000000 /\ shown_within_a_millisecond t.
Proof.
  intros Hd Hlt. pose proof (double_nonneg t Hd) as H0.
  destruct (milliseconds_field t Hd) as [Hm Hn].
  unfold shown_within_a_millisecond, written_milliseconds.
  set (m := int (fl ((t - inject_Z (Qfloor t)) * 1000))) in *.
  pose proof (floor_ge t 0 H0) as Hf0.
  assert (Hf1 : Qfloor t < 360000).
  { destruct (floor_bounds t) as [Hl _]. rewrite Zlt_Qlt.
    change (inject_Z 360000) with 360000%Q. lra. }
  lia.
Qed.

(** *** Timestamps *)

Lemma below_by_cases (P : Z -> bool) (bound : nat) :
  forallb (fun k => P (Z.of_nat k)) (seq 0 bound) = true ->
  forall n, 0 <= n < Z.of_nat bound -> P n = true.
Proof.
  intros H n Hn. rewrite forallb_forall in H.
  specialize (H (Z.to_nat n)). rewrite Z2Nat.id in H by lia.
  apply H, in_seq. lia.
Qed.

Lemma format_0d_2 (n : Z) : 0 <= n < 100 -> format_0d 2 n = digits2 n.
Proof.
  intros Hn. apply String.eqb_eq.
  apply (below_by_cases (fun n => String.eqb (format_0d 2 n) (digits2 n)) 100);
    [vm_compute; reflexivity | lia].
Qed.

Lemma format_0d_3 (n : Z) : 0 <= n < 1000 -> format_0d 3 n = digits3 n.
Proof.
  intros Hn. apply String.eqb_eq.
  apply (below_by_cases (fun n => String.eqb (format_0d 3 n) (digits3 n)) 1000);
    [vm_compute; reflexivity | lia].
Qed.

Lemma digit_char_digit (k : Z) :
  0 <= k < 10 -> is_digit (digit_char k) = true /\ digit_value (digit_char k) = k.
Proof.
  intros Hk.
  assert (H : is_digit (digit_char k) && (digit_value (digit_char k) =? k) = true).
  { apply (below_by_cases
             (fun k => is_digit (digit_char k) && (digit_value (digit_char k) =? k)) 10);
      [vm_compute; reflexivity | lia]. }
  apply andb_true_iff in H as [H1 H2]. apply Z.eqb_eq in H2. now split.
Qed.

Lemma read_digits_step (k : nat) (acc a : Z) (s : string) :
  0 <= a < 10 ->
  read_digits (S k) acc (String (digit_char a) s) = read_digits k (10 * acc + a) s.
Proof.
  intros Ha. destruct (digit_char_digit a Ha) as [Hd Hv].
  cbn [read_digits]. now rewrite Hd, Hv.
Qed.

Lemma string_app_cons (c : ascii) (a b : string) :
  String c a ++ b = String c (a ++ b).
Proof. reflexivity. Qed.

Lemma string_app_nil (b : string) : EmptyString ++ b = b.
Proof. reflexivity. Qed.

Lemma read_digits2 (n : Z) (rest : string) :
  0 <= n < 100 -> read_digits 2 0 (digits2 n ++ rest) = Some (n, rest).
Proof.
  intros Hn. unfold digits2. rewrite !string_app_cons, string_app_nil.
  rewrite !read_digits_step by (Z.div_mod_to_equations; lia).
  cbn [read_digits]. do 2 f_equal. Z.div_mod_to_equations; lia.
Qed.

Lemma read_digits3 (n : Z) (rest : string) :
  0 <= n < 1000 -> read_digits 3 0 (digits3 n ++ rest) = Some (n, rest).
Proof.
  intros Hn. unfold digits3, digits2. rewrite !string_app_cons, string_app_nil.
  rewrite !read_digits_step by (Z.div_mod_to_equations; lia).
  cbn [read_digits]. do 2 f_equal. Z.div_mod_to_equations; lia.
Qed.

Lemma string_app_assoc (a b c : string) : (a ++ b) ++ c = a ++ b ++ c.
Proof.
  induction a as [| x a IH]; [reflexivity |].
  rewrite !string_app_cons. now rewrite IH.
Qed.

Lemma string_app_length (a b : string) :
  String.length (a ++ b) = (String.length a + String.length b)%nat.
Proof.
  induction a as [| x a IH]; [reflexivity |].
  rewrite string_app_cons. cbn [String.length]. now rewrite IH.
Qed.

Lemma expect_app (prefix rest : string) : expect prefix (prefix ++ rest) = Some rest.
Proof.
  induction prefix as [| c prefix IH]; [reflexivity |].
  rewrite string_app_cons. cbn [expect]. now rewrite Ascii.eqb_refl.
Qed.

Lemma read_timestamp_srt (ms : Z) (rest : string) :
  0 <= ms < 360000000 ->
  read_timestamp (srt_timestamp ms ++ rest) = Some (ms, rest).
Proof.
  intros Hms. unfold read_timestamp, srt_timestamp.
  rewrite !string_app_assoc.
  rewrite read_digits2 by (Z.div_mod_to_equations; lia). cbn [mbind option_bind].
  rewrite expect_app. cbn [mbind option_bind].
  rewrite read_digits2 by (Z.div_mod_to_equations; lia). cbn [mbind option_bind].
  rewrite expect_app. cbn [mbind option_bind].
  rewrite read_digits2 by (Z.div_mod_to_equations; lia). cbn [mbind option_bind].
  rewrite expect_app. cbn [mbind option_bind].
  rewrite read_digits3 by (Z.div_mod_to_equations; lia). cbn [mbind option_bind].
  replace (ms / 60000 mod 60 <? 60) with true
    by (symmetry; apply Z.ltb_lt; Z.div_mod_to_equations; lia).
  replace (ms / 1000 mod 60 <? 60) with true
    by (symmetry; apply Z.ltb_lt; Z.div_mod_to_equations; lia).
  cbn [andb]. do 2 f_equal. Z.div_mod_to_equations. lia.
Qed.

(** A double below a hundred hours is written as the timestamp of the
    milliseconds it shows. *)
Lemma format_time_srt_written (t : Q) :
  double t -> (t < 360000)%Q ->
  format_time_srt t = srt_timestamp (written_milliseconds t).
Proof.
  intros Hd Hlt. pose proof (double_nonneg t Hd) as H0.
  assert (H53 : (t < inject_Z (2 ^ 53))%Q).
  { eapply Qlt_trans; [exact Hlt | reflexivity]. }
  destruct (srt_fields t H0 H53) as (Eh & Em & Es & Ef).
  destruct (milliseconds_field t Hd) as [Hm _].
  unfold format_time_srt, srt_timestamp, written_milliseconds.
  assert (Ex : (float_mod t 1 * 1000 == (t - inject_Z (Qfloor t)) * 1000)%Q)
    by (rewrite Ef; reflexivity).
  rewrite Eh, Em, Es, (fl_comp _ _ Ex).
  set (m := int (fl ((t - inject_Z (Qfloor t)) * 1000))) in *.
  pose proof (floor_ge t 0 H0) as Hf0.
  assert (Hf1 : Qfloor t < 360000).
  { destruct (floor_bounds t) as [Hl _]. rewrite Zlt_Qlt.
    change (inject_Z 360000) with 360000%Q. lra. }
  set (f := Qfloor t) in *.
  rewrite !format_0d_2, format_0d_3 by (Z.div_mod_to_equations; lia).
  replace ((1000 * f + m) / 3600000) with (f / 3600) by (Z.div_mod_to_equations; lia).
  replace ((1000 * f + m) / 60000 mod 60) with (f mod 3600 / 60)
    by (Z.div_mod_to_equations; lia).
  replace ((1000 * f + m) / 1000 mod 60) with (f mod 60)
    by (Z.div_mod_to_equations; lia).
  replace ((1000 * f + m) mod 1000) with m by (Z.div_mod_to_equations; lia).
  reflexivity.
Qed.

(** *** Indices *)

Lemma span_digits_uint (d : Decimal.uint) (rest : string) :
  starts_without_digit rest = true ->
  span_digits (NilEmpty.string_of_uint d ++ rest)
  = (NilEmpty.string_of_uint d, rest).
Proof.
  intros Hrest.
  induction d as [| d IH | d IH | d IH | d IH | d IH | d IH | d IH | d IH | d IH | d IH];
    cbn [NilEmpty.string_of_uint];
    try (rewrite string_app_cons; cbn [span_digits];
         match goal with
         | |- context [is_digit ?c] => change (is_digit c) with true
         end;
         cbv iota; now rewrite IH).
  rewrite string_app_nil. destruct rest as [| c rest]; [reflexivity |].
  cbn [span_digits]. cbn [starts_without_digit] in Hrest.
  apply negb_true_iff in Hrest. now rewrite Hrest.
Qed.

Lemma N_to_uint_nonnil (n : N) : N.to_uint n <> Decimal.Nil.
Proof.
  destruct n as [| p]; [discriminate |]. apply DecimalPos.Unsigned.to_uint_nonnil.
Qed.

Lemma str_of_N_digits (n : N) :
  str_of_N n = NilEmpty.string_of_uint (N.to_uint n).
Proof.
  unfold str_of_N, NilZero.string_of_uint.
  pose proof (N_to_uint_nonnil n) as H. now destruct (N.to_uint n).
Qed.

Lemma str_of_N_nonempty (n : N) : str_of_N n <> EmptyString.
Proof.
  unfold str_of_N, NilZero.string_of_uint.
  destruct (N.to_uint n); discriminate.
Qed.

Lemma read_index_str (i : Z) (rest : string) :
  0 <= i -> starts_without_digit rest = true ->
  read_index (str_of_Z i ++ rest) = Some (i, rest).
Proof.
  intros Hi Hrest. unfold read_index, str_of_Z.
  replace (i <? 0) with false by (symmetry; apply Z.ltb_ge; lia).
  rewrite str_of_N_digits, span_digits_uint by exact Hrest.
  rewrite <- str_of_N_digits. unfold str_of_N.
  rewrite NilZero.usu by apply N_to_uint_nonnil.
  cbn [mbind option_bind]. rewrite DecimalN.Unsigned.of_to.
  rewrite N2Z.inj_abs_N, Z.abs_eq by lia. reflexivity.
Qed.

(** *** Cue texts *)

Lemma read_text_cue (t rest : string) :
  no_blank_line t = true -> ends_without_newline t ->
  read_text (t ++ newline ++ newline ++ rest) = Some (t, rest).
Proof.
  unfold ends_without_newline.
  induction t as [| c t IH]; intros Hblank Hlast.
  - reflexivity.
  - cbn [no_blank_line] in Hblank. apply andb_true_iff in Hblank as [Hpair Hblank].
    assert (IH' : read_text (t ++ newline ++ newline ++ rest) = Some (t, rest)).
    { apply IH; [exact Hblank |]. intros c' Hc'. apply Hlast.
      cbn [last_char]. destruct t; [discriminate | exact Hc']. }
    rewrite string_app_cons. cbn [read_text]. fold (is_newline c).
    destruct (is_newline c) eqn:Hc.
    + destruct t as [| c' t].
      * specialize (Hlast c eq_refl). congruence.
      * rewrite string_app_cons in *. fold (is_newline c').
        cbn [andb] in Hpair. apply negb_true_iff in Hpair. rewrite Hpair.
        rewrite IH'. reflexivity.
    + rewrite IH'. reflexivity.
Qed.

Lemma rstrip_last (s : string) (c : ascii) :
  last_char (rstrip s) = Some c -> isspace c = false.
Proof.
  induction s as [| a s IH]; [discriminate |].
  cbn [rstrip]. destruct (rstrip s) as [| b r] eqn:Hr.
  - destruct (isspace a) eqn:Ha; [discriminate |].
    cbn. intros [= <-]. exact Ha.
  - cbn [last_char]. exact IH.
Qed.

Lemma strip_ends_without_newline (s : string) : ends_without_newline (strip s).
Proof.
  intros c Hc. apply rstrip_last in Hc.
  destruct (is_newline c) eqn:Hn; [| reflexivity].
  apply Ascii.eqb_eq in Hn. subst c. discriminate Hc.
Qed.

(** *** Blocks *)

Lemma within_hundred_hours_range (x : Q) :
  within_hundred_hours x = true -> double x /\ (x < 360000)%Q.
Proof.
  unfold within_hundred_hours. intros H. apply andb_true_iff in H as [H0 H1].
  apply is_double_double in H0. apply Qltb_lt in H1. now split.
Qed.

Lemma exportable_readable (s : Segment) :
  exportable s = true -> readable (cue_of s).
Proof.
  unfold exportable, cue_of, readable.
  destruct (seg_start s) as [a |]; [| discriminate].
  destruct (seg_end s) as [b |]; [| discriminate].
  destruct (seg_text s) as [t |]; [| discriminate].
  intros H. apply andb_true_iff in H as [H Ht]. apply andb_true_iff in H as [Ha Hb].
  apply within_hundred_hours_range in Ha as [Ha0 Ha1], Hb as [Hb0 Hb1].
  cbn [get].
  destruct (written_milliseconds_range a Ha0 Ha1) as [Ha _].
  destruct (written_milliseconds_range b Hb0 Hb1) as [Hb _].
  repeat split; try lia.
  - exact Ht.
  - apply strip_ends_without_newline.
Qed.

(** The loop of [generate_srt] appends one block per segment. *)
Lemma generate_srt_loop_blocks (segs : list Segment) (i : Z) (acc : string) :
  forallb exportable segs = true ->
  generate_srt_loop i segs acc = Ok (acc ++ srt_blocks i (map cue_of segs)).
Proof.
  revert i acc. induction segs as [| s segs IH]; intros i acc H.
  - cbn. f_equal. clear. induction acc as [| c acc IHa]; [reflexivity |].
    rewrite string_app_cons. now rewrite <- IHa.
  - cbn [forallb] in H. apply andb_true_iff in H as [Hs Hsegs].
    cbn [generate_srt_loop map srt_blocks]. unfold cue_of at 1, srt_block.
    unfold exportable in Hs.
    destruct (seg_start s) as [a |]; [| discriminate].
    destruct (seg_end s) as [b |]; [| discriminate].
    destruct (seg_text s) as [t |]; [| discriminate].
    apply andb_true_iff in Hs as [Hs _]. apply andb_true_iff in Hs as [Ha Hb].
    apply within_hundred_hours_range in Ha as [Ha0 Ha1], Hb as [Hb0 Hb1].
    cbn [getitem fmap result_fmap mbind result_bind get].
    rewrite IH by exact Hsegs.
    rewrite !format_time_srt_written by assumption.
    f_equal. now rewrite !string_app_assoc.
Qed.

Lemma srt_block_length (i : Z) (cue : Cue) :
  (1 <= String.length (srt_block i cue))%nat.
Proof.
  destruct cue as [[a b] t]. unfold srt_block.
  rewrite string_app_length, (string_app_length newline). cbn [newline String.length]. lia.
Qed.

Lemma srt_blocks_length (i : Z) (cues : list Cue) :
  (length cues <= String.length (srt_blocks i cues))%nat.
Proof.
  revert i. induction cues as [| cue cues IH]; intros i; [cbn; lia |].
  cbn [srt_blocks length]. rewrite string_app_length.
  pose proof (srt_block_length i cue). specialize (IH (i + 1)). lia.
Qed.

Lemma parse_blocks_step (fuel : nat) (i : Z) (s : string) :
  s <> EmptyString ->
  parse_blocks (S fuel) i s
  = ('(n, s) ← read_index s;
     if negb (n =? i) then None else
     s ← expect newline s;
     '(start, s) ← read_timestamp s;
     s ← expect " --> " s;
     '(end_, s) ← read_timestamp s;
     s ← expect newline s;
     '(t, s) ← read_text s;
     cues ← parse_blocks fuel (i + 1) s;
     Some ((start, end_, t) :: cues)).
Proof. intros H. destruct s; [contradiction | reflexivity]. Qed.

(** Enough fuel reads every block back. *)
Lemma parse_blocks_srt (cues : list Cue) (i : Z) (fuel : nat) :
  0 <= i -> (length cues <= fuel)%nat -> Forall readable cues ->
  parse_blocks fuel i (srt_blocks i cues) = Some cues.
Proof.
  revert i fuel. induction cues as [| cue cues IH]; intros i fuel Hi Hfuel Hall.
  - destruct fuel; reflexivity.
  - destruct fuel as [| fuel]; [cbn in Hfuel; lia |].
    inversion Hall as [| ? ? Hcue Hrest]; subst.
    destruct cue as [[a b] t]. destruct Hcue as (Ha & Hb & Hblank & Hlast).
    cbn [srt_blocks]. rewrite parse_blocks_step.
    2:{ intros E. apply (f_equal String.length) in E.
        rewrite string_app_length in E.
        pose proof (srt_block_length i (a, b, t)). cbn [String.length] in E. lia. }
    unfold srt_block. rewrite !string_app_assoc.
    rewrite read_index_str by (exact Hi || reflexivity).
    cbn [mbind option_bind]. rewrite Z.eqb_refl. cbn [negb].
    rewrite expect_app. cbn [mbind option_bind].
    rewrite read_timestamp_srt by exact Ha. cbn [mbind option_bind].
    rewrite expect_app. cbn [mbind option_bind].
    rewrite read_timestamp_srt by exact Hb. cbn [mbind option_bind].
    rewrite expect_app. cbn [mbind option_bind].
    rewrite read_text_cue by assumption. cbn [mbind option_bind].
    rewrite IH; [reflexivity | lia | cbn in Hfuel; lia | exact Hrest].
Qed.




(** The double nearest to 0.06 lies below 0.06, yet its timestamp shows 60
    milliseconds; the double nearest to 2.3 lies below 2.3 and its timestamp
    shows 299. *)
Example format_time_srt_rounds_the_product :
  format_time_srt (fl (6 # 100)) = "00:00:00,060"
  /\ Qfloor (fl (6 # 100) * 1000) = 59
  /\ format_time_srt (fl (23 # 10)) = "00:00:02,299".
Proof. vm_compute. repeat split. Qed.

(** Outside the range of the round trip: a time just below zero is written
    with fields of 60 seconds and 1000 milliseconds, because the remainders
    round up to the divisor. *)
Example format_time_srt_below_zero :
  format_time_srt (- fl (1 # 100000000000000000000)) = "-1:60:60,1000".
Proof. vm_compute. reflexivity. Qed.

(** * Further properties *)

(** ** Clock formats *)

Lemma Qfloor_negative (s : Q) : (s < 0)%Q -> Qfloor s < 0.
Proof.
  intros H. pose proof (Qfloor_le s) as Hf.
  assert (Hq : (inject_Z (Qfloor s) < inject_Z 0)%Q) by (change (inject_Z 0) with 0%Q; lra).
  now rewrite <- Zlt_Qlt in Hq.
Qed.

Lemma Qfloor_nonneg (s : Q) : (0 <= s)%Q -> 0 <= Qfloor s.
Proof.
  intros H. change 0 with (Qfloor 0). now apply Qfloor_resp_le.
Qed.

(** X1: [format_time] only looks at the whole seconds of its argument, and
    takes every negative time for zero. *)
Theorem format_time_whole_seconds (s : Q) :
  format_time s = format_time (inject_Z (Z.max 0 (Qfloor s))).
Proof.
  unfold format_time.
  destruct (Qltb s 0) eqn:Hs.
  - apply Qltb_lt in Hs. apply Qfloor_negative in Hs.
    replace (Z.max 0 (Qfloor s)) with 0 by lia. reflexivity.
  - apply Qltb_ge in Hs. pose proof (Qfloor_nonneg s Hs) as Hf.
    replace (Z.max 0 (Qfloor s)) with (Qfloor s) by lia.
    replace (Qltb (inject_Z (Qfloor s)) 0) with false.
    2:{ symmetry. apply Qltb_ge. change 0%Q with (inject_Z 0).
        now rewrite <- Zle_Qle. }
    now rewrite int_inject_Z, int_nonneg.
Qed.

Lemma read_hms_hms (n : Z) : 0 <= n < 360000 -> read_hms (hms n) = Some n.
Proof.
  intros Hn. unfold read_hms, hms.
  rewrite read_digits2 by (Z.div_mod_to_equations; lia). cbn [mbind option_bind].
  rewrite expect_app. cbn [mbind option_bind].
  rewrite read_digits2 by (Z.div_mod_to_equations; lia). cbn [mbind option_bind].
  rewrite expect_app. cbn [mbind option_bind].
  rewrite <- (string_app_nil (digits2 (n mod 60))) at 1.
  replace (digits2 (n mod 60)) with (digits2 (n mod 60) ++ EmptyString) at 1.
  2:{ unfold digits2. now rewrite !string_app_cons, string_app_nil. }
  rewrite string_app_nil.
  rewrite read_digits2 by (Z.div_mod_to_equations; lia). cbn [mbind option_bind].
  replace (n / 60 mod 60 <? 60) with true
    by (symmetry; apply Z.ltb_lt; Z.div_mod_to_equations; lia).
  replace (n mod 60 <? 60) with true
    by (symmetry; apply Z.ltb_lt; Z.div_mod_to_equations; lia).
  cbn. f_equal. Z.div_mod_to_equations. lia.
Qed.

Lemma format_time_hms (s : Q) :
  (0 <= s)%Q -> (s < 360000)%Q -> format_time s = hms (Qfloor s).
Proof.
  intros H0 H1.
  assert (HF : 0 <= Qfloor s < 360000).
  { split; [now apply Qfloor_nonneg |].
    pose proof (Qfloor_le s) as Hf.
    assert (Hq : (inject_Z (Qfloor s) < inject_Z 360000)%Q)
      by (change (inject_Z 360000) with 360000%Q; lra).
    now rewrite <- Zlt_Qlt in Hq. }
  unfold format_time, hms. apply Qltb_ge in H0 as Hb. rewrite Hb.
  rewrite int_nonneg by exact H0.
  set (n := Qfloor s) in *.
  replace (n mod 3600 / 60) with (n / 60 mod 60) by (Z.div_mod_to_equations; lia).
  replace ((n mod 3600) mod 60) with (n mod 60) by (Z.div_mod_to_equations; lia).
  now rewrite !format_0d_2 by (Z.div_mod_to_equations; lia).
Qed.

(** X2: below a hundred hours [format_time] writes [HH:MM:SS] for the
    whole seconds of its argument, and reading that text back returns
    them. *)
Theorem format_time_roundtrip (s : Q) :
  (0 <= s)%Q -> (s < 360000)%Q ->
  format_time s = hms (Qfloor s) /\ read_hms (format_time s) = Some (Qfloor s).
Proof.
  intros H0 H1.
  assert (HF : 0 <= Qfloor s < 360000).
  { split; [now apply Qfloor_nonneg |].
    pose proof (Qfloor_le s) as Hf.
    assert (Hq : (inject_Z (Qfloor s) < inject_Z 360000)%Q)
      by (change (inject_Z 360000) with 360000%Q; lra).
    now rewrite <- Zlt_Qlt in Hq. }
  assert (E : format_time s = hms (Qfloor s)) by now apply format_time_hms.
  split; [exact E |]. rewrite E. now apply read_hms_hms.
Qed.

Lemma format_time_roundtrip_witness :
  format_time (36615 # 10) = "01:01:01"
  /\ read_hms (format_time (36615 # 10)) = Some 3661.
Proof.
  destruct (format_time_roundtrip (36615 # 10)) as [H1 H2];
    [vm_compute; discriminate | reflexivity |].
  split; [exact H1 | exact H2].
Defined.

(** X3: for a double from zero to below 2^53 seconds, the hours, minutes
    and seconds of [format_time_srt] are those of the whole seconds of the
    time, minutes and seconds within 0..59, and the last field is a number
    from 0 to 999: the milliseconds behind the point cut off, or one more
    when the product [(seconds % 1) * 1000] rounds up to a whole number. *)
Theorem format_time_srt_fields (s : Q) :
  is_double s = true -> (s < inject_Z (2 ^ 53))%Q ->
  let f := Qfloor s in
  let m := int (fl ((s - inject_Z f) * 1000)) in
  format_time_srt s
  = format_0d 2 (f / 3600) ++ ":" ++ format_0d 2 (f / 60 mod 60) ++ ":"
      ++ format_0d 2 (f mod 60) ++ "," ++ format_0d 3 m
  /\ 0 <= f / 60 mod 60 < 60 /\ 0 <= f mod 60 < 60 /\ 0 <= m <= 999
  /\ Qfloor (s * 1000) mod 1000 <= m <= Qfloor (s * 1000) mod 1000 + 1.
Proof.
  intros Hd H53 f m. apply is_double_double in Hd.
  pose proof (double_nonneg s Hd) as H0.
  destruct (srt_fields s H0 H53) as (Eh & Em & Es & Ef).
  destruct (milliseconds_field s Hd) as [Hm Hn]. fold f m in Hm, Hn.
  split; [| split; [| split; [| split]]].
  - unfold format_time_srt.
    assert (Ex : (float_mod s 1 * 1000 == (s - inject_Z (Qfloor s)) * 1000)%Q)
      by (rewrite Ef; reflexivity).
    rewrite Eh, Em, Es, (fl_comp _ _ Ex). fold f m.
    replace (f mod 3600 / 60) with (f / 60 mod 60) by (Z.div_mod_to_equations; lia).
    reflexivity.
  - Z.div_mod_to_equations; lia.
  - Z.div_mod_to_equations; lia.
  - exact Hm.
  - unfold f in Hn. rewrite (Qfloor_seconds s) in Hn.
    rewrite (Z.mod_eq (Qfloor (s * 1000)) 1000) by lia. lia.
Qed.

Lemma format_time_srt_fields_witness :
  format_time_srt (fl (6 # 100)) = "00:00:00,060".
Proof.
  destruct (format_time_srt_fields (fl (6 # 100))) as [H _];
    [vm_compute; reflexivity | reflexivity |].
  rewrite H. vm_compute. reflexivity.
Defined.

(** X4: for a double from zero to below 2^53 seconds, [format_time_srt]
    writes what [format_time] writes, then a comma and a number from 0 to
    999 in three digits. *)
Theorem format_time_srt_extends_format_time (s : Q) :
  is_double s = true -> (s < inject_Z (2 ^ 53))%Q ->
  exists m,
    0 <= m <= 999
    /\ format_time_srt s = format_time s ++ "," ++ format_0d 3 m.
Proof.
  intros Hd H53. apply is_double_double in Hd.
  pose proof (double_nonneg s Hd) as H0.
  destruct (srt_fields s H0 H53) as (Eh & Em & Es & Ef).
  destruct (milliseconds_field s Hd) as [Hm _].
  exists (int (fl ((s - inject_Z (Qfloor s)) * 1000))). split; [exact Hm |].
  unfold format_time_srt, format_time.
  apply Qltb_ge in H0 as Hb. rewrite Hb.
  assert (Ex : (float_mod s 1 * 1000 == (s - inject_Z (Qfloor s)) * 1000)%Q)
    by (rewrite Ef; reflexivity).
  rewrite Eh, Em, Es, (fl_comp _ _ Ex).
  rewrite (int_nonneg s) by exact H0.
  rewrite !string_app_assoc.
  replace ((Qfloor s mod 3600) mod 60) with (Qfloor s mod 60)
    by (Z.div_mod_to_equations; lia).
  reflexivity.
Qed.

Lemma format_time_srt_extends_format_time_witness :
  exists m, format_time_srt (36615 # 10) = format_time (36615 # 10) ++ "," ++ format_0d 3 m.
Proof.
  destruct (format_time_srt_extends_format_time (36615 # 10)) as (m & _ & H);
    [vm_compute; reflexivity | reflexivity |].
  exists m. exact H.
Defined.

(** Beyond 2^53 seconds the two formats part: [format_time_srt] divides in
    double precision, [format_time] the whole number. *)
Example format_time_srt_large :
  format_time_srt (fl 100000000000000000000) = "27777777777777776:46:40,000"
  /\ format_time (fl 100000000000000000000) = "27777777777777777:46:40".
Proof. vm_compute. split; reflexivity. Qed.

(** ** Option validation *)

Lemma clamp_unit_range (x : Q) : (0 <= clamp_unit x <= 1)%Q.
Proof.
  unfold clamp_unit, Qmaxb, Qminb.
  destruct (Qltb x 1) eqn:E1.
  - destruct (Qltb 0 x) eqn:E2.
    + apply Qltb_lt in E1, E2. lra.
    + lra.
  - change (Qltb 0 1) with true. cbv iota. lra.
Qed.

Lemma clamp_unit_idempotent (x : Q) : clamp_unit (clamp_unit x) = clamp_unit x.
Proof.
  unfold clamp_unit, Qmaxb, Qminb.
  destruct (Qltb x 1) eqn:E1.
  - destruct (Qltb 0 x) eqn:E2.
    + now rewrite E1, E2.
    + reflexivity.
  - reflexivity.
Qed.

(** X5: whatever the caller passes, the validated options carry all four
    keys, a temperature and a threshold in [0, 1], a beam size in 1..10 and
    one of the three preset names; validating them again changes nothing. *)
Theorem validate_advanced_options_normalises (o : AdvancedOptions) :
  (exists t b c p,
      validate_advanced_options o
      = {| opt_quality_preset := Some p; opt_temperature := Some t;
           opt_beam_size := Some b; opt_confidence_threshold := Some c |}
      /\ (0 <= t <= 1)%Q /\ 1 <= b <= 10 /\ (0 <= c <= 1)%Q
      /\ In p known_presets)
  /\ validate_advanced_options (validate_advanced_options o)
     = validate_advanced_options o.
Proof.
  split.
  - do 4 eexists. split; [reflexivity |].
    repeat split; try apply clamp_unit_range; try lia.
    cbn [str_in existsb known_presets In].
    destruct (String.eqb_spec (get (opt_quality_preset o) "balanced") "fast") as [-> | _];
      [cbn; tauto |].
    destruct (String.eqb_spec (get (opt_quality_preset o) "balanced") "balanced") as [-> | _];
      [cbn; tauto |].
    destruct (String.eqb_spec (get (opt_quality_preset o) "balanced") "high_quality")
      as [-> | _]; cbn; tauto.
  - unfold validate_advanced_options at 1. cbn [get].
    unfold validate_advanced_options.
    cbn [opt_temperature opt_beam_size opt_confidence_threshold opt_quality_preset get].
    fold (clamp_unit (get (opt_temperature o) 0%Q)).
    fold (clamp_unit (get (opt_confidence_threshold o) (5 # 10))).
    fold (clamp_unit (clamp_unit (get (opt_temperature o) 0%Q))).
    fold (clamp_unit (clamp_unit (get (opt_confidence_threshold o) (5 # 10)))).
    rewrite !clamp_unit_idempotent.
    replace (Z.max 1 (Z.min 10 (Z.max 1 (Z.min 10 (get (opt_beam_size o) 3)))))
      with (Z.max 1 (Z.min 10 (get (opt_beam_size o) 3))) by lia.
    f_equal. set (q := get (opt_quality_preset o) "balanced").
    cbn [str_in existsb].
    destruct (String.eqb_spec q "fast") as [-> | ?]; [reflexivity |].
    destruct (String.eqb_spec q "balanced") as [-> | ?]; [reflexivity |].
    destruct (String.eqb_spec q "high_quality") as [-> | ?]; reflexivity.
Qed.

(** X6: a caller who validates options that carry no confidence
    threshold gets the threshold one half, so the enrichment filters the
    segments at one half; with the same options unvalidated it does not
    filter. *)
Theorem validation_turns_filtering_on (float_sum : list Q -> Q)
    (raw : RawTranscript) (segs : list Segment)
    (pt : Q) (o : AdvancedOptions) (r r' : Transcript) :
  raw_segments raw = Some segs ->
  opt_confidence_threshold o = None ->
  enhance_transcription_result float_sum raw pt o = Ok r ->
  enhance_transcription_result float_sum raw pt (validate_advanced_options o) = Ok r' ->
  segments r = Some segs /\ filtered_segments_count r = None
  /\ segments r'
     = Some (map (annotate float_sum) (List.filter (keeps float_sum (5 # 10)) segs))
  /\ filtered_segments_count r'
     = Some (length (List.filter (keeps float_sum (5 # 10)) segs)).
Proof.
  intros Hs Ho H H'.
  destruct (enhance_fields float_sum raw segs pt o r Hs H)
    as (? & ? & kept & _ & _ & Hkept & _ & _ & _ & _ & Hsegs & Hcount).
  destruct (enhance_fields float_sum raw segs pt _ r' Hs H')
    as (? & ? & kept' & _ & _ & Hkept' & _ & _ & _ & _ & Hsegs' & Hcount').
  unfold filter_if_requested in Hkept, Hkept'.
  rewrite Ho in Hkept. cbn in Hkept. injection Hkept as <-.
  cbn [validate_advanced_options opt_confidence_threshold get] in Hkept'.
  rewrite Ho in Hkept'. cbn [get] in Hkept'.
  change (Qgtb (Qmaxb 0 (Qminb 1 (5 # 10))) 0) with true in Hkept'.
  change (Qmaxb 0 (Qminb 1 (5 # 10))) with (5 # 10) in Hkept'.
  cbv iota in Hkept'. rewrite filter_segments_by_confidence_value in Hkept'.
  injection Hkept' as <-. cbn [fst snd] in *.
  rewrite Hsegs, Hcount, Hsegs', Hcount', length_map. now repeat split.
Qed.

Lemma validation_turns_filtering_on_witness :
  exists r r',
    enhance_transcription_result left_to_right_sum sample_raw (3 # 2) no_options = Ok r
    /\ enhance_transcription_result left_to_right_sum sample_raw (3 # 2)
         (validate_advanced_options no_options) = Ok r'
    /\ filtered_segments_count r = None
    /\ filtered_segments_count r' = Some 1%nat.
Proof.
  do 2 eexists. split; [vm_compute; reflexivity |].
  split; [vm_compute; reflexivity |].
  match goal with
  | |- filtered_segments_count ?r = _ /\ filtered_segments_count ?r' = _ =>
      destruct (validation_turns_filtering_on left_to_right_sum sample_raw _ (3 # 2)
                  no_options r r' eq_refl eq_refl
                  ltac:(vm_compute; reflexivity) ltac:(vm_compute; reflexivity))
        as (_ & H1 & _ & H2)
  end.
  vm_compute in H2. split; [exact H1 | exact H2].
Defined.

(** X7: after validation the beam size and the temperature handed to the
    model are the clamped values of the caller, or 3 and 0 when the caller
    gave none: the beam size of the chosen preset is never used. The
    other fields come from a known preset, and nothing is raised. *)
Theorem validated_options_override_preset
    (device_name task language : string) (o : AdvancedOptions) :
  exists io p,
    transcribe_options device_name task language (validate_advanced_options o)
      = Ok io
    /\ beam_size (io_preset io) = Z.max 1 (Z.min 10 (get (opt_beam_size o) 3))
    /\ temperature (io_preset io) = clamp_unit (get (opt_temperature o) 0%Q)
    /\ In p [preset_fast; preset_balanced; preset_high_quality]
    /\ best_of (io_preset io) = best_of p
    /\ compression_ratio_threshold (io_preset io) = compression_ratio_threshold p
    /\ logprob_threshold (io_preset io) = logprob_threshold p
    /\ no_speech_threshold (io_preset io) = no_speech_threshold p.
Proof.
  unfold transcribe_options, preset_config.
  rewrite balanced_preset_lookup.
  cbn [getitem mbind result_bind mret result_ret validate_advanced_options
       opt_quality_preset opt_temperature opt_beam_size get].
  set (q := get (opt_quality_preset o) "balanced").
  assert (Hp : exists p,
             In p [preset_fast; preset_balanced; preset_high_quality]
             /\ get (QUALITY_PRESETS
                       !! (if negb (str_in q ["fast"; "balanced"; "high_quality"])
                           then "balanced" else q))
                     preset_balanced = p).
  { cbn [str_in existsb].
    destruct (String.eqb_spec q "fast") as [-> | ?];
      [exists preset_fast; split; [cbn; tauto | reflexivity] |].
    destruct (String.eqb_spec q "balanced") as [-> | ?];
      [exists preset_balanced; split; [cbn; tauto | reflexivity] |].
    destruct (String.eqb_spec q "high_quality") as [-> | ?];
      [exists preset_high_quality; split; [cbn; tauto | reflexivity] |].
    exists preset_balanced. split; [cbn; tauto | reflexivity]. }
  destruct Hp as (p & Hin & ->).
  eexists. exists p. split; [reflexivity |].
  cbn [io_preset set_beam_size set_temperature beam_size temperature best_of
       compression_ratio_threshold logprob_threshold no_speech_threshold].
  now repeat split.
Qed.

(** ** File intake, continued *)

(** X8: the validator accepts nothing else than C9 describes: a file it
    declares valid is present and named, has 1 KB to 500 MB, a MIME type
    that is absent, empty or supported and an extension that is empty or
    supported; and its result then carries no error. *)
Theorem validate_audio_file_accepts_only
    (path_suffix lower : string -> string) (uploaded_file : option UploadedFile) :
  valid (validate_audio_file path_suffix lower uploaded_file) = true ->
  exists f,
    uploaded_file = Some f
    /\ file_name f <> EmptyString
    /\ 1024 <= file_size f <= 500 * 1024 * 1024
    /\ (forall mime, file_type f = Some mime -> mime <> EmptyString ->
                     supported_mime mime = true)
    /\ (lower (path_suffix (file_name f)) <> EmptyString ->
        str_in (lower (path_suffix (file_name f))) supported_extensions = true)
    /\ error (validate_audio_file path_suffix lower uploaded_file) = None.
Proof.
  unfold validate_audio_file, invalid.
  destruct uploaded_file as [f |]; [| discriminate].
  destruct (String.eqb_spec (file_name f) EmptyString) as [| Hname]; [discriminate |].
  destruct (Qltb _ _) eqn:Hmin; [discriminate |].
  destruct (Qgtb _ _) eqn:Hmax; [discriminate |].
  destruct (negb (get (file_type f) EmptyString =? EmptyString)%string
            && negb (supported_mime (get (file_type f) EmptyString))) eqn:Hmime;
    [discriminate |].
  set (ext := lower (path_suffix (file_name f))).
  destruct (negb (ext =? EmptyString)%string
            && negb (str_in ext supported_extensions)) eqn:Hext; [discriminate |].
  destruct (str_in ext suspicious_extensions); [discriminate |].
  intros _. subst ext. exists f. split; [reflexivity |]. split; [exact Hname |].
  apply size_at_least_minimum in Hmin. apply size_at_most_maximum in Hmax.
  split; [lia |]. split; [| split; [| reflexivity]].
  - intros mime Hty Hne. rewrite Hty in Hmime. cbn [get] in Hmime.
    apply String.eqb_neq in Hne. rewrite Hne in Hmime. cbn [negb andb] in Hmime.
    now apply negb_false_iff in Hmime.
  - intros Hne. apply String.eqb_neq in Hne. rewrite Hne in Hext.
    cbn [negb andb] in Hext. now apply negb_false_iff in Hext.
Qed.

Lemma validate_audio_file_accepts_only_witness :
  exists f,
    Some {| file_name := "Test.WAV"; file_size := 5 * 1024 * 1024;
            file_type := Some "audio/wav" |} = Some f
    /\ 1024 <= file_size f <= 500 * 1024 * 1024.
Proof.
  destruct (validate_audio_file_accepts_only posix_suffix str_lower
              (Some {| file_name := "Test.WAV"; file_size := 5 * 1024 * 1024;
                       file_type := Some "audio/wav" |}) eq_refl)
    as (f & Hf & _ & Hsize & _).
  exists f. split; [exact Hf | exact Hsize].
Defined.

Lemma assoc_supported (mime : string) :
  supported_mime mime = true ->
  exists e rest,
    assoc mime SUPPORTED_AUDIO_TYPES = Some (e :: rest)
    /\ str_in e supported_extensions = true.
Proof.
  unfold supported_mime. intros H. apply str_in_In in H. cbn in H.
  repeat (destruct H as [<- | H]; [do 2 eexists; split; reflexivity |]).
  contradiction.
Qed.

(** X9: for a supported MIME type the guessed extension is the first one
    listed for it, which is a supported extension, whatever the type
    registry of the platform says; and no guess is ever the empty string. *)
Theorem guess_extension_from_mime_supported
    (guess : option string -> result (option string)) (mime_type : option string) :
  (forall mime, mime_type = Some mime -> supported_mime mime = true ->
     exists e rest,
       assoc mime SUPPORTED_AUDIO_TYPES = Some (e :: rest)
       /\ guess_extension_from_mime guess mime_type = Ok e
       /\ str_in e supported_extensions = true)
  /\ (forall e, guess_extension_from_mime guess mime_type = Ok e ->
                e <> EmptyString).
Proof.
  split.
  - intros mime -> Hs. destruct (assoc_supported mime Hs) as (e & rest & Ha & He).
    exists e, rest. split; [exact Ha |].
    unfold guess_extension_from_mime. cbn [mbind option_bind].
    now rewrite Ha.
  - intros e. unfold guess_extension_from_mime.
    destruct (mime_type ≫= _) as [[| x l] |] eqn:Ha.
    + discriminate.
    + intros [= <-]. destruct mime_type as [mime |]; [| discriminate].
      cbn [mbind option_bind] in Ha. intros ->.
      assert (Hall : forallb (fun entry => negb (String.eqb (hd "x" (snd entry)) EmptyString))
                             SUPPORTED_AUDIO_TYPES = true) by reflexivity.
      clear -Ha Hall. induction SUPPORTED_AUDIO_TYPES as [| [k v] d IH]; [discriminate |].
      cbn [forallb] in Hall. apply andb_true_iff in Hall as [Hv Hd].
      cbn [assoc] in Ha. destruct (String.eqb mime k).
      * injection Ha as ->. discriminate Hv.
      * now apply IH.
    + destruct (guess mime_type) as [[x |] |]; cbn; try discriminate.
      * destruct (String.eqb_spec x EmptyString); intros [= <-]; [discriminate | assumption].
      * intros [= <-]. discriminate.
Qed.

Lemma guess_extension_from_mime_supported_witness :
  guess_extension_from_mime no_mimetypes (Some "video/mpeg") = Ok ".mpeg"
  /\ str_in ".mpeg" supported_extensions = true /\ ".mpeg" <> EmptyString.
Proof.
  destruct (guess_extension_from_mime_supported no_mimetypes (Some "video/mpeg"))
    as [H Hne].
  destruct (H "video/mpeg" eq_refl eq_refl) as (e & rest & Ha & He & Hin).
  injection Ha as <- _.
  split; [exact He |]. split; [exact Hin | exact (Hne _ He)].
Defined.

(** ** Displayed sizes and estimates *)

Lemma double_div_1024 (d : Q) : double d -> (1024 <= d)%Q -> double (d / 1024).
Proof.
  intros (m & e & Hm & He & Hd) Hge.
  assert (Hm' : (inject_Z m < pow2 53)%Q).
  { rewrite pow2_Z by lia. rewrite <- Zlt_Qlt. lia. }
  assert (Hm0 : (0 <= inject_Z m)%Q)
    by (change 0%Q with (inject_Z 0); rewrite <- Zle_Qle; lia).
  pose proof (pow2_pos e) as Hp.
  destruct (Z_le_gt_dec (-1064) e) as [Hle | Hgt].
  - exists m, (e - 10). split; [exact Hm |]. split; [lia |].
    rewrite Hd. replace (e - 10) with (e + -10) by lia. rewrite pow2_plus.
    change (pow2 (-10)) with (1 # 1024)%Q. field.
  - exfalso.
    assert (H1 : (pow2 (53 + e) <= pow2 0)%Q) by (apply pow2_le; lia).
    rewrite pow2_plus in H1. change (pow2 0) with 1%Q in H1.
    rewrite Hd in Hge. set (p := pow2 e) in *. set (q := pow2 53) in *. nra.
Qed.

Lemma file_size_loop_scales (todo : nat) (size : Q) (i : nat) :
  double size -> (1 <= size)%Q ->
  exists v j,
    file_size_loop todo size i = (v, j)
    /\ (i <= j <= i + todo)%nat
    /\ (v * inject_Z (1024 ^ Z.of_nat (j - i)) == size)%Q
    /\ (1 <= v)%Q
    /\ ((j < i + todo)%nat -> (v < 1024)%Q).
Proof.
  revert size i. induction todo as [| todo IH]; intros size i Hd Hsize.
  - exists size, i. cbn [file_size_loop]. rewrite Nat.sub_diag.
    split; [reflexivity |]. split; [lia |]. split; [| split; [exact Hsize |]].
    + change (inject_Z (1024 ^ Z.of_nat 0)) with 1%Q. ring.
    + intros Hi. lia.
  - cbn [file_size_loop]. destruct (Qgeb size 1024) eqn:Hge.
    + apply Qgeb_le in Hge.
      pose proof (double_div_1024 size Hd Hge) as Hdq.
      pose proof (fl_exact _ Hdq) as Efl.
      assert (Hq : (1 <= fl (size / 1024))%Q).
      { rewrite Efl. apply Qle_shift_div_l; lra. }
      destruct (IH (fl (size / 1024)) (S i) (double_comp _ _ (Qeq_sym _ _ Efl) Hdq) Hq)
        as (v & j & Hloop & Hj & Hv & H1 & Hlt).
      exists v, j. rewrite Hloop.
      split; [reflexivity |]. split; [lia |]. split; [| split; [exact H1 |]].
      * replace (j - i)%nat with (S (j - S i)) by lia.
        rewrite Nat2Z.inj_succ, Z.pow_succ_r by lia.
        rewrite inject_Z_mult. change (inject_Z 1024) with 1024%Q.
        transitivity (1024 * (v * inject_Z (1024 ^ Z.of_nat (j - S i))))%Q;
          [ring | rewrite Hv, Efl; field].
      * intros Hj'. apply Hlt. lia.
    + apply Qgeb_lt in Hge. exists size, i. rewrite Nat.sub_diag.
      split; [reflexivity |]. split; [lia |]. split; [| split; [exact Hsize |]].
      * change (inject_Z (1024 ^ Z.of_nat 0)) with 1%Q. ring.
      * intros _. exact Hge.
Qed.

(** X10: for a size of at least one byte, [format_file_size] shows the
    double nearest to the byte count, which up to 2^53 bytes is the byte
    count itself, divided by a power of 1024, together with the unit of that
    power; the number shown is at least 1 before its rounding to one
    decimal, and below 1024 unless the unit is GB, the last one. *)
Theorem format_file_size_scaling (size_bytes : Z) :
  1 <= size_bytes ->
  exists v i unit,
    format_file_size size_bytes = format_1f v ++ " " ++ unit
    /\ nth_error size_names i = Some unit
    /\ (v * inject_Z (1024 ^ Z.of_nat i) == fl (inject_Z size_bytes))%Q
    /\ (size_bytes <= 2 ^ 53 -> (fl (inject_Z size_bytes) == inject_Z size_bytes)%Q)
    /\ (1 <= v)%Q
    /\ (unit <> "GB" -> (v < 1024)%Q).
Proof.
  intros Hs.
  assert (H0 : (0 <= inject_Z size_bytes)%Q).
  { change 0%Q with (inject_Z 0). rewrite <- Zle_Qle. lia. }
  assert (Hq : (1 <= fl (inject_Z size_bytes))%Q).
  { apply fl_lower; [apply (double_Z 1); lia |].
    change 1%Q with (inject_Z 1). now rewrite <- Zle_Qle. }
  destruct (file_size_loop_scales 3 (fl (inject_Z size_bytes)) 0
              (fl_double _ H0) Hq)
    as (v & j & Hloop & Hj & Hv & H1 & Hlt).
  rewrite Nat.sub_0_r in Hv.
  unfold format_file_size. replace (size_bytes =? 0) with false by (symmetry; lia).
  change (length size_names - 1)%nat with 3%nat. rewrite Hloop.
  exists v, j, (nth j size_names EmptyString).
  split; [reflexivity |].
  split; [| split; [exact Hv | split; [| split; [exact H1 |]]]].
  - assert (Hcases : j = 0%nat \/ j = 1%nat \/ j = 2%nat \/ j = 3%nat) by lia.
    destruct Hcases as [-> | [-> | [-> | ->]]]; reflexivity.
  - intros Hle. apply fl_exact.
    destruct (Z.eq_dec size_bytes (2 ^ 53)) as [-> | Hne];
      [| apply double_Z; lia].
    exists (2 ^ 52), 1. split; [lia |]. split; [lia |]. reflexivity.
  - intros Hunit. apply Hlt.
    assert (Hcases : j = 0%nat \/ j = 1%nat \/ j = 2%nat \/ j = 3%nat) by lia.
    destruct Hcases as [-> | [-> | [-> | ->]]]; try lia. now contradiction Hunit.
Qed.

Lemma format_file_size_scaling_witness :
  exists v unit,
    format_file_size (1024 * 1024 - 1) = format_1f v ++ " " ++ unit
    /\ (unit <> "GB" -> (v < 1024)%Q).
Proof.
  destruct (format_file_size_scaling (1024 * 1024 - 1))
    as (v & i & unit & H & _ & _ & _ & _ & Hlt); [lia |].
  exists v, unit. split; [exact H | exact Hlt].
Defined.

(** Above 2^53 bytes the count is rounded before it is scaled. *)
Example format_file_size_rounds_the_count :
  format_file_size 18014398777917441 = "16777216.2 GB".
Proof. vm_compute. reflexivity. Qed.

Lemma assoc_forall {A} (P : A -> Prop) (d : list (string * A)) (key : string) (v : A) :
  List.Forall (fun entry => P (snd entry)) d -> assoc key d = Some v -> P v.
Proof.
  induction 1 as [| [k x] d Hx _ IH]; [discriminate |].
  cbn [assoc]. destruct (String.eqb key k); [intros [= <-]; exact Hx | exact IH].
Qed.

Lemma estimated_minutes_double (size : Q) (model_size device_type : string) :
  (0 <= size)%Q ->
  (5 # 10 <= estimated_minutes size model_size device_type)%Q
  /\ double (estimated_minutes size model_size device_type).
Proof.
  intros Hs. unfold estimated_minutes.
  assert (Hf : (0 <= get (assoc model_size model_factors) (fl (25 # 100)))%Q).
  { destruct (assoc model_size model_factors) as [f |] eqn:E;
      [| cbn [get]; apply fl_nonneg; lra].
    apply (assoc_forall (fun f => (0 <= f)%Q) model_factors model_size f);
      [repeat (constructor; [cbn [snd]; apply fl_nonneg; lra |]); constructor | exact E]. }
  assert (Hm : (0 <= get (assoc device_type device_multipliers) 4)%Q).
  { destruct (assoc device_type device_multipliers) as [f |] eqn:E; [| cbn; lra].
    apply (assoc_forall (fun f => (0 <= f)%Q) device_multipliers device_type f);
      [repeat (constructor; [cbn; lra |]); constructor | exact E]. }
  set (f := get (assoc model_size model_factors) (fl (25 # 100))) in *.
  set (m := get (assoc device_type device_multipliers) 4%Q) in *.
  assert (H1 : (0 <= fl (size * f))%Q) by (apply fl_nonneg; nra).
  assert (H2 : (0 <= fl (fl (size * f) * m))%Q) by (apply fl_nonneg; nra).
  split.
  - apply fl_lower; [| lra]. exists 1, (-1). split; [lia |]. split; [lia | reflexivity].
  - apply fl_double. lra.
Qed.

(** The quotient and the remainder of the floor division of a float by 60,
    without a bound on the float. *)
Lemma float_divmod_60 (x : Q) :
  (0 <= x)%Q ->
  (0 <= float_mod x 60)%Q /\ (float_mod x 60 < 60)%Q
  /\ ((60 <= x)%Q -> (1 <= float_floordiv x 60)%Q).
Proof.
  intros H0.
  assert (Hq0 : (0 <= x / 60)%Q) by (apply Qle_shift_div_l; lra).
  pose proof (int_nonneg _ Hq0) as Hk.
  destruct (remainder_range x 60) as [Hr0 Hr1].
  change (inject_Z (Z.pos 60)) with 60%Q in *.
  set (r := (x - 60 * inject_Z (Qfloor (x / 60)))%Q) in *.
  assert (Efmod : fmod x 60 = r) by (unfold fmod; now rewrite Hk).
  assert (HbW : Qltb 60 0 = false) by reflexivity.
  assert (Hbr : Qltb r 0 = false) by (apply Qltb_ge; exact Hr0).
  assert (Hone : double 1) by (apply (double_Z 1); lia).
  unfold float_floordiv, float_mod, float_divmod. rewrite Efmod.
  set (div := fl (fl (x - r) / 60)).
  assert (Hdiv : (60 <= x)%Q -> (1 <= div)%Q).
  { intros Hx. unfold div.
    assert (Hk1 : 1 <= Qfloor (x / 60)).
    { apply floor_ge. change (inject_Z 1) with 1%Q. apply Qle_shift_div_l; lra. }
    rewrite Zle_Qle in Hk1. change (inject_Z 1) with 1%Q in Hk1.
    assert (H60 : (60 <= fl (x - r))%Q).
    { apply fl_lower; [apply (double_Z 60); lia |]. unfold r. lra. }
    apply fl_lower; [exact Hone |]. apply Qle_shift_div_l; lra. }
  assert (Hfd : (60 <= x)%Q ->
                (1 <= (if Qeq_bool div 0 then 0%Q
                       else
                         let f := inject_Z (Qfloor div) in
                         if Qltb (1 # 2) (fl (div - f)) then fl (f + 1) else f))%Q).
  { intros Hx. specialize (Hdiv Hx).
    destruct (Qeq_bool div 0) eqn:Ed; [apply Qeq_bool_iff in Ed; lra |].
    cbv zeta. pose proof (floor_ge div 1 Hdiv) as Hf.
    rewrite Zle_Qle in Hf. change (inject_Z 1) with 1%Q in Hf.
    destruct (Qltb (1 # 2) (fl (div - inject_Z (Qfloor div)))); [| exact Hf].
    apply fl_lower; [exact Hone | lra]. }
  destruct (Qeq_bool r 0) eqn:Er.
  - cbv beta iota zeta. cbn [fst snd]. split; [lra |]. split; [lra | exact Hfd].
  - rewrite HbW, Hbr. cbn [xorb]. cbv beta iota zeta. cbn [fst snd].
    split; [exact Hr0 |]. split; [exact Hr1 | exact Hfd].
Qed.

(** X11: for a file size that is not negative the estimate is at least
    half a minute. An estimate below one minute is shown in whole seconds,
    between 30 and 59; an estimate of an hour or more is shown as at least
    one hour and two-digit minutes from 00 to 59. *)
Theorem estimate_processing_time_shape (size : Q) (model_size device_type : string) :
  (0 <= size)%Q ->
  let em := estimated_minutes size model_size device_type in
  (1 # 2 <= em)%Q
  /\ ((em < 1)%Q ->
      exists n,
        estimate_processing_time size model_size device_type
        = "~" ++ str_of_Z n ++ "s"
        /\ 30 <= n <= 59)
  /\ ((60 <= em)%Q ->
      exists h m,
        estimate_processing_time size model_size device_type
        = "~" ++ str_of_Z h ++ "h" ++ format_0d 2 m ++ "min"
        /\ 1 <= h /\ 0 <= m <= 59).
Proof.
  intros Hs em.
  destruct (estimated_minutes_double size model_size device_type Hs) as [Hem Hd].
  fold em in Hem, Hd. unfold estimate_processing_time. fold em.
  split; [lra |]. split.
  - intros Hlt. apply Qltb_lt in Hlt as Hb. rewrite Hb.
    exists (int (fl (em * 60))). split; [reflexivity |].
    assert (Hx0 : (0 <= em * 60)%Q) by lra.
    rewrite int_nonneg by (apply fl_nonneg; exact Hx0).
    assert (H30 : (30 <= fl (em * 60))%Q).
    { apply fl_lower; [apply (double_Z 30); lia | lra]. }
    assert (H60 : (fl (em * 60) < 60)%Q).
    { assert (Hlt0 : (em < pow2 0)%Q) by (change (pow2 0) with 1%Q; exact Hlt).
      pose proof (double_below_pow2 em 0 Hd Hlt0) as Hfb.
      change (pow2 0) with 1%Q in Hfb. change (0 - 53) with (-53) in Hfb.
      assert (Hp : double (60 - pow2 (-47))).
      { exists (60 * 2 ^ 47 - 1), (-47). split; [lia |]. split; [lia |].
        vm_compute. reflexivity. }
      assert (Eu : (pow2 (-47) == 64 * pow2 (-53))%Q) by (vm_compute; reflexivity).
      pose proof (pow2_pos (-53)) as Hu0.
      set (u := pow2 (-53)) in *. set (v := pow2 (-47)) in *.
      destruct (Qlt_le_dec (60 - v) (em * 60)) as [Hgt | Hle].
      - pose proof (fl_near_below (em * 60) (60 - v) Hp (Qlt_le_weak _ _ Hgt)). lra.
      - pose proof (fl_upper (em * 60) (60 - v) Hx0 Hp Hle). lra. }
    pose proof (floor_ge _ 30 H30) as Hn.
    destruct (floor_bounds (fl (em * 60))) as [Hl _].
    assert (Hn' : Qfloor (fl (em * 60)) < 60).
    { rewrite Zlt_Qlt. change (inject_Z 60) with 60%Q. lra. }
    lia.
  - intros Hge.
    replace (Qltb em 1) with false by (symmetry; apply Qltb_ge; lra).
    replace (Qltb em 60) with false by (symmetry; apply Qltb_ge; lra).
    destruct (float_divmod_60 em) as (Hm0 & Hm1 & Hh); [lra |].
    specialize (Hh Hge).
    exists (int (float_floordiv em 60)), (int (float_mod em 60)).
    split; [reflexivity |].
    rewrite !int_nonneg by lra.
    pose proof (floor_ge _ 1 Hh) as H1.
    pose proof (floor_ge _ 0 Hm0) as H2.
    destruct (floor_bounds (float_mod em 60)) as [Hl _].
    assert (H3 : Qfloor (float_mod em 60) < 60).
    { rewrite Zlt_Qlt. change (inject_Z 60) with 60%Q. lra. }
    lia.
Qed.

Lemma estimate_processing_time_shape_witness :
  (exists h m,
     estimate_processing_time 500 "large-v2" "cpu"
     = "~" ++ str_of_Z h ++ "h" ++ format_0d 2 m ++ "min" /\ 1 <= h /\ 0 <= m <= 59)
  /\ (exists n,
        estimate_processing_time (fl (1 # 10)) "tiny" "cuda" = "~" ++ str_of_Z n ++ "s"
        /\ 30 <= n <= 59).
Proof.
  destruct (estimate_processing_time_shape 500 "large-v2" "cpu") as (_ & _ & Hh);
    [vm_compute; discriminate |].
  destruct (estimate_processing_time_shape (fl (1 # 10)) "tiny" "cuda") as (_ & Hs & _);
    [vm_compute; discriminate |].
  split.
  - apply Hh. vm_compute. discriminate.
  - apply Hs. vm_compute. reflexivity.
Defined.

(** The estimates in double precision, where the value of the expression
    as a real number would be shown otherwise. *)
Example estimate_processing_time_rounds :
  estimate_processing_time 11 "base" "cuda" = "~2.1min"
  /\ estimate_processing_time (fl (16666666666666666 # 100000000000000000)) "tiny" "cuda"
     = "~31s"
  /\ estimate_processing_time (fl (4433333333333333 # 10000000000000)) "base" "cuda"
     = "~1h07min".
Proof. vm_compute. repeat split. Qed.

(** X12: a model name outside the five known ones is estimated like
    small, and a device name other than cuda and cpu like cpu. *)
Theorem estimate_processing_time_fallbacks (size : Q) (model_size device_type : string) :
  (str_in model_size ["tiny"; "base"; "small"; "medium"; "large-v2"] = false ->
   estimate_processing_time size model_size device_type
   = estimate_processing_time size "small" device_type)
  /\ (str_in device_type ["cuda"; "cpu"] = false ->
      estimate_processing_time size model_size device_type
      = estimate_processing_time size model_size "cpu").
Proof.
  split; intros H; unfold estimate_processing_time, estimated_minutes;
    cbn [str_in existsb] in H; repeat (apply orb_false_iff in H as [? H]).
  - replace (assoc model_size model_factors) with (@None Q); [reflexivity |].
    cbn [assoc model_factors]. now repeat match goal with
      | E : (model_size =? _)%string = false |- _ => rewrite E; clear E end.
  - replace (assoc device_type device_multipliers) with (@None Q); [reflexivity |].
    cbn [assoc device_multipliers]. now repeat match goal with
      | E : (device_type =? _)%string = false |- _ => rewrite E; clear E end.
Qed.

Lemma estimate_processing_time_fallbacks_witness :
  estimate_processing_time 10 "large" "mps" = estimate_processing_time 10 "small" "mps"
  /\ estimate_processing_time 10 "large" "mps" = estimate_processing_time 10 "large" "cpu".
Proof.
  destruct (estimate_processing_time_fallbacks 10 "large" "mps") as [Hm Hd].
  split; [apply Hm | apply Hd]; reflexivity.
Defined.

(** ** File names *)

Lemma first_char_collapse (s : string) :
  first_char (collapse_underscores s) = first_char s.
Proof.
  induction s as [| c s IH]; [reflexivity |].
  cbn [collapse_underscores]. destruct s as [| c' s]; [reflexivity |].
  destruct (Ascii.eqb c "_") eqn:Ec; [| reflexivity].
  destruct (Ascii.eqb c' "_") eqn:Ec'; [| reflexivity].
  cbn [andb]. rewrite IH. cbn [first_char].
  apply Ascii.eqb_eq in Ec, Ec'. congruence.
Qed.

Lemma collapse_no_double (s : string) :
  no_double_underscore (collapse_underscores s) = true.
Proof.
  induction s as [| c s IH]; [reflexivity |].
  cbn [collapse_underscores]. destruct s as [| c' s]; [reflexivity |].
  destruct (Ascii.eqb c "_" && Ascii.eqb c' "_") eqn:E; [exact IH |].
  pose proof (first_char_collapse (String c' s)) as Hf.
  cbn [no_double_underscore]. rewrite IH, andb_true_r.
  destruct (collapse_underscores (String c' s)) as [| d r]; [reflexivity |].
  cbn [first_char] in Hf. injection Hf as ->. unfold is_underscore. now rewrite E.
Qed.

Lemma collapse_forall_chars (p : ascii -> bool) (s : string) :
  forall_chars p s = true -> forall_chars p (collapse_underscores s) = true.
Proof.
  induction s as [| c s IH]; [reflexivity |].
  cbn [forall_chars]. intros H. apply andb_true_iff in H as [Hc Hs].
  cbn [collapse_underscores]. destruct s as [| c' s].
  - cbn. now rewrite Hc.
  - destruct (Ascii.eqb c "_" && Ascii.eqb c' "_"); [now apply IH |].
    cbn [forall_chars]. now rewrite Hc, IH.
Qed.

Lemma lstrip_chars_no_double (p : ascii -> bool) (s : string) :
  no_double_underscore s = true -> no_double_underscore (lstrip_chars p s) = true.
Proof.
  induction s as [| c s IH]; [reflexivity |].
  intros H. cbn [lstrip_chars]. destruct (p c); [| exact H].
  apply IH. cbn [no_double_underscore] in H. now apply andb_true_iff in H as [_ H].
Qed.

Lemma lstrip_chars_forall (p q : ascii -> bool) (s : string) :
  forall_chars q s = true -> forall_chars q (lstrip_chars p s) = true.
Proof.
  induction s as [| c s IH]; [reflexivity |].
  intros H. cbn [lstrip_chars]. destruct (p c); [| exact H].
  apply IH. cbn [forall_chars] in H. now apply andb_true_iff in H as [_ H].
Qed.

Lemma lstrip_chars_first (p : ascii -> bool) (s : string) (c : ascii) :
  first_char (lstrip_chars p s) = Some c -> p c = false.
Proof.
  induction s as [| a s IH]; [discriminate |].
  cbn [lstrip_chars]. destruct (p a) eqn:Ha; [exact IH |].
  cbn. now intros [= <-].
Qed.

Lemma rstrip_chars_first (p : ascii -> bool) (s : string) (c : ascii) :
  first_char s = Some c -> p c = false ->
  first_char (rstrip_chars p s) = Some c.
Proof.
  destruct s as [| a s]; [discriminate |]. cbn [first_char]. intros [= ->] Hc.
  cbn [rstrip_chars]. destruct (rstrip_chars p s); [now rewrite Hc | reflexivity].
Qed.

Lemma rstrip_chars_last (p : ascii -> bool) (s : string) (c : ascii) :
  last_char (rstrip_chars p s) = Some c -> p c = false.
Proof.
  induction s as [| a s IH]; [discriminate |].
  cbn [rstrip_chars]. destruct (rstrip_chars p s) as [| b r] eqn:Hr.
  - destruct (p a) eqn:Ha; [discriminate |]. cbn. now intros [= <-].
  - cbn [last_char]. exact IH.
Qed.

Lemma rstrip_chars_no_double (p : ascii -> bool) (s : string) :
  no_double_underscore s = true -> no_double_underscore (rstrip_chars p s) = true.
Proof.
  induction s as [| c s IH]; [reflexivity |].
  cbn [no_double_underscore]. intros H. apply andb_true_iff in H as [Hc Hs].
  specialize (IH Hs). cbn [rstrip_chars].
  destruct (rstrip_chars p s) as [| b r] eqn:Hr.
  - now destruct (p c).
  - cbn [no_double_underscore]. cbn [no_double_underscore] in IH. rewrite IH, andb_true_r.
    destruct s as [| c' s]; [discriminate Hr |].
    replace b with c'; [exact Hc |].
    cbn [rstrip_chars] in Hr. destruct (rstrip_chars p s); [destruct (p c') |];
      congruence.
Qed.

Lemma rstrip_chars_forall (p q : ascii -> bool) (s : string) :
  forall_chars q s = true -> forall_chars q (rstrip_chars p s) = true.
Proof.
  induction s as [| c s IH]; [reflexivity |].
  cbn [forall_chars]. intros H. apply andb_true_iff in H as [Hc Hs].
  specialize (IH Hs). cbn [rstrip_chars].
  destruct (rstrip_chars p s) as [| b r].
  - destruct (p c); [reflexivity |]. cbn. now rewrite Hc.
  - cbn [forall_chars]. cbn [forall_chars] in IH. now rewrite Hc, IH.
Qed.

Lemma str_map_sanitize (is_word : ascii -> bool) (s : string) :
  forall_chars (kept_char is_word) (str_map (sanitize_char is_word) s) = true.
Proof.
  induction s as [| c s IH]; [reflexivity |].
  cbn [str_map forall_chars]. rewrite IH, andb_true_r.
  unfold sanitize_char, kept_char.
  destruct (is_word c || Ascii.eqb c "-" || Ascii.eqb c "_" || Ascii.eqb c ".") eqn:E;
    [exact E |].
  change (Ascii.eqb "_" "_") with true. now rewrite orb_true_r.
Qed.

(** X13: whatever the name, [clean_filename] returns a cleaned stem
    followed by the unchanged suffix of the name; the stem is never empty,
    holds no two underscores in a row, neither starts nor ends with an
    underscore, and is either the default [audio_file] or made only of word
    characters, hyphens, underscores and dots. *)
Theorem clean_filename_shape
    (path_stem path_suffix : string -> string) (is_word : ascii -> bool)
    (filename : string) :
  exists stem,
    clean_filename path_stem path_suffix is_word filename
      = stem ++ path_suffix filename
    /\ stem <> EmptyString
    /\ no_double_underscore stem = true
    /\ first_char stem <> Some "_"%char
    /\ last_char stem <> Some "_"%char
    /\ (stem = "audio_file" \/ forall_chars (kept_char is_word) stem = true).
Proof.
  exists (clean_stem is_word (path_stem filename)). split; [reflexivity |].
  unfold clean_stem.
  set (mapped := str_map (sanitize_char is_word) (path_stem filename)).
  set (stripped := rstrip_chars is_underscore
                     (lstrip_chars is_underscore (collapse_underscores mapped))).
  destruct (String.eqb_spec stripped EmptyString) as [| Hne].
  - repeat split; try discriminate. now left.
  - split; [exact Hne |]. split; [| split; [| split]].
    + apply rstrip_chars_no_double, lstrip_chars_no_double, collapse_no_double.
    + intros Hf. subst stripped.
      pose proof (lstrip_chars_first is_underscore (collapse_underscores mapped)) as Ha.
      destruct (lstrip_chars is_underscore (collapse_underscores mapped)) as [| a l];
        [now contradiction Hne |].
      specialize (Ha a eq_refl).
      rewrite (rstrip_chars_first is_underscore (String a l) a eq_refl Ha) in Hf.
      injection Hf as ->. discriminate Ha.
    + intros Hl. apply rstrip_chars_last in Hl. discriminate Hl.
    + right. apply rstrip_chars_forall, lstrip_chars_forall, collapse_forall_chars,
        str_map_sanitize.
Qed.

(** The expectation of the unit test of the repository for this input,
    [arquivo_especial_.wav], is not what the function returns. *)
Example clean_filename_trailing_symbol :
  clean_filename posix_stem posix_suffix ascii_word "arquivo@especial#.wav"
  = "arquivo_especial.wav".
Proof. reflexivity. Qed.

(** ** Staging an upload *)

Lemma write_chunks_fold (k : nat) (data : list byte) (n start : nat) (acc : list byte) :
  fold_left (fun file i => (file ++ take k (drop i data))%list)
            (py_range n start k) acc
  = (acc ++ take (n * k) (drop start data))%list.
Proof.
  revert start acc. induction n as [| n IH]; intros start acc.
  - cbn. now rewrite take_0, app_nil_r.
  - cbn [py_range fold_left]. rewrite IH, <- app_assoc. f_equal.
    rewrite <- drop_drop, take_take_drop. reflexivity.
Qed.

Lemma range_len_covers (len k : nat) : (0 < k -> len <= range_len len k * k)%nat.
Proof.
  intros Hk. unfold range_len.
  pose proof (Nat.div_mod (len + k - 1) k ltac:(lia)) as Hdm.
  pose proof (Nat.mod_upper_bound (len + k - 1) k ltac:(lia)) as Hmod.
  nia.
Qed.

Lemma py_range_elements (n start k i : nat) :
  In i (py_range n start k) -> exists j, (j < n)%nat /\ i = (start + j * k)%nat.
Proof.
  revert start. induction n as [| n IH]; intros start; [contradiction |].
  cbn [py_range In]. intros [<- | Hin].
  - exists 0%nat. split; lia.
  - destruct (IH _ Hin) as (j & Hj & ->). exists (S j). split; lia.
Qed.

Lemma write_chunks_id (bytes_data : list byte) :
  write_chunks chunk_size bytes_data = bytes_data.
Proof.
  unfold write_chunks. rewrite write_chunks_fold. cbn [app drop].
  apply take_ge, range_len_covers. unfold chunk_size. lia.
Qed.

(** X14: the writing loop of [save_uploaded_file] writes the uploaded
    bytes unchanged, whatever their number, in [ceil(len / 8192)] slices,
    each of 1 to 8192 bytes. *)
Theorem write_chunks_writes_all (bytes_data : list byte) :
  write_chunks chunk_size bytes_data = bytes_data
  /\ length (py_range (range_len (length bytes_data) chunk_size) 0 chunk_size)
     = range_len (length bytes_data) chunk_size
  /\ forall i,
       In i (py_range (range_len (length bytes_data) chunk_size) 0 chunk_size) ->
       (1 <= length (take chunk_size (drop i bytes_data)) <= chunk_size)%nat.
Proof.
  assert (Hk : (0 < chunk_size)%nat) by (unfold chunk_size; lia).
  set (k := chunk_size) in *. split; [| split].
  - apply write_chunks_id.
  - generalize (range_len (length bytes_data) k) 0%nat.
    intros n. induction n as [| n IH]; intros start; [reflexivity |].
    cbn [py_range length]. now rewrite IH.
  - intros i Hin. apply py_range_elements in Hin as (j & Hj & ->).
    rewrite length_take, length_drop. unfold range_len in Hj.
    pose proof (Nat.div_mod (length bytes_data + k - 1) k ltac:(lia)) as Hdm.
    pose proof (Nat.mod_upper_bound (length bytes_data + k - 1) k ltac:(lia)) as Hmod.
    nia.
Qed.

Lemma invalid_has_error (path_suffix lower : string -> string)
    (uploaded_file : option UploadedFile) :
  valid (validate_audio_file path_suffix lower uploaded_file) = false ->
  exists msg, error (validate_audio_file path_suffix lower uploaded_file) = Some msg.
Proof.
  unfold validate_audio_file, invalid.
  repeat match goal with
         | |- context [match ?x with _ => _ end] => destruct x
         end; cbn; intros H; try discriminate H; eexists; reflexivity.
Qed.

(** X15: a file the validator rejects is not staged: the file system is
    left as it was and the caller gets an exception whose message is the
    validation error behind the prefix of [save_uploaded_file]. *)
Theorem save_uploaded_file_rejects
    (path_suffix lower : string -> string)
    (guess : option string -> result (option string)) (timestamp : string)
    (named_temporary_file : string -> string -> string)
    (uploaded_file : option UploadedFile) (bytes_data : list byte)
    (fs : gmap string (list byte)) :
  valid (validate_audio_file path_suffix lower uploaded_file) = false ->
  exists msg,
    error (validate_audio_file path_suffix lower uploaded_file) = Some msg
    /\ save_uploaded_file path_suffix lower guess timestamp named_temporary_file
         uploaded_file bytes_data fs
       = (fs, Raise (Exception ("Erro ao salvar arquivo: " ++ msg))).
Proof.
  intros H. destruct (invalid_has_error _ _ _ H) as [msg Hmsg].
  exists msg. split; [exact Hmsg |].
  unfold save_uploaded_file. now rewrite H, Hmsg.
Qed.

Lemma save_uploaded_file_rejects_witness :
  save_uploaded_file posix_suffix str_lower no_mimetypes "20240101_120000"
    plain_temporary_file (Some text_upload) [x00; x01]%byte ∅
  = (∅, Raise (Exception
                 "Erro ao salvar arquivo: Tipo de arquivo não suportado: text/plain")).
Proof.
  destruct (save_uploaded_file_rejects posix_suffix str_lower no_mimetypes
              "20240101_120000" plain_temporary_file (Some text_upload)
              [x00; x01]%byte ∅ eq_refl) as (msg & Hmsg & H).
  vm_compute in Hmsg. injection Hmsg as <-. exact H.
Defined.

(** X16: for a valid file with an extension, the staged file holds
    exactly the uploaded bytes when there are any, and its path is the one
    chosen for the lower-cased extension and the prefix
    [whisper_audio_<timestamp>_]; when the upload holds no bytes the call
    raises, but the empty temporary file stays on the file system. *)
Theorem save_uploaded_file_stages
    (path_suffix lower : string -> string)
    (guess : option string -> result (option string)) (timestamp : string)
    (named_temporary_file : string -> string -> string)
    (f : UploadedFile) (bytes_data : list byte) (fs : gmap string (list byte)) :
  valid (validate_audio_file path_suffix lower (Some f)) = true ->
  lower (path_suffix (file_name f)) <> EmptyString ->
  let temp_path :=
    named_temporary_file (lower (path_suffix (file_name f)))
      ("whisper_audio_" ++ timestamp ++ "_") in
  let outcome :=
    save_uploaded_file path_suffix lower guess timestamp named_temporary_file
      (Some f) bytes_data fs in
  fst outcome = <[temp_path := bytes_data]> fs
  /\ (bytes_data <> [] -> snd outcome = Ok temp_path)
  /\ (bytes_data = [] ->
      snd outcome
      = Raise (Exception
                 "Erro ao salvar arquivo: Arquivo temporário não foi criado corretamente")).
Proof.
  intros Hvalid Hext. cbv zeta. unfold save_uploaded_file. rewrite Hvalid.
  apply String.eqb_neq in Hext. rewrite Hext. cbn [negb mret result_ret].
  rewrite write_chunks_id.
  destruct bytes_data as [| b bytes_data]; cbn [length Nat.eqb fst snd].
  - split; [reflexivity |]. split; [intros H; now contradiction H | reflexivity].
  - split; [reflexivity |]. split; [reflexivity | discriminate].
Qed.

Lemma save_uploaded_file_stages_witness :
  save_uploaded_file posix_suffix str_lower no_mimetypes "20240101_120000"
    plain_temporary_file (Some wav_upload) [x52; x49; x46; x46]%byte ∅
  = ({["/tmp/whisper_audio_20240101_120000_k3x9.wav" := [x52; x49; x46; x46]%byte]},
     Ok "/tmp/whisper_audio_20240101_120000_k3x9.wav").
Proof.
  destruct (save_uploaded_file_stages posix_suffix str_lower no_mimetypes
              "20240101_120000" plain_temporary_file wav_upload
              [x52; x49; x46; x46]%byte ∅ eq_refl) as (Hfs & Hok & _);
    [vm_compute; discriminate |].
  specialize (Hok ltac:(discriminate)).
  rewrite (surjective_pairing (save_uploaded_file _ _ _ _ _ _ _ _)), Hfs, Hok.
  reflexivity.
Defined.

(** ** Recognition *)

Lemma transcribe_options_returns (device_name task language : string)
    (o : AdvancedOptions) :
  exists io, transcribe_options device_name task language o = Ok io.
Proof.
  unfold transcribe_options, preset_config. rewrite balanced_preset_lookup.
  cbn [getitem mbind result_bind mret result_ret]. eexists. reflexivity.
Qed.

(** X17: [transcribe_audio] lets no exception of the model or of the
    enrichment through as it is: whatever is raised reaches the caller as
    an [Exception] whose message is the original message behind the prefix
    of the function; a result of the enrichment is returned unchanged; and
    on the accelerated device the memory is released once in either case,
    on the cpu never. *)
Theorem transcribe_audio_wraps_failures (float_sum : list Q -> Q) {Model : Type}
    (model_transcribe : Model -> string -> InvocationOptions -> result RawTranscript)
    (device_name audio_path : string) (model : Model) (language task : string)
    (advanced_options : option AdvancedOptions) (elapsed : Q) :
  let o := get advanced_options no_options in
  let out := transcribe_audio Model model_transcribe device_name float_sum
               audio_path model language task advanced_options elapsed in
  exists options,
    transcribe_options device_name task language o = Ok options
    /\ fst out = (if String.eqb device_name "cuda" then [EmptyCache] else [])
    /\ (forall e, model_transcribe model audio_path options = Raise e ->
                  snd out = Raise (transcription_error e))
    /\ (forall raw, model_transcribe model audio_path options = Ok raw ->
          snd out = match enhance_transcription_result float_sum raw elapsed o with
                    | Ok r => Ok r
                    | Raise e => Raise (transcription_error e)
                    end).
Proof.
  cbv zeta.
  destruct (transcribe_options_returns device_name task language
              (get advanced_options no_options)) as [options Ho].
  exists options. split; [exact Ho |]. unfold transcribe_audio. rewrite Ho.
  destruct (model_transcribe model audio_path options) as [raw | e] eqn:Hm;
    cbn [mbind result_bind].
  - destruct (enhance_transcription_result float_sum raw elapsed _) as [r | e] eqn:He;
      cbn [fst snd]; (split; [reflexivity |]); (split; [discriminate |]);
      intros raw' [= <-]; now rewrite He.
  - cbn [fst snd]. split; [reflexivity |]. split; [now intros e' [= <-] | discriminate].
Qed.

(** X18: when the last segment of a transcript ends after zero and the
    measured processing time is zero, the enrichment raises
    [ZeroDivisionError]: the division that computes [realtime_factor] has no
    guard. *)
Theorem enhance_zero_time_raises (float_sum : list Q -> Q)
    (raw : RawTranscript) (segs : list Segment)
    (pt : Q) (o : AdvancedOptions) :
  raw_segments raw = Some segs ->
  (0 < get (last_segment_end segs) 0)%Q ->
  (pt == 0)%Q ->
  enhance_transcription_result float_sum raw pt o = Raise ZeroDivisionError.
Proof.
  intros Hs Hd Hpt. unfold enhance_transcription_result. rewrite Hs.
  rewrite mean_confidence_value. cbn [mbind result_bind].
  now rewrite (speed_statistics_zero_time _ _ Hd Hpt).
Qed.

Lemma enhance_zero_time_raises_witness :
  enhance_transcription_result left_to_right_sum sample_raw 0 no_options
  = Raise ZeroDivisionError.
Proof.
  apply (enhance_zero_time_raises left_to_right_sum sample_raw _ 0 no_options eq_refl);
    reflexivity.
Defined.

(** Through [transcribe_audio], a model that answers within the resolution
    of the clock makes the whole call fail. *)
Example transcribe_audio_instant_model :
  snd (transcribe_audio unit instant_model "cpu" left_to_right_sum "gravacao.wav" tt
         "pt" "transcribe" None 0)
  = Raise (Exception "Erro durante a transcrição: float division by zero").
Proof. vm_compute. reflexivity. Qed.

(** X19: the recommended model is always one of the five of [MODELS]. On
    the cpu it is base or small, and for files of 10 MB to under 50 MB it is
    small, a model the cpu profile of [optimize_for_device] does not list;
    on any other device it is small, medium or large-v2 and never gets
    lighter as the file grows. *)
Theorem get_model_recommendations_range (size size' : Q) (device_type : string)
    (total_memory : Z) :
  In (get_model_recommendations size device_type) (map fst MODELS)
  /\ In (get_model_recommendations size "cpu") ["base"; "small"]
  /\ ((10 <= size)%Q -> (size < 50)%Q ->
      str_in (get_model_recommendations size "cpu")
             (recommended_models (optimize_for_device "cpu" total_memory)) = false)
  /\ (device_type <> "cpu" ->
      In (get_model_recommendations size device_type) ["small"; "medium"; "large-v2"])
  /\ (device_type <> "cpu" -> (size <= size')%Q ->
      (model_rank (get_model_recommendations size device_type)
       <= model_rank (get_model_recommendations size' device_type))%nat).
Proof.
  unfold get_model_recommendations. split; [| split; [| split; [| split]]].
  - destruct (String.eqb device_type "cpu"), (Qltb size 10), (Qltb size 50),
      (Qltb size 5), (Qltb size 25); cbn; tauto.
  - change (String.eqb "cpu" "cpu") with true. cbv iota.
    destruct (Qltb size 10), (Qltb size 50); cbn; tauto.
  - intros H10 H50. change (String.eqb "cpu" "cpu") with true. cbv iota.
    apply Qltb_ge in H10. apply Qltb_lt in H50. now rewrite H10, H50.
  - intros Hdev. apply String.eqb_neq in Hdev. rewrite Hdev.
    destruct (Qltb size 5), (Qltb size 25); cbn; tauto.
  - intros Hdev Hle. apply String.eqb_neq in Hdev. rewrite Hdev.
    destruct (Qltb size 5) eqn:E5, (Qltb size 25) eqn:E25,
      (Qltb size' 5) eqn:E5', (Qltb size' 25) eqn:E25';
      try (cbn; lia);
      repeat match goal with
             | H : Qltb _ _ = true |- _ => apply Qltb_lt in H
             | H : Qltb _ _ = false |- _ => apply Qltb_ge in H
             end; lra.
Qed.

Lemma get_model_recommendations_range_witness :
  str_in (get_model_recommendations 20 "cpu")
         (recommended_models (optimize_for_device "cpu" 0)) = false
  /\ In (get_model_recommendations 3 "cuda") ["small"; "medium"; "large-v2"]
  /\ (model_rank (get_model_recommendations 3 "cuda")
      <= model_rank (get_model_recommendations 30 "cuda"))%nat.
Proof.
  destruct (get_model_recommendations_range 20 20 "cpu" 0) as (_ & _ & H & _).
  destruct (get_model_recommendations_range 3 30 "cuda" 0) as (_ & _ & _ & Hin & Hm).
  split; [| split].
  - apply H; vm_compute; first [reflexivity | discriminate].
  - apply Hin. discriminate.
  - apply Hm; [discriminate | vm_compute; discriminate].
Defined.

(** ** Filtering, analysis and loading, continued *)

Lemma keeps_annotate (float_sum : list Q -> Q)
    (t : Q) (s : Segment) :
  keeps float_sum t (annotate float_sum s) = keeps float_sum t s.
Proof. reflexivity. Qed.

Lemma annotate_idempotent (float_sum : list Q -> Q)
    (s : Segment) : annotate float_sum (annotate float_sum s) = annotate float_sum s.
Proof. reflexivity. Qed.

Lemma filter_map_annotate (float_sum : list Q -> Q) (t : Q) (l : list Segment) :
  List.filter (keeps float_sum t) (map (annotate float_sum) l)
  = map (annotate float_sum) (List.filter (keeps float_sum t) l).
Proof.
  induction l as [| s l IH]; [reflexivity |].
  cbn [map List.filter]. rewrite keeps_annotate, IH. now destruct (keeps float_sum t s).
Qed.

Lemma filter_keeps_le (float_sum : list Q -> Q) (t1 t2 : Q) (l : list Segment) :
  (t1 <= t2)%Q ->
  List.filter (keeps float_sum t2) (List.filter (keeps float_sum t1) l)
  = List.filter (keeps float_sum t2) l.
Proof.
  intros Hle. induction l as [| s l IH]; [reflexivity |].
  cbn [List.filter]. destruct (keeps float_sum t1 s) eqn:E1.
  - cbn [List.filter]. now rewrite IH.
  - rewrite IH. destruct (keeps float_sum t2 s) eqn:E2; [| reflexivity].
    unfold keeps in *. apply Qle_bool_iff in E2.
    assert (Qle_bool t1 (stated_confidence float_sum s) = true)
      by (apply Qle_bool_iff; lra).
    congruence.
Qed.

(** X20: filtering the outcome of a filter again with a threshold that is
    not lower gives what filtering the original segments with that
    threshold gives; in particular filtering twice with one threshold
    changes nothing. *)
Theorem filter_segments_by_confidence_composes (float_sum : list Q -> Q)
    (segs kept : list Segment) (t1 t2 : Q) :
  (t1 <= t2)%Q ->
  filter_segments_by_confidence float_sum segs t1 = Ok kept ->
  filter_segments_by_confidence float_sum kept t2
  = filter_segments_by_confidence float_sum segs t2
  /\ filter_segments_by_confidence float_sum kept t1 = Ok kept.
Proof.
  intros Hle H. rewrite filter_segments_by_confidence_value in H. injection H as <-.
  rewrite !filter_segments_by_confidence_value, !filter_map_annotate.
  rewrite filter_keeps_le by exact Hle. rewrite filter_keeps_le by lra.
  rewrite !map_map. split; f_equal.
Qed.

Lemma filter_segments_by_confidence_composes_witness :
  exists kept,
    filter_segments_by_confidence left_to_right_sum
      (get (raw_segments sample_raw) []) (3 # 10) = Ok kept
    /\ filter_segments_by_confidence left_to_right_sum kept (6 # 10)
       = filter_segments_by_confidence left_to_right_sum
           (get (raw_segments sample_raw) []) (6 # 10).
Proof.
  eexists. split; [vm_compute; reflexivity |].
  assert (Hle : (3 # 10 <= 6 # 10)%Q) by (vm_compute; discriminate).
  exact (proj1 (filter_segments_by_confidence_composes left_to_right_sum
                  (get (raw_segments sample_raw) []) _ (3 # 10) (6 # 10) Hle
                  ltac:(vm_compute; reflexivity))).
Defined.

(** X21: the two confidence labels of the analysis never contradict
    each other: high language confidence comes with excellent quality, low
    language confidence with fair or poor quality, and poor quality with
    low language confidence. *)
Theorem analysis_labels_agree (r : Transcript) (c : AudioCharacteristics) :
  analyze_audio_characteristics r = Ok c ->
  (language_confidence c = "high" -> audio_quality c = "excellent")
  /\ (language_confidence c = "low" ->
      audio_quality c = "fair" \/ audio_quality c = "poor")
  /\ (audio_quality c = "poor" -> language_confidence c = "low").
Proof.
  unfold analyze_audio_characteristics.
  destruct (segments r) as [[| s segs] |]; try (intros [= <-]; cbn; repeat split; discriminate).
  unfold mbind, result_bind, mret, result_ret. intros H.
  do 2 match type of H with
       | match ?m with Ok _ => _ | Raise _ => _ end = _ =>
           destruct m; [| discriminate H]
       end.
  injection H as <-.
  cbn [language_confidence audio_quality default_characteristics].
  set (avg := get (average_confidence r) (5 # 10)).
  destruct (Qgtb avg (8 # 10)) eqn:E8, (Qltb avg (4 # 10)) eqn:E4,
    (Qgtb avg (7 # 10)) eqn:E7, (Qgtb avg (5 # 10)) eqn:E5,
    (Qgtb avg (3 # 10)) eqn:E3;
    unfold Qgtb in *;
    repeat match goal with
           | H : Qltb _ _ = true |- _ => apply Qltb_lt in H
           | H : Qltb _ _ = false |- _ => apply Qltb_ge in H
           end;
    try lra; repeat split; intros; try discriminate; auto.
Qed.

Lemma analysis_labels_agree_witness :
  exists c,
    analyze_audio_characteristics low_confidence_transcript = Ok c
    /\ language_confidence c = "low" /\ audio_quality c = "poor".
Proof.
  eexists. split; [vm_compute; reflexivity |].
  match goal with
  | |- language_confidence ?c = _ /\ _ =>
      destruct (analysis_labels_agree low_confidence_transcript c eq_refl)
        as (_ & _ & H)
  end.
  split; [apply H |]; reflexivity.
Defined.

Lemma detect_silence_cons (p x : Segment) (l : list Segment) :
  timed p = true -> timed x = true -> long_gap p x = false ->
  detect_silence (p :: x :: l) = detect_silence (x :: l).
Proof.
  unfold timed, long_gap. intros Hp Hx Hgap. cbn [detect_silence].
  destruct (seg_start x) as [s |]; [| discriminate].
  destruct (seg_end p) as [e |]; [| now destruct (seg_start p)].
  cbn [getitem mbind result_bind]. now rewrite Hgap.
Qed.

(** X22: the pause detection answers true at the first pair of
    neighbours more than three seconds apart, without looking at the
    segments after it, which may even lack their times; and it answers
    false when the segments carry their times and no neighbours are that
    far apart. *)
Theorem detect_silence_first_pause (before : list Segment) (a b : Segment)
    (after : list Segment) :
  (forallb timed (before ++ [a]) = true ->
   no_long_gap (before ++ [a]) = true ->
   long_gap a b = true ->
   detect_silence (before ++ a :: b :: after) = Ok true)
  /\ (forallb timed before = true -> no_long_gap before = true ->
      detect_silence before = Ok false).
Proof.
  split.
  - induction before as [| p before IH]; intros Htimed Hgap Hab.
    + cbn [app detect_silence]. unfold long_gap in Hab.
      destruct (seg_start b) as [s |]; [| discriminate].
      destruct (seg_end a) as [e |]; [| discriminate].
      cbn [getitem mbind result_bind]. now rewrite Hab.
    + cbn [app forallb] in Htimed. apply andb_true_iff in Htimed as [Hp Htimed].
      destruct before as [| x before].
      * cbn [app] in *. cbn [no_long_gap] in Hgap.
        apply andb_true_iff in Hgap as [Hpa _]. apply negb_true_iff in Hpa.
        cbn [forallb] in Htimed. apply andb_true_iff in Htimed as [Ha _].
        rewrite (detect_silence_cons p a _ Hp Ha Hpa).
        apply IH; [cbn; now rewrite Ha | reflexivity | exact Hab].
      * cbn [app] in *. cbn [no_long_gap] in Hgap.
        apply andb_true_iff in Hgap as [Hpx Hgap]. apply negb_true_iff in Hpx.
        pose proof Htimed as Hx. cbn [forallb] in Hx.
        apply andb_true_iff in Hx as [Hx _].
        rewrite (detect_silence_cons p x _ Hp Hx Hpx). now apply IH.
  - induction before as [| p before IH]; intros Htimed Hgap; [reflexivity |].
    destruct before as [| x before]; [reflexivity |].
    cbn [forallb] in Htimed. apply andb_true_iff in Htimed as [Hp Htimed].
    cbn [no_long_gap] in Hgap. apply andb_true_iff in Hgap as [Hpx Hgap].
    apply negb_true_iff in Hpx.
    pose proof Htimed as Hx. cbn [forallb] in Hx. apply andb_true_iff in Hx as [Hx _].
    rewrite (detect_silence_cons p x _ Hp Hx Hpx). now apply IH.
Qed.

Lemma detect_silence_first_pause_witness :
  detect_silence ([sample_segment 0 1 "a" None] ++ sample_segment 1 2 "b" None
                    :: sample_segment 6 7 "c" None :: [bare_segment; bare_segment])
  = Ok true
  /\ detect_silence [sample_segment 0 1 "a" None] = Ok false.
Proof.
  destruct (detect_silence_first_pause [sample_segment 0 1 "a" None]
              (sample_segment 1 2 "b" None) (sample_segment 6 7 "c" None)
              [bare_segment; bare_segment]) as [Hpause Hquiet].
  split; [apply Hpause | apply Hquiet]; vm_compute; reflexivity.
Defined.

(** The pause is measured in double precision: from 1.4 to 4.4 the
    difference of the doubles rounds to a double above three, from 0.1 to
    3.1 it rounds to three although the doubles are further apart. *)
Example detect_silence_rounds_the_gap :
  detect_silence [sample_segment 0 (fl (14 # 10)) "a" None;
                  sample_segment (fl (44 # 10)) 5 "b" None] = Ok true
  /\ detect_silence [sample_segment 0 (fl (1 # 10)) "a" None;
                     sample_segment (fl (31 # 10)) 4 "b" None] = Ok false
  /\ (3 < fl (31 # 10) - fl (1 # 10))%Q.
Proof. vm_compute. repeat split. Qed.

(** X23: the average confidence, the audio duration and the two speed
    figures of the enriched result do not depend on the options: filtering
    segments out, even the last one, leaves them as they are. *)
Theorem enrichment_metrics_ignore_options (float_sum : list Q -> Q)
    (raw : RawTranscript) (pt : Q)
    (o1 o2 : AdvancedOptions) (r1 r2 : Transcript) :
  enhance_transcription_result float_sum raw pt o1 = Ok r1 ->
  enhance_transcription_result float_sum raw pt o2 = Ok r2 ->
  average_confidence r1 = average_confidence r2
  /\ audio_duration r1 = audio_duration r2
  /\ audio_duration r1 = raw_segments raw ≫= last_segment_end
  /\ processing_speed_ratio r1 = processing_speed_ratio r2
  /\ realtime_factor r1 = realtime_factor r2.
Proof.
  intros H1 H2. destruct (raw_segments raw) as [segs |] eqn:Hs.
  - destruct (enhance_fields float_sum raw segs pt o1 r1 Hs H1)
      as (a1 & s1 & k1 & Ha1 & Hs1 & _ & Hav1 & Hd1 & Hr1 & Hf1 & _).
    destruct (enhance_fields float_sum raw segs pt o2 r2 Hs H2)
      as (a2 & s2 & k2 & Ha2 & Hs2 & _ & Hav2 & Hd2 & Hr2 & Hf2 & _).
    rewrite Ha1 in Ha2. injection Ha2 as <-.
    rewrite Hs1 in Hs2. injection Hs2 as <-.
    cbn [mbind option_bind]. repeat split; congruence.
  - unfold enhance_transcription_result in H1, H2. rewrite Hs in H1, H2.
    unfold mbind, result_bind, mret, result_ret in H1, H2.
    inv_bind H1. inv_bind H2. injection H1 as <-. injection H2 as <-.
    now repeat split.
Qed.

Lemma enrichment_metrics_ignore_options_witness :
  exists r1 r2,
    enhance_transcription_result left_to_right_sum sample_raw (3 # 2) no_options = Ok r1
    /\ enhance_transcription_result left_to_right_sum sample_raw (3 # 2)
         (with_threshold (6 # 10)) = Ok r2
    /\ segments r1 <> segments r2
    /\ audio_duration r1 = audio_duration r2.
Proof.
  do 2 eexists. split; [vm_compute; reflexivity |].
  split; [vm_compute; reflexivity |].
  match goal with
  | |- segments ?r1 <> segments ?r2 /\ _ =>
      destruct (enrichment_metrics_ignore_options left_to_right_sum sample_raw (3 # 2)
                  no_options (with_threshold (6 # 10)) r1 r2
                  ltac:(vm_compute; reflexivity) ltac:(vm_compute; reflexivity))
        as (_ & Hd & _)
  end.
  split; [discriminate | exact Hd].
Defined.

(** ** Subtitle export, continued *)

Lemma string_app_nil_r (s : string) : s ++ EmptyString = s.
Proof.
  induction s as [| c s IH]; [reflexivity |]. rewrite string_app_cons. now rewrite IH.
Qed.

(** The text built so far is only ever extended. *)
Lemma generate_srt_loop_acc (segs : list Segment) (i : Z) (acc : string) :
  generate_srt_loop i segs acc
  = (fun out => acc ++ out) <$> generate_srt_loop i segs EmptyString.
Proof.
  revert i acc. induction segs as [| s segs IH]; intros i acc.
  - cbn. now rewrite string_app_nil_r.
  - cbn [generate_srt_loop].
    destruct (seg_start s) as [a |]; [| reflexivity].
    destruct (seg_end s) as [b |]; [| reflexivity].
    destruct (seg_text s) as [t |]; [| reflexivity].
    cbn [getitem fmap result_fmap mbind result_bind].
    rewrite (IH (i + 1) (acc ++ _)), (IH (i + 1) (EmptyString ++ _)).
    destruct (generate_srt_loop (i + 1) segs EmptyString) as [out |]; [| reflexivity].
    cbn [fmap result_fmap]. now rewrite string_app_nil, string_app_assoc.
Qed.

Lemma generate_srt_loop_app (a b : list Segment) (i : Z) (acc : string) :
  generate_srt_loop i (a ++ b) acc
  = generate_srt_loop i a acc ≫= generate_srt_loop (i + Z.of_nat (length a)) b.
Proof.
  revert i acc. induction a as [| s a IH]; intros i acc.
  - cbn. now rewrite Z.add_0_r.
  - cbn [app generate_srt_loop length].
    destruct (seg_start s) as [x |]; [| reflexivity].
    destruct (seg_end s) as [y |]; [| reflexivity].
    destruct (seg_text s) as [t |]; [| reflexivity].
    cbn [getitem fmap result_fmap mbind result_bind]. rewrite IH.
    now replace (i + 1 + Z.of_nat (length a)) with (i + Z.of_nat (S (length a))) by lia.
Qed.

(** X25: the export of two lists of segments laid end to end is the
    export of the first followed by the blocks of the second, numbered on
    from where the first stopped; if either part raises, so does the whole,
    with the same exception. *)
Theorem generate_srt_app (a b : list Segment) :
  generate_srt (a ++ b)
  = (out_a ← generate_srt a;
     out_b ← generate_srt_loop (1 + Z.of_nat (length a)) b EmptyString;
     mret (out_a ++ out_b)).
Proof.
  unfold generate_srt. rewrite generate_srt_loop_app.
  destruct (generate_srt_loop 1 a EmptyString) as [out_a | e]; [| reflexivity].
  cbn [mbind result_bind]. rewrite generate_srt_loop_acc.
  now destruct (generate_srt_loop (1 + Z.of_nat (length a)) b EmptyString).
Qed.

Lemma generate_srt_loop_complete (segs : list Segment) (i : Z) (acc : string) :
  forallb complete segs = true ->
  generate_srt_loop i segs acc = Ok (generate_srt_from_segments_loop i segs acc).
Proof.
  revert i acc. induction segs as [| s segs IH]; intros i acc H; [reflexivity |].
  cbn [forallb] in H. apply andb_true_iff in H as [Hs Hsegs].
  cbn [generate_srt_loop generate_srt_from_segments_loop]. unfold complete in Hs.
  destruct (seg_start s) as [x |]; [| discriminate].
  destruct (seg_end s) as [y |]; [| discriminate].
  destruct (seg_text s) as [t |]; [| discriminate].
  cbn [getitem fmap result_fmap mbind result_bind get].
  rewrite IH by exact Hsegs. do 2 f_equal.
  change format_time_for_srt with format_time_srt.
  now rewrite !string_app_assoc.
Qed.

(** X26: when a segment lacks one of the keys start, end and text, the
    export raises [KeyError] for the first key missing in the first such
    segment, and nothing of the blocks already built is returned. *)
Theorem generate_srt_missing_key (good : list Segment) (bad : Segment)
    (rest : list Segment) (key : string) :
  forallb complete good = true ->
  first_missing_key bad = Some key ->
  generate_srt (good ++ bad :: rest) = Raise (KeyError key).
Proof.
  intros Hgood Hbad. unfold generate_srt.
  rewrite generate_srt_loop_app, (generate_srt_loop_complete good) by exact Hgood.
  cbn [mbind result_bind generate_srt_loop]. unfold first_missing_key in Hbad.
  destruct (seg_start bad); [| now injection Hbad as <-].
  destruct (seg_end bad); [| now injection Hbad as <-].
  destruct (seg_text bad); [discriminate | now injection Hbad as <-].
Qed.

Lemma generate_srt_missing_key_witness :
  generate_srt ([leading_space_segment] ++ set_confidence 1 bare_segment :: [])
  = Raise (KeyError "start").
Proof.
  apply (generate_srt_missing_key [leading_space_segment]
           (set_confidence 1 bare_segment) [] "start"); reflexivity.
Defined.

Lemma fill_defaults_complete (segs : list Segment) :
  forallb complete (map fill_defaults segs) = true.
Proof. induction segs as [| s segs IH]; [reflexivity |]. cbn. exact IH. Qed.

Lemma generate_srt_from_segments_loop_defaults (segs : list Segment) (i : Z)
    (acc : string) :
  generate_srt_from_segments_loop i (map fill_defaults segs) acc
  = generate_srt_from_segments_loop i segs acc.
Proof.
  revert i acc. induction segs as [| s segs IH]; intros i acc; [reflexivity |].
  cbn [map generate_srt_from_segments_loop fill_defaults seg_start seg_end seg_text get].
  now rewrite IH.
Qed.

(** X27: the export of the recorder never raises. On segments that carry
    start, end and text it returns what [generate_srt] returns; for a
    missing time it writes zero and for a missing text the empty text,
    where [generate_srt] would raise. *)
Theorem generate_srt_from_segments_agrees (segs : list Segment) :
  generate_srt (map fill_defaults segs) = Ok (generate_srt_from_segments segs)
  /\ (forallb complete segs = true ->
      generate_srt segs = Ok (generate_srt_from_segments segs)).
Proof.
  unfold generate_srt, generate_srt_from_segments. split.
  - rewrite generate_srt_loop_complete by apply fill_defaults_complete.
    now rewrite generate_srt_from_segments_loop_defaults.
  - apply generate_srt_loop_complete.
Qed.

Lemma generate_srt_from_segments_agrees_witness :
  generate_srt sample_segments = Ok (generate_srt_from_segments sample_segments).
Proof.
  apply (generate_srt_from_segments_agrees sample_segments). reflexivity.
Defined.

(** X28: every recording quality resolves to one of the three settings,
    without an error, and a name other than low, standard and high to the
    standard one. *)
Theorem get_audio_config_fallback (quality : string) :
  (exists c, get_audio_config quality = Ok c /\ In c (map snd audio_configs))
  /\ (str_in quality ["low"; "standard"; "high"] = false ->
      get_audio_config quality = get_audio_config "standard").
Proof.
  unfold get_audio_config. cbn [assoc audio_configs String.eqb getitem mbind result_bind
                                 mret result_ret str_in existsb map snd].
  change (assoc "standard" audio_configs)
    with (Some {| sample_rate := 16000; channels := 1; bit_depth := 16 |}).
  cbn [getitem mbind result_bind].
  destruct (String.eqb quality "low") eqn:El;
    [split; [eexists; split; [reflexivity | cbn; tauto] | discriminate] |].
  destruct (String.eqb quality "standard") eqn:Es;
    [split; [eexists; split; [reflexivity | cbn; tauto] | discriminate] |].
  destruct (String.eqb quality "high") eqn:Eh;
    [split; [eexists; split; [reflexivity | cbn; tauto] | discriminate] |].
  split; [eexists; split; [reflexivity | cbn; tauto] | reflexivity].
Qed.

Lemma get_audio_config_fallback_witness :
  get_audio_config "invalid" = get_audio_config "standard".
Proof.
  apply (get_audio_config_fallback "invalid"). reflexivity.
Defined.

(** ** Duration estimate *)

(** X29: with a bitrate of zero the duration estimate is the text
    [Desconhecido], the division error being caught; with a positive
    bitrate and a size that gives less than a hundred hours it is
    [HH:MM:SS] for the whole seconds of [size_mb * 8388608 / (kbps * 1000)]. *)
Theorem get_audio_duration_estimate_value (file_size_mb bitrate_kbps : Q) :
  ((bitrate_kbps == 0)%Q ->
   get_audio_duration_estimate file_size_mb bitrate_kbps = "Desconhecido")
  /\ ((0 < bitrate_kbps)%Q -> (0 <= file_size_mb)%Q ->
      (file_size_mb * 8388608 < 360000 * (bitrate_kbps * 1000))%Q ->
      get_audio_duration_estimate file_size_mb bitrate_kbps
      = hms (Qfloor (file_size_mb * 8388608 / (bitrate_kbps * 1000)))).
Proof.
  unfold get_audio_duration_estimate. split.
  - intros H. rewrite truediv_zero; [reflexivity |]. rewrite H. reflexivity.
  - intros Hb Hs Hlt.
    assert (Hpos : (0 < bitrate_kbps * 1000)%Q) by lra.
    rewrite truediv_nonzero by lra.
    assert (E : (file_size_mb * 1024 * 1024 * 8 / (bitrate_kbps * 1000)
                 == file_size_mb * 8388608 / (bitrate_kbps * 1000))%Q)
      by (field; lra).
    rewrite format_time_hms.
    + now rewrite (Qfloor_comp _ _ E).
    + apply Qle_shift_div_l; [exact Hpos | lra].
    + apply Qlt_shift_div_r; [exact Hpos | lra].
Qed.

Lemma get_audio_duration_estimate_value_witness :
  get_audio_duration_estimate 1 0 = "Desconhecido"
  /\ get_audio_duration_estimate 1 128 = "00:01:05".
Proof.
  split.
  - apply (get_audio_duration_estimate_value 1 0). reflexivity.
  - pose proof (proj2 (get_audio_duration_estimate_value 1 128)) as H.
    apply H; [reflexivity | vm_compute; discriminate | reflexivity].
Defined.
